(** * TokenFaucet: the rate-limited distribution controller

    A shallow embedding of [backend/contracts/TokenFaucet.sol] and of the
    token ledger it custodies funds in, followed by the properties of the
    accounting core: the daily and per-address caps, the cooldown, the
    epoch reset, the eligibility query, the atomicity of failed calls and
    the administrative paths (batch distribution, withdrawal,
    reconfiguration).

    Conventions.
    - A [uint256] is a [Z]; Solidity 0.8 checked arithmetic is written out:
      an addition whose result leaves the 256-bit range fails with
      [Panic 0x11].
    - An [address] is a [Z]; [address(0)] is [0].
    - A Solidity [mapping] is a [gmap] read with the default of the value
      type ([0], [false]).
    - Contract code runs in the monad [M]: a function from the world to
      either a result with the new world or an error with the world as it
      was when the error was raised.  The EVM discards the latter when the
      top-level call reverts; that is [transact]. *)

From Stdlib Require Import ZArith Lia String.
From stdpp Require Import base option list gmap strings.

Local Open Scope string_scope.
Local Open Scope list_scope.
Local Open Scope Z_scope.

(** ** Machine integers and addresses *)

Definition MAX_UINT256 : Z := 2 ^ 256 - 1.

Definition uint256 (x : Z) : Prop := 0 <= x <= MAX_UINT256.

Abbreviation address := Z.

Definition ONE_DAY : Z := 86400.

Inductive error :=
| Revert (reason : string)
| Panic (code : Z)
| CustomError (name : string).

Definition PANIC_ARITHMETIC : Z := 17.
Definition PANIC_INDEX : Z := 50.

(** Reads of Solidity mappings. *)
Definition rd {K} `{Countable K} (m : gmap K Z) (k : K) : Z := default 0 (m !! k).
Definition rdb {K} `{Countable K} (m : gmap K bool) (k : K) : bool := default false (m !! k).

(** ** The token ledger *)

(** Modelled from the spec: the token ledger (the OpenZeppelin ERC20 base
    behind [SimpleToken], which is not among the sources) is the external
    balance store of section 6: [balanceOf], [transfer] and [transferFrom],
    each transfer reporting success or failure.  [SimpleToken] routes every
    balance update through the pausable hook, so a paused ledger refuses
    transfers. *)
Record Token := mkToken {
  balances : gmap Z Z;
  allowances : gmap (Z * Z) Z;
  token_paused : bool
}.

Definition balanceOf (t : Token) (a : address) : Z := rd (balances t) a.

(** Modelled from the spec: the balance update of a transfer, failing when
    the ledger is paused or the sender's balance is short. *)
Definition erc20_update (from to value : Z) (t : Token) : error + Token :=
  if token_paused t then inl (CustomError "EnforcedPause")
  else
    let fromBalance := balanceOf t from in
    if fromBalance <? value then inl (CustomError "ERC20InsufficientBalance")
    else
      let b1 := <[from := fromBalance - value]> (balances t) in
      let b2 := <[to := (rd b1 to + value) mod 2 ^ 256]> b1 in
      inr (mkToken b2 (allowances t) (token_paused t)).

(** Modelled from the spec: [transfer(to, amount)] called by [from]. *)
Definition erc20_transfer (from to value : Z) (t : Token) : error + Token :=
  if from =? 0 then inl (CustomError "ERC20InvalidSender")
  else if to =? 0 then inl (CustomError "ERC20InvalidReceiver")
  else erc20_update from to value t.

(** Modelled from the spec: [transferFrom(from, to, amount)] called by
    [spender]; it needs the prior authorization of [from]. *)
Definition erc20_transferFrom (spender from to value : Z) (t : Token) : error + Token :=
  let allowed := rd (allowances t) (from, spender) in
  if allowed =? MAX_UINT256 then erc20_transfer from to value t
  else if allowed <? value then inl (CustomError "ERC20InsufficientAllowance")
  else
    erc20_transfer from to value
      (mkToken (balances t) (<[(from, spender) := allowed - value]> (allowances t))
               (token_paused t)).

(** ** Storage of the controller *)

Record Faucet := mkFaucet {
  (* Ownable, ReentrancyGuard, Pausable *)
  owner : address;
  reentrancy_entered : bool;
  paused : bool;
  (* TokenFaucet *)
  token : address;
  tokensPerRequest : Z;
  cooldownTime : Z;
  maxTokensPerAddress : Z;
  dailyLimit : Z;
  totalDistributedToday : Z;
  lastResetTime : Z;
  lastRequestTime : gmap Z Z;
  totalTokensReceived : gmap Z Z;
  blacklisted : gmap Z bool
}.

Inductive Event :=
| TokensRequested (user : address) (amount timestamp : Z)
| TokensDeposited (depositor : address) (amount : Z)
| TokensWithdrawn (owner_ : address) (amount : Z)
| FaucetConfigured (tokensPerRequest_ cooldownTime_ maxTokensPerAddress_ dailyLimit_ : Z)
| UserBlacklisted (user : address) (status : bool)
| DailyLimitReset (newDay totalDistributed : Z)
| EmergencyWithdraw (token_ : address) (amount : Z)
| Paused (account : address)
| Unpaused (account : address).

(** The world a call runs in: the controller's storage and address, the
    deployed ledgers by address, and the controller's event log. *)
Record World := mkWorld {
  storage : Faucet;
  self : address;
  ledgers : gmap Z Token;
  events : list Event
}.

(** The call context: [msg.sender], [tx.origin] and [block.timestamp]. *)
Record Env := mkEnv {
  msg_sender : address;
  tx_origin : address;
  block_timestamp : Z
}.

(** *** Field updates *)

Definition set_reentrancy_entered (b : bool) (s : Faucet) : Faucet :=
  mkFaucet (owner s) b (paused s) (token s) (tokensPerRequest s) (cooldownTime s)
    (maxTokensPerAddress s) (dailyLimit s) (totalDistributedToday s) (lastResetTime s)
    (lastRequestTime s) (totalTokensReceived s) (blacklisted s).

Definition set_paused (b : bool) (s : Faucet) : Faucet :=
  mkFaucet (owner s) (reentrancy_entered s) b (token s) (tokensPerRequest s) (cooldownTime s)
    (maxTokensPerAddress s) (dailyLimit s) (totalDistributedToday s) (lastResetTime s)
    (lastRequestTime s) (totalTokensReceived s) (blacklisted s).

Definition set_tokensPerRequest (v : Z) (s : Faucet) : Faucet :=
  mkFaucet (owner s) (reentrancy_entered s) (paused s) (token s) v (cooldownTime s)
    (maxTokensPerAddress s) (dailyLimit s) (totalDistributedToday s) (lastResetTime s)
    (lastRequestTime s) (totalTokensReceived s) (blacklisted s).

Definition set_cooldownTime (v : Z) (s : Faucet) : Faucet :=
  mkFaucet (owner s) (reentrancy_entered s) (paused s) (token s) (tokensPerRequest s) v
    (maxTokensPerAddress s) (dailyLimit s) (totalDistributedToday s) (lastResetTime s)
    (lastRequestTime s) (totalTokensReceived s) (blacklisted s).

Definition set_maxTokensPerAddress (v : Z) (s : Faucet) : Faucet :=
  mkFaucet (owner s) (reentrancy_entered s) (paused s) (token s) (tokensPerRequest s)
    (cooldownTime s) v (dailyLimit s) (totalDistributedToday s) (lastResetTime s)
    (lastRequestTime s) (totalTokensReceived s) (blacklisted s).

Definition set_dailyLimit (v : Z) (s : Faucet) : Faucet :=
  mkFaucet (owner s) (reentrancy_entered s) (paused s) (token s) (tokensPerRequest s)
    (cooldownTime s) (maxTokensPerAddress s) v (totalDistributedToday s) (lastResetTime s)
    (lastRequestTime s) (totalTokensReceived s) (blacklisted s).

Definition set_totalDistributedToday (v : Z) (s : Faucet) : Faucet :=
  mkFaucet (owner s) (reentrancy_entered s) (paused s) (token s) (tokensPerRequest s)
    (cooldownTime s) (maxTokensPerAddress s) (dailyLimit s) v (lastResetTime s)
    (lastRequestTime s) (totalTokensReceived s) (blacklisted s).

Definition set_lastResetTime (v : Z) (s : Faucet) : Faucet :=
  mkFaucet (owner s) (reentrancy_entered s) (paused s) (token s) (tokensPerRequest s)
    (cooldownTime s) (maxTokensPerAddress s) (dailyLimit s) (totalDistributedToday s) v
    (lastRequestTime s) (totalTokensReceived s) (blacklisted s).

Definition set_lastRequestTime (m : gmap Z Z) (s : Faucet) : Faucet :=
  mkFaucet (owner s) (reentrancy_entered s) (paused s) (token s) (tokensPerRequest s)
    (cooldownTime s) (maxTokensPerAddress s) (dailyLimit s) (totalDistributedToday s)
    (lastResetTime s) m (totalTokensReceived s) (blacklisted s).

Definition set_totalTokensReceived (m : gmap Z Z) (s : Faucet) : Faucet :=
  mkFaucet (owner s) (reentrancy_entered s) (paused s) (token s) (tokensPerRequest s)
    (cooldownTime s) (maxTokensPerAddress s) (dailyLimit s) (totalDistributedToday s)
    (lastResetTime s) (lastRequestTime s) m (blacklisted s).

Definition set_blacklisted (m : gmap Z bool) (s : Faucet) : Faucet :=
  mkFaucet (owner s) (reentrancy_entered s) (paused s) (token s) (tokensPerRequest s)
    (cooldownTime s) (maxTokensPerAddress s) (dailyLimit s) (totalDistributedToday s)
    (lastResetTime s) (lastRequestTime s) (totalTokensReceived s) m.

Definition with_storage (s : Faucet) (w : World) : World :=
  mkWorld s (self w) (ledgers w) (events w).

Definition with_ledgers (l : gmap Z Token) (w : World) : World :=
  mkWorld (storage w) (self w) l (events w).

Definition with_events (l : list Event) (w : World) : World :=
  mkWorld (storage w) (self w) (ledgers w) l.

(** ** The execution monad *)

Inductive outcome (A : Type) :=
| Done (a : A) (w : World)
| Failed (e : error) (w : World).
Arguments Done {A} a w.
Arguments Failed {A} e w.

Definition M (A : Type) : Type := World -> outcome A.

Definition ret {A} (a : A) : M A := fun w => Done a w.

Definition bind {A B} (m : M A) (k : A -> M B) : M B :=
  fun w => match m w with
           | Done a w' => k a w'
           | Failed e w' => Failed e w'
           end.

Notation "'let*' x ':=' m 'in' k" := (bind m (fun x => k))
  (at level 10, x name, m at level 100, k at level 200).
Notation "m '>>' k" := (bind m (fun _ => k))
  (at level 90, k at level 200, right associativity).

Definition fail {A} (e : error) : M A := fun w => Failed e w.

Definition sload {A} (f : Faucet -> A) : M A := fun w => Done (f (storage w)) w.

Definition sstore (f : Faucet -> Faucet) : M unit :=
  fun w => Done tt (with_storage (f (storage w)) w).

Definition emit (ev : Event) : M unit :=
  fun w => Done tt (with_events (events w ++ [ev]) w).

Definition this : M address := fun w => Done (self w) w.

Definition require (cond : bool) (reason : string) : M unit :=
  if cond then ret tt else fail (Revert reason).

(** Checked [uint256] addition. *)
Definition add256 (a b : Z) : M Z :=
  if a + b <=? MAX_UINT256 then ret (a + b) else fail (Panic PANIC_ARITHMETIC).

(** *** Calls into a ledger *)

(** [IERC20(tk).balanceOf(a)]: a call to an address without code reverts. *)
Definition token_balanceOf (tk a : address) : M Z :=
  fun w => match ledgers w !! tk with
           | Some t => Done (balanceOf t a) w
           | None => Failed (Revert "") w
           end.

Definition ledger_call (tk : address) (f : Token -> error + Token) : M unit :=
  fun w => match ledgers w !! tk with
           | Some t =>
               match f t with
               | inr t' => Done tt (with_ledgers (<[tk := t']> (ledgers w)) w)
               | inl e => Failed e w
               end
           | None => Failed (CustomError "SafeERC20FailedOperation") w
           end.

(** [IERC20(tk).safeTransfer(to, value)], the controller being the sender. *)
Definition safeTransfer (tk to value : Z) : M unit :=
  let* me := this in ledger_call tk (erc20_transfer me to value).

(** [IERC20(tk).safeTransferFrom(from, to, value)], the controller being
    the spender. *)
Definition safeTransferFrom (tk from to value : Z) : M unit :=
  let* me := this in ledger_call tk (erc20_transferFrom me from to value).

(** ** Modifiers *)

Definition onlyOwner (e : Env) : M unit :=
  let* o := sload owner in
  if o =? msg_sender e then ret tt else fail (CustomError "OwnableUnauthorizedAccount").

Definition nonReentrant {A} (body : M A) : M A :=
  let* entered := sload reentrancy_entered in
  if entered : bool then fail (CustomError "ReentrancyGuardReentrantCall")
  else
    sstore (set_reentrancy_entered true) >>
    let* r := body in
    sstore (set_reentrancy_entered false) >>
    ret r.

Definition whenNotPaused : M unit :=
  let* p := sload paused in
  if p : bool then fail (CustomError "EnforcedPause") else ret tt.

Definition whenPaused : M unit :=
  let* p := sload paused in
  if p : bool then ret tt else fail (CustomError "ExpectedPause").

(** ** The controller's functions

    The functions of [TokenFaucet.sol], in the order of the source.  The
    recovery of Ether ([emergencyWithdrawEther], [receive]) is outside the
    token accounting and is left out, as is the transfer of ownership
    inherited from [Ownable]. *)

Section Contract.

Variable e : Env.

(** The constructor: the storage of a freshly deployed controller. *)
Definition constructor (tokenAddress tokensPerRequest_ cooldownTime_
                        maxTokensPerAddress_ dailyLimit_ : Z) : error + Faucet :=
  if tokenAddress =? 0 then inl (Revert "TokenFaucet: invalid token address")
  else if negb (tokensPerRequest_ >? 0)
  then inl (Revert "TokenFaucet: tokens per request must be > 0")
  else if negb (maxTokensPerAddress_ >=? tokensPerRequest_)
  then inl (Revert "TokenFaucet: max tokens must be >= tokens per request")
  else if negb (dailyLimit_ >=? tokensPerRequest_)
  then inl (Revert "TokenFaucet: daily limit must be >= tokens per request")
  else
    inr (mkFaucet (msg_sender e) false false tokenAddress tokensPerRequest_ cooldownTime_
           maxTokensPerAddress_ dailyLimit_ 0 (block_timestamp e) ∅ ∅ ∅).

Definition _validateRequest (user : address) : M unit :=
  require (user =? tx_origin e) "TokenFaucet: contracts not allowed" >>
  let* bl := sload blacklisted in
  require (negb (rdb bl user)) "TokenFaucet: user is blacklisted" >>
  let* last := sload lastRequestTime in
  let* cd := sload cooldownTime in
  let* next := add256 (rd last user) cd in
  require (block_timestamp e >=? next) "TokenFaucet: cooldown period not met" >>
  let* received := sload totalTokensReceived in
  let* amount := sload tokensPerRequest in
  let* total := add256 (rd received user) amount in
  let* cap := sload maxTokensPerAddress in
  require (total <=? cap) "TokenFaucet: max tokens per address exceeded".

Definition _resetDailyLimit : M unit :=
  let* previousTotal := sload totalDistributedToday in
  sstore (set_totalDistributedToday 0) >>
  sstore (set_lastResetTime (block_timestamp e)) >>
  emit (DailyLimitReset (block_timestamp e) previousTotal).

Definition _resetDailyLimitIfNeeded : M unit :=
  let* last := sload lastResetTime in
  let* boundary := add256 last ONE_DAY in
  if block_timestamp e >=? boundary then _resetDailyLimit else ret tt.

Definition requestTokens : M unit :=
  nonReentrant (
    whenNotPaused >>
    let user := msg_sender e in
    _validateRequest user >>
    _resetDailyLimitIfNeeded >>
    let* today := sload totalDistributedToday in
    let* amount := sload tokensPerRequest in
    let* total := add256 today amount in
    let* limit := sload dailyLimit in
    require (total <=? limit) "TokenFaucet: daily limit exceeded" >>
    let* tk := sload token in
    let* me := this in
    let* bal := token_balanceOf tk me in
    require (bal >=? amount) "TokenFaucet: insufficient faucet balance" >>
    sstore (fun s => set_lastRequestTime (<[user := block_timestamp e]> (lastRequestTime s)) s) >>
    let* received := sload totalTokensReceived in
    let* received' := add256 (rd received user) amount in
    sstore (set_totalTokensReceived (<[user := received']> received)) >>
    let* today_ := sload totalDistributedToday in
    let* today' := add256 today_ amount in
    sstore (set_totalDistributedToday today') >>
    safeTransfer tk user amount >>
    emit (TokensRequested user amount (block_timestamp e))).

(** [for (i = 0; i < amounts.length; i++) totalAmount += amounts[i]]. *)
Fixpoint sum_amounts (amounts : list Z) (totalAmount : Z) : M Z :=
  match amounts with
  | [] => ret totalAmount
  | a :: rest => let* t := add256 totalAmount a in sum_amounts rest t
  end.

(** The body of the distribution loop for the entry [(r, a)]. *)
Definition distribute_entry (r a : Z) : M unit :=
  require (negb (r =? 0)) "TokenFaucet: invalid recipient" >>
  require (a >? 0) "TokenFaucet: invalid amount" >>
  let* tk := sload token in
  safeTransfer tk r a >>
  emit (TokensRequested r a (block_timestamp e)).

(** One iteration of the distribution loop, at index [i]: the body runs on
    [recipients[i]] and [amounts[i]]. *)
Definition distribute_one (recipients amounts : list Z) (i : nat) : M unit :=
  match recipients !! i, amounts !! i with
  | Some r, Some a => distribute_entry r a
  | _, _ => fail (Panic PANIC_INDEX)
  end.

(** [for (i = i0; i < i0 + n; i++) { ... }]. *)
Fixpoint distribute_loop (recipients amounts : list Z) (n : nat) (i : nat) : M unit :=
  match n with
  | O => ret tt
  | S n' => distribute_one recipients amounts i >> distribute_loop recipients amounts n' (S i)
  end.

Definition batchDistribute (recipients amounts : list Z) : M unit :=
  onlyOwner e >>
  nonReentrant (
    require (Nat.eqb (length recipients) (length amounts)) "TokenFaucet: arrays length mismatch" >>
    require (negb (Nat.eqb (length recipients) 0)) "TokenFaucet: empty arrays" >>
    let* totalAmount := sum_amounts amounts 0 in
    let* tk := sload token in
    let* me := this in
    let* bal := token_balanceOf tk me in
    require (bal >=? totalAmount) "TokenFaucet: insufficient faucet balance" >>
    distribute_loop recipients amounts (length recipients) 0).

Definition depositTokens (amount : Z) : M unit :=
  nonReentrant (
    require (amount >? 0) "TokenFaucet: amount must be > 0" >>
    let* tk := sload token in
    let* me := this in
    safeTransferFrom tk (msg_sender e) me amount >>
    emit (TokensDeposited (msg_sender e) amount)).

Definition withdrawTokens (amount : Z) : M unit :=
  onlyOwner e >>
  nonReentrant (
    require (amount >? 0) "TokenFaucet: amount must be > 0" >>
    let* tk := sload token in
    let* me := this in
    let* bal := token_balanceOf tk me in
    require (bal >=? amount) "TokenFaucet: insufficient balance" >>
    let* o := sload owner in
    safeTransfer tk o amount >>
    emit (TokensWithdrawn o amount)).

Definition configureFaucet (tokensPerRequest_ cooldownTime_
                            maxTokensPerAddress_ dailyLimit_ : Z) : M unit :=
  onlyOwner e >>
  require (tokensPerRequest_ >? 0) "TokenFaucet: tokens per request must be > 0" >>
  require (maxTokensPerAddress_ >=? tokensPerRequest_)
    "TokenFaucet: max tokens must be >= tokens per request" >>
  require (dailyLimit_ >=? tokensPerRequest_)
    "TokenFaucet: daily limit must be >= tokens per request" >>
  sstore (set_tokensPerRequest tokensPerRequest_) >>
  sstore (set_cooldownTime cooldownTime_) >>
  sstore (set_maxTokensPerAddress maxTokensPerAddress_) >>
  sstore (set_dailyLimit dailyLimit_) >>
  emit (FaucetConfigured tokensPerRequest_ cooldownTime_ maxTokensPerAddress_ dailyLimit_).

Definition pause : M unit :=
  onlyOwner e >>
  whenNotPaused >>
  sstore (set_paused true) >>
  emit (Paused (msg_sender e)).

Definition unpause : M unit :=
  onlyOwner e >>
  whenPaused >>
  sstore (set_paused false) >>
  emit (Unpaused (msg_sender e)).

Definition setBlacklisted (user : address) (status : bool) : M unit :=
  onlyOwner e >>
  require (negb (user =? 0)) "TokenFaucet: invalid address" >>
  sstore (fun s => set_blacklisted (<[user := status]> (blacklisted s)) s) >>
  emit (UserBlacklisted user status).

Definition resetDailyLimit : M unit :=
  onlyOwner e >> _resetDailyLimit.

Definition emergencyWithdraw (tokenAddress amount : Z) : M unit :=
  onlyOwner e >>
  require (negb (tokenAddress =? 0)) "TokenFaucet: invalid token address" >>
  require (amount >? 0) "TokenFaucet: amount must be > 0" >>
  let* o := sload owner in
  safeTransfer tokenAddress o amount >>
  emit (EmergencyWithdraw tokenAddress amount).

(** *** Views *)

Definition _canUserRequest (user : address) : M bool :=
  let* p := sload paused in
  let* bl := sload blacklisted in
  if (p : bool) || rdb bl user then ret false
  else
    let* last := sload lastRequestTime in
    let* cd := sload cooldownTime in
    let* next := add256 (rd last user) cd in
    if block_timestamp e <? next then ret false
    else
      let* received := sload totalTokensReceived in
      let* amount := sload tokensPerRequest in
      let* total := add256 (rd received user) amount in
      let* cap := sload maxTokensPerAddress in
      if total >? cap then ret false
      else
        let* today := sload totalDistributedToday in
        let* total' := add256 today amount in
        let* limit := sload dailyLimit in
        if total' >? limit then ret false
        else
          let* tk := sload token in
          let* me := this in
          let* bal := token_balanceOf tk me in
          ret (bal >=? amount).

Definition getUserInfo (user : address) : M (Z * Z * bool * Z) :=
  let* received := sload totalTokensReceived in
  let totalReceived := rd received user in
  let* last := sload lastRequestTime in
  let lastRequest := rd last user in
  let* cd := sload cooldownTime in
  let* nextRequestTime := add256 lastRequest cd in
  let* canRequest := _canUserRequest user in
  if block_timestamp e <? nextRequestTime
  then ret (totalReceived, lastRequest, canRequest, nextRequestTime - block_timestamp e)
  else ret (totalReceived, lastRequest, canRequest, 0).

Definition getFaucetBalance : M Z :=
  let* tk := sload token in
  let* me := this in
  token_balanceOf tk me.

Definition canUserRequest (user : address) : M bool := _canUserRequest user.

End Contract.

(** ** Top-level calls *)

(** A top-level call either commits the world its body produced or, when
    the body failed, reports the error and keeps the world of before the
    call: the revert discards whatever the body had written. *)
Definition transact {A} (m : M A) (w : World) : option error * World :=
  match m w with
  | Done _ w' => (None, w')
  | Failed err _ => (Some err, w)
  end.

(** A call of a view function: its result or its error. *)
Definition view {A} (m : M A) (w : World) : error + A :=
  match m w with
  | Done a _ => inr a
  | Failed err _ => inl err
  end.

(** The state-changing entry points of the controller. *)
Inductive Call :=
| RequestTokens
| BatchDistribute (recipients amounts : list Z)
| DepositTokens (amount : Z)
| WithdrawTokens (amount : Z)
| ConfigureFaucet (tokensPerRequest_ cooldownTime_ maxTokensPerAddress_ dailyLimit_ : Z)
| PauseFaucet
| UnpauseFaucet
| SetBlacklisted (user : address) (status : bool)
| ResetDailyLimit
| EmergencyWithdrawTokens (tokenAddress amount : Z).

Definition dispatch (e : Env) (c : Call) : M unit :=
  match c with
  | RequestTokens => requestTokens e
  | BatchDistribute rs amts => batchDistribute e rs amts
  | DepositTokens a => depositTokens e a
  | WithdrawTokens a => withdrawTokens e a
  | ConfigureFaucet t c m d => configureFaucet e t c m d
  | PauseFaucet => pause e
  | UnpauseFaucet => unpause e
  | SetBlacklisted u b => setBlacklisted e u b
  | ResetDailyLimit => resetDailyLimit e
  | EmergencyWithdrawTokens tk a => emergencyWithdraw e tk a
  end.

Definition call (e : Env) (c : Call) (w : World) : option error * World :=
  transact (dispatch e c) w.

(** What happens between two observations of the controller: one of its
    entry points is called, or the ledgers change by themselves (holders
    move tokens, a ledger is paused, a new ledger is deployed). *)
Inductive Action :=
| Invoke (e : Env) (c : Call)
| Outside (l : gmap Z Token).

Definition step (a : Action) (w : World) : World :=
  match a with
  | Invoke e c => snd (call e c w)
  | Outside l => with_ledgers l w
  end.

Definition run (tr : list Action) (w : World) : World := foldl (fun w a => step a w) w tr.

(** The world right after a deployment: [deploy] runs the constructor at
    address [addr] against the ledgers [l]. *)
Definition deploy (e : Env) (addr : address) (l : gmap Z Token)
    (tokenAddress tokensPerRequest_ cooldownTime_ maxTokensPerAddress_ dailyLimit_ : Z)
    : error + World :=
  match constructor e tokenAddress tokensPerRequest_ cooldownTime_
          maxTokensPerAddress_ dailyLimit_ with
  | inr s =>
      inr (mkWorld s addr l
             [FaucetConfigured tokensPerRequest_ cooldownTime_ maxTokensPerAddress_ dailyLimit_])
  | inl err => inl err
  end.

(** * Notions used in the statements *)

(** ** The request path *)

(** Whether a call at [block_timestamp e] is past the 24h boundary. *)
Definition reset_due (e : Env) (s : Faucet) : bool :=
  block_timestamp e >=? lastResetTime s + ONE_DAY.

(** The daily total the daily-cap test of [requestTokens] is evaluated on. *)
Definition daily_base (e : Env) (s : Faucet) : Z :=
  if reset_due e s then 0 else totalDistributedToday s.

(** The storage a successful [requestTokens] leaves. *)
Definition requested (e : Env) (s : Faucet) : Faucet :=
  let u := msg_sender e in
  mkFaucet (owner s) false (paused s) (token s) (tokensPerRequest s) (cooldownTime s)
    (maxTokensPerAddress s) (dailyLimit s)
    (daily_base e s + tokensPerRequest s)
    (if reset_due e s then block_timestamp e else lastResetTime s)
    (<[u := block_timestamp e]> (lastRequestTime s))
    (<[u := rd (totalTokensReceived s) u + tokensPerRequest s]> (totalTokensReceived s))
    (blacklisted s).

(** The records it emits: the reset record first, when a reset was due. *)
Definition requested_events (e : Env) (s : Faucet) : list Event :=
  (if reset_due e s
   then [DailyLimitReset (block_timestamp e) (totalDistributedToday s)] else []) ++
  [TokensRequested (msg_sender e) (tokensPerRequest s) (block_timestamp e)].

(** Checks 1 to 5 of the request path: not paused, the caller is the
    originator, not blacklisted, the cooldown has elapsed, the per-address
    cap is respected. *)
Definition checks_1_to_5 (e : Env) (s : Faucet) : Prop :=
  paused s = false /\
  msg_sender e = tx_origin e /\
  rdb (blacklisted s) (msg_sender e) = false /\
  rd (lastRequestTime s) (msg_sender e) + cooldownTime s <= block_timestamp e /\
  rd (totalTokensReceived s) (msg_sender e) + tokensPerRequest s <= maxTokensPerAddress s.

(** Check 8 and the ledger's own conditions for the payout to [u]: the
    controller's token is the deployed ledger [t], its balance there covers
    one payout, the ledger is not paused and neither party is the zero
    address. *)
Definition ledger_pays (w : World) (u : address) (t : Token) : Prop :=
  ledgers w !! token (storage w) = Some t /\
  tokensPerRequest (storage w) <= balanceOf t (self w) /\
  token_paused t = false /\ self w <> 0 /\ u <> 0.

(** Checks 1, 3, 4, 5, 7 and 8 of the request path for [u] at the time of
    [e], on the current [totalDistributedToday] and without a reset. *)
Definition eligible_now (e : Env) (u : address) (w : World) : Prop :=
  let s := storage w in
  paused s = false /\
  rdb (blacklisted s) u = false /\
  rd (lastRequestTime s) u + cooldownTime s <= block_timestamp e /\
  rd (totalTokensReceived s) u + tokensPerRequest s <= maxTokensPerAddress s /\
  totalDistributedToday s + tokensPerRequest s <= dailyLimit s /\
  exists t, ledgers w !! token s = Some t /\ tokensPerRequest s <= balanceOf t (self w).

(** ** The batch path *)

(** The sum of a list of amounts, unbounded. *)
Fixpoint sum_Z (l : list Z) : Z :=
  match l with
  | [] => 0
  | a :: l' => a + sum_Z l'
  end.

(** The summing loop reads nothing: its result is a function of the
    amounts. *)
Fixpoint sum_checked (amounts : list Z) (totalAmount : Z) : option Z :=
  match amounts with
  | [] => Some totalAmount
  | a :: rest =>
      if totalAmount + a <=? MAX_UINT256 then sum_checked rest (totalAmount + a) else None
  end.

(** The distribution loop as a recursion on the pairs it visits. *)
Fixpoint distribute_list (e : Env) (ps : list (Z * Z)) : M unit :=
  match ps with
  | [] => ret tt
  | (r, a) :: ps' => distribute_entry e r a >> distribute_list e ps'
  end.

(** What a batch can read: the owner, the re-entrancy flag, the token
    reference, the controller's address and the ledgers.  Two worlds that
    agree on these may differ in the configuration, the counters, the
    per-user records, the blacklist and the pause flag. *)
Definition same_outside (w1 w2 : World) : Prop :=
  owner (storage w1) = owner (storage w2) /\
  reentrancy_entered (storage w1) = reentrancy_entered (storage w2) /\
  token (storage w1) = token (storage w2) /\
  self w1 = self w2 /\ ledgers w1 = ledgers w2.

(** Two runs end alike: both succeed, in worlds that still agree, or both
    fail with the same error. *)
Definition related {A} (o1 o2 : outcome A) : Prop :=
  match o1, o2 with
  | Done a1 w1, Done a2 w2 => a1 = a2 /\ same_outside w1 w2
  | Failed e1 _, Failed e2 _ => e1 = e2
  | _, _ => False
  end.

(** The error of a run, if any: what [transact] reports. *)
Definition outcome_status {A} (o : outcome A) : option error :=
  match o with
  | Done _ _ => None
  | Failed err _ => Some err
  end.

(** ** The storage and the ledger after a call *)

(** The storage after a successful [configureFaucet]. *)
Definition configured (tokensPerRequest_ cooldownTime_ maxTokensPerAddress_ dailyLimit_ : Z)
    (s : Faucet) : Faucet :=
  mkFaucet (owner s) (reentrancy_entered s) (paused s) (token s)
    tokensPerRequest_ cooldownTime_ maxTokensPerAddress_ dailyLimit_
    (totalDistributedToday s) (lastResetTime s)
    (lastRequestTime s) (totalTokensReceived s) (blacklisted s).

Definition storage_after (e : Env) (c : Call) (s : Faucet) : Faucet :=
  match c with
  | RequestTokens => requested e s
  | ConfigureFaucet t cd m d => configured t cd m d s
  | PauseFaucet => set_paused true s
  | UnpauseFaucet => set_paused false s
  | SetBlacklisted u b => set_blacklisted (<[u := b]> (blacklisted s)) s
  | ResetDailyLimit => set_lastResetTime (block_timestamp e) (set_totalDistributedToday 0 s)
  | BatchDistribute _ _ | DepositTokens _ | WithdrawTokens _
  | EmergencyWithdrawTokens _ _ => s
  end.

(** The ledger after [value] has moved from [from] to [to]. *)
Definition moved (from to value : Z) (t : Token) : Token :=
  mkToken
    (<[to := (rd (<[from := balanceOf t from - value]> (balances t)) to + value) mod 2 ^ 256]>
       (<[from := balanceOf t from - value]> (balances t)))
    (allowances t) (token_paused t).

(** ** Sequences of calls *)

Definition succeeds (e : Env) (c : Call) (w : World) : bool :=
  match fst (call e c w) with
  | None => true
  | Some _ => false
  end.

(** [trace_ok ok tr w]: every call of [tr], run from [w], is allowed by
    [ok] in the world it is made in. *)
Fixpoint trace_ok (ok : Env -> Call -> World -> bool) (tr : list Action) (w : World) : bool :=
  match tr with
  | [] => true
  | a :: tr' =>
      match a with
      | Invoke e c => ok e c w
      | Outside _ => true
      end && trace_ok ok tr' (step a w)
  end.

(** A successful [configureFaucet] must not set the daily limit below
    what the current epoch has already distributed. *)
Definition keeps_daily_cap (e : Env) (c : Call) (w : World) : bool :=
  match c with
  | ConfigureFaucet _ _ _ d =>
      negb (succeeds e c w) || (totalDistributedToday (storage w) <=? d)
  | _ => true
  end.

(** A successful [configureFaucet] must not set the per-address cap below
    what [a] has already received. *)
Definition keeps_address_cap (a : address) (e : Env) (c : Call) (w : World) : bool :=
  match c with
  | ConfigureFaucet _ _ m _ =>
      negb (succeeds e c w) || (rd (totalTokensReceived (storage w)) a <=? m)
  | _ => true
  end.

(** The daily cap, with the configuration facts that keep it inductive. *)
Definition daily_cap_inv (w : World) : Prop :=
  0 < tokensPerRequest (storage w) <= dailyLimit (storage w) /\
  totalDistributedToday (storage w) <= dailyLimit (storage w).

(** The cap of address [a], with the configuration facts that keep it
    inductive. *)
Definition address_cap_inv (a : address) (w : World) : Prop :=
  0 < tokensPerRequest (storage w) <= maxTokensPerAddress (storage w) /\
  rd (totalTokensReceived (storage w)) a <= maxTokensPerAddress (storage w).

(** ** A deployment *)

(** A deployment as in the repository's tests: 10 tokens per request, one
    hour of cooldown, 100 tokens per address, 1000 tokens per day, the
    controller funded with 5000 tokens. *)
Module Scenario.

Definition OWNER : address := 1.
Definition USER1 : address := 11.
Definition USER2 : address := 12.
Definition USER3 : address := 13.
Definition RELAY : address := 77.
Definition TOKEN : address := 100.
Definition FAUCET : address := 200.
Definition T0 : Z := 1700000000.

Definition ledger0 : Token := mkToken {[FAUCET := 5000]} ∅ false.

Definition world0 : World :=
  mkWorld (mkFaucet OWNER false false TOKEN 10 3600 100 1000 0 T0 ∅ ∅ ∅)
    FAUCET {[TOKEN := ledger0]} [FaucetConfigured 10 3600 100 1000].

Definition as_owner (t : Z) : Env := mkEnv OWNER OWNER t.
Definition as_user (u : address) (t : Z) : Env := mkEnv u u t.

(** A user requests twice, then the administrator lowers both caps to the
    payout of a single request. *)
Definition lowering_trace : list Action :=
  [Invoke (as_user USER1 (T0 + 10)) RequestTokens;
   Invoke (as_user USER1 (T0 + 4000)) RequestTokens;
   Invoke (as_owner (T0 + 5000)) (ConfigureFaucet 10 3600 10 10)].

(** Requests, a batch, a pause and a reconfiguration that keeps both caps
    above what was handed out. *)
Definition gentle_trace : list Action :=
  [Invoke (as_user USER1 (T0 + 10)) RequestTokens;
   Invoke (as_user USER2 (T0 + 20)) RequestTokens;
   Invoke (as_owner (T0 + 30)) (BatchDistribute [USER3] [500]);
   Invoke (as_owner (T0 + 40)) (ConfigureFaucet 5 60 15 25);
   Outside {[TOKEN := mkToken {[FAUCET := 9000]} ∅ false]};
   Invoke (as_user USER1 (T0 + 4000)) RequestTokens;
   Invoke (as_owner (T0 + 4100)) PauseFaucet;
   Invoke (as_user USER2 (T0 + 4200)) RequestTokens].

(** The daily limit reached in one payout: the administrator sets the
    payout to the whole daily limit and one user requests. *)
Definition capping_trace : list Action :=
  [Invoke (as_owner (T0 + 5)) (ConfigureFaucet 1000 3600 1000 1000);
   Invoke (as_user USER1 (T0 + 10)) RequestTokens].

Definition capped_world : World :=
  mkWorld
    (mkFaucet OWNER false false TOKEN 1000 3600 1000 1000 1000 T0
       {[USER1 := T0 + 10]} {[USER1 := 1000]} ∅)
    FAUCET
    {[TOKEN := mkToken (<[USER1 := 1000]> {[FAUCET := 4000]}) ∅ false]}
    [FaucetConfigured 10 3600 100 1000; FaucetConfigured 1000 3600 1000 1000;
     TokensRequested USER1 1000 (T0 + 10)].

End Scenario.

(** * The rest of the controller *)

(** [getFaucetConfig]: the configuration, the running daily total and the
    pause flag. *)
Definition getFaucetConfig : M (Z * Z * Z * Z * Z * bool) :=
  let* tokensPerRequest_ := sload tokensPerRequest in
  let* cooldownTime_ := sload cooldownTime in
  let* maxTokensPerAddress_ := sload maxTokensPerAddress in
  let* dailyLimit_ := sload dailyLimit in
  let* totalDistributedToday_ := sload totalDistributedToday in
  let* paused_ := sload paused in
  ret (tokensPerRequest_, cooldownTime_, maxTokensPerAddress_, dailyLimit_,
       totalDistributedToday_, paused_).

(** The entry points that carry the [onlyOwner] modifier. *)
Definition owner_only (c : Call) : bool :=
  match c with
  | RequestTokens | DepositTokens _ => false
  | _ => true
  end.

(** Traces without restriction. *)
Definition any_call (e : Env) (c : Call) (w : World) : bool := true.

(** Traces in which [unpause] is never called. *)
Definition never_unpauses (e : Env) (c : Call) (w : World) : bool :=
  match c with
  | UnpauseFaucet => false
  | _ => true
  end.

(** Whether the call is a request made by [u]: the one call that writes
    [lastRequestTime[u]] and [totalTokensReceived[u]]. *)
Definition requests_as (u : address) (e : Env) (c : Call) : bool :=
  match c with
  | RequestTokens => msg_sender e =? u
  | _ => false
  end.

(** Whether the call sets the blacklist flag of [u]. *)
Definition blacklists (u : address) (c : Call) : bool :=
  match c with
  | SetBlacklisted u' _ => u' =? u
  | _ => false
  end.

(** The configuration constraints the constructor and [configureFaucet]
    test. *)
Definition valid_config (s : Faucet) : Prop :=
  0 < tokensPerRequest s /\
  tokensPerRequest s <= maxTokensPerAddress s /\
  tokensPerRequest s <= dailyLimit s.

(** The sum of a mapping's values. *)
Definition sum_map (m : gmap Z Z) : Z := map_fold (fun _ v acc => v + acc) 0 m.

(** The records a successful batch emits: one per entry, in order. *)
Definition batch_records (e : Env) (rs amts : list Z) : list Event :=
  zip_with (fun r a => TokensRequested r a (block_timestamp e)) rs amts.

(** The ledger after a batch has been paid out of [from], entry by entry. *)
Fixpoint batch_paid (from : address) (ps : list (Z * Z)) (t : Token) : Token :=
  match ps with
  | [] => t
  | (r, a) :: ps' => batch_paid from ps' (moved from r a t)
  end.

(** The ledger after [spender] has used [value] of the allowance [holder]
    gave it; an unlimited allowance is not decreased. *)
Definition spent (holder spender value : Z) (t : Token) : Token :=
  if rd (allowances t) (holder, spender) =? MAX_UINT256 then t
  else mkToken (balances t)
         (<[(holder, spender) := rd (allowances t) (holder, spender) - value]> (allowances t))
         (token_paused t).

(** A second deployment: the controller paused, a user holding 300 tokens
    of which the controller may take 100. *)
Module Funded.

Definition ledger : Token :=
  mkToken (<[Scenario.USER1 := 300]> {[Scenario.FAUCET := 5000]})
    {[(Scenario.USER1, Scenario.FAUCET) := 100]} false.

Definition world : World :=
  mkWorld (set_paused true (storage Scenario.world0)) Scenario.FAUCET
    {[Scenario.TOKEN := ledger]} [].

(** The same, after the ledger has been paused. *)
Definition frozen : World :=
  mkWorld (set_paused true (storage Scenario.world0)) Scenario.FAUCET
    {[Scenario.TOKEN := mkToken (balances ledger) (allowances ledger) true]} [].

End Funded.

(** Traces in which [configureFaucet] is never called. *)
Definition never_configures (e : Env) (c : Call) (w : World) : bool :=
  match c with
  | ConfigureFaucet _ _ _ _ => false
  | _ => true
  end.

(** The entry points that ask a ledger for a transfer. *)
Definition moves_tokens (c : Call) : bool :=
  match c with
  | RequestTokens | BatchDistribute _ _ | DepositTokens _ | WithdrawTokens _
  | EmergencyWithdrawTokens _ _ => true
  | _ => false
  end.

(** A third deployment: the controller of [Scenario.world0] on a ledger
    that has been paused. *)
Module Frozen.

Definition ledger : Token :=
  mkToken (balances Scenario.ledger0) (allowances Scenario.ledger0) true.

Definition world : World :=
  mkWorld (storage Scenario.world0) Scenario.FAUCET {[Scenario.TOKEN := ledger]} [].

End Frozen.

(** * The token: [SimpleToken.sol]

    The capped, pausable, mintable token the controller distributes.  Its
    own functions ([mint], [batchMint], [pause], [unpause],
    [remainingMintableSupply] and the constructor) are embedded from the
    source; the balance bookkeeping they call into is the ledger above,
    with the total supply beside it.  The recovery of foreign tokens and of
    Ether ([recoverERC20], [recoverEther]) runs other contracts' code and
    is left out. *)
Module SimpleToken.

Inductive TokenEvent :=
| Mint (to : address) (amount : Z)
| Paused (account : address)
| Unpaused (account : address).

Record State := mkState {
  name : string;
  symbol : string;
  ledger : Token;
  totalSupply : Z;
  cap : Z;
  tokenOwner : address;
  entered : bool;
  log : list TokenEvent
}.

Definition set_ledger (t : Token) (s : State) : State :=
  mkState (name s) (symbol s) t (totalSupply s) (cap s) (tokenOwner s) (entered s) (log s).

Definition set_totalSupply (v : Z) (s : State) : State :=
  mkState (name s) (symbol s) (ledger s) v (cap s) (tokenOwner s) (entered s) (log s).

Definition set_entered (b : bool) (s : State) : State :=
  mkState (name s) (symbol s) (ledger s) (totalSupply s) (cap s) (tokenOwner s) b (log s).

Definition set_log (l : list TokenEvent) (s : State) : State :=
  mkState (name s) (symbol s) (ledger s) (totalSupply s) (cap s) (tokenOwner s) (entered s) l.

Definition set_token_paused (b : bool) (t : Token) : Token :=
  mkToken (balances t) (allowances t) b.

Definition set_balance (a : address) (v : Z) (t : Token) : Token :=
  mkToken (<[a := v]> (balances t)) (allowances t) (token_paused t).

(** Code of the token runs on its state and either returns a result with
    the new state or fails; a failed call leaves the state of before. *)
Definition T (A : Type) : Type := State -> error + A * State.

Definition tret {A} (a : A) : T A := fun s => inr (a, s).

Definition tbind {A B} (m : T A) (k : A -> T B) : T B :=
  fun s => match m s with
           | inr (a, s') => k a s'
           | inl err => inl err
           end.

Notation "'let!' x ':=' m 'in' k" := (tbind m (fun x => k))
  (at level 10, x name, m at level 100, k at level 200).
Notation "m '>>!' k" := (tbind m (fun _ => k))
  (at level 90, k at level 200, right associativity).

Definition tfail {A} (err : error) : T A := fun _ => inl err.
Definition read {A} (f : State -> A) : T A := fun s => inr (f s, s).
Definition write (f : State -> State) : T unit := fun s => inr (tt, f s).
Definition emit (ev : TokenEvent) : T unit := write (fun s => set_log (log s ++ [ev]) s).

Definition require (cond : bool) (reason : string) : T unit :=
  if cond then tret tt else tfail (Revert reason).

(** Checked [uint256] addition and subtraction. *)
Definition add256 (a b : Z) : T Z :=
  if a + b <=? MAX_UINT256 then tret (a + b) else tfail (Panic PANIC_ARITHMETIC).

Definition sub256 (a b : Z) : T Z :=
  if b <=? a then tret (a - b) else tfail (Panic PANIC_ARITHMETIC).

(** ** Modifiers *)

Definition onlyOwner (sender : address) : T unit :=
  let! o := read tokenOwner in
  if o =? sender then tret tt else tfail (CustomError "OwnableUnauthorizedAccount").

Definition nonReentrant {A} (body : T A) : T A :=
  let! e := read entered in
  if e : bool then tfail (CustomError "ReentrancyGuardReentrantCall")
  else
    write (set_entered true) >>!
    let! r := body in
    write (set_entered false) >>!
    tret r.

Definition whenNotPaused : T unit :=
  let! t := read ledger in
  if token_paused t then tfail (CustomError "EnforcedPause") else tret tt.

Definition whenPaused : T unit :=
  let! t := read ledger in
  if token_paused t then tret tt else tfail (CustomError "ExpectedPause").

(** ** The inherited bookkeeping *)

(** Modelled from the spec: the balance update every mint, burn and
    transfer goes through (the OpenZeppelin base, not among the sources),
    behind the pause hook that [SimpleToken._update] selects: minting adds
    to the total supply with a checked addition, a balance that is short
    refuses the update, and the credit to the recipient and the debit of
    the total supply on a burn are unchecked. *)
Definition _update (from to value : Z) : T unit :=
  whenNotPaused >>!
  (if from =? 0 then
     let! supply := read totalSupply in
     let! supply' := add256 supply value in
     write (set_totalSupply supply')
   else
     let! t := read ledger in
     let fromBalance := balanceOf t from in
     if fromBalance <? value then tfail (CustomError "ERC20InsufficientBalance")
     else write (fun s => set_ledger (set_balance from (fromBalance - value) (ledger s)) s)) >>!
  (if to =? 0 then
     write (fun s => set_totalSupply ((totalSupply s - value) mod 2 ^ 256) s)
   else
     write (fun s =>
       set_ledger (set_balance to ((balanceOf (ledger s) to + value) mod 2 ^ 256) (ledger s)) s)).

(** Modelled from the spec: [_mint] of the base. *)
Definition _mint (account value : Z) : T unit :=
  if account =? 0 then tfail (CustomError "ERC20InvalidReceiver")
  else _update 0 account value.

(** Modelled from the spec: [burn] of the burnable extension, called by
    [sender]. *)
Definition burn (sender value : Z) : T unit :=
  if sender =? 0 then tfail (CustomError "ERC20InvalidSender")
  else _update sender 0 value.

(** Modelled from the spec: [transfer] of the base, called by [sender]. *)
Definition transfer (sender to value : Z) : T unit :=
  if sender =? 0 then tfail (CustomError "ERC20InvalidSender")
  else if to =? 0 then tfail (CustomError "ERC20InvalidReceiver")
  else _update sender to value.

(** ** The token's own functions *)

(** The constructor, called by [sender]. *)
Definition constructor (sender : address) (name_ symbol_ : string)
    (initialSupply_ cap_ : Z) : error + State :=
  if sender =? 0 then inl (CustomError "OwnableInvalidOwner")
  else if negb (cap_ >? 0) then inl (Revert "SimpleToken: cap must be greater than 0")
  else if negb (initialSupply_ <=? cap_)
  then inl (Revert "SimpleToken: initial supply exceeds cap")
  else
    let s := mkState name_ symbol_ (mkToken ∅ ∅ false) 0 cap_ sender false [] in
    if initialSupply_ >? 0 then
      match _mint sender initialSupply_ s with
      | inr (_, s') => inr s'
      | inl err => inl err
      end
    else inr s.

Definition mint (sender to amount : Z) : T unit :=
  onlyOwner sender >>!
  nonReentrant (
    require (negb (to =? 0)) "SimpleToken: mint to zero address" >>!
    let! supply := read totalSupply in
    let! total := add256 supply amount in
    let! limit := read cap in
    require (total <=? limit) "SimpleToken: cap exceeded" >>!
    _mint to amount >>!
    emit (Mint to amount)).

(** [for (i = 0; i < amounts.length; i++) totalAmount += amounts[i]]. *)
Fixpoint sum_amounts (amounts : list Z) (totalAmount : Z) : T Z :=
  match amounts with
  | [] => tret totalAmount
  | a :: rest => let! t := add256 totalAmount a in sum_amounts rest t
  end.

(** The body of the minting loop for the entry [(r, a)]. *)
Definition mint_entry (r a : Z) : T unit :=
  require (negb (r =? 0)) "SimpleToken: mint to zero address" >>!
  _mint r a >>!
  emit (Mint r a).

(** One iteration of the minting loop, at index [i]. *)
Definition mint_one (recipients amounts : list Z) (i : nat) : T unit :=
  match recipients !! i, amounts !! i with
  | Some r, Some a => mint_entry r a
  | _, _ => tfail (Panic PANIC_INDEX)
  end.

(** [for (i = i0; i < i0 + n; i++) { ... }]. *)
Fixpoint mint_loop (recipients amounts : list Z) (n : nat) (i : nat) : T unit :=
  match n with
  | O => tret tt
  | S n' => mint_one recipients amounts i >>! mint_loop recipients amounts n' (S i)
  end.

Definition batchMint (sender : address) (recipients amounts : list Z) : T unit :=
  onlyOwner sender >>!
  nonReentrant (
    require (Nat.eqb (length recipients) (length amounts)) "SimpleToken: arrays length mismatch" >>!
    require (negb (Nat.eqb (length recipients) 0)) "SimpleToken: empty arrays" >>!
    let! totalAmount := sum_amounts amounts 0 in
    let! supply := read totalSupply in
    let! total := add256 supply totalAmount in
    let! limit := read cap in
    require (total <=? limit) "SimpleToken: cap exceeded" >>!
    mint_loop recipients amounts (length recipients) 0).

Definition pause (sender : address) : T unit :=
  onlyOwner sender >>!
  whenNotPaused >>!
  write (fun s => set_ledger (set_token_paused true (ledger s)) s) >>!
  emit (Paused sender).

Definition unpause (sender : address) : T unit :=
  onlyOwner sender >>!
  whenPaused >>!
  write (fun s => set_ledger (set_token_paused false (ledger s)) s) >>!
  emit (Unpaused sender).

Definition remainingMintableSupply : T Z :=
  let! limit := read cap in
  let! supply := read totalSupply in
  sub256 limit supply.

(** ** Calls *)

Inductive Op :=
| DoMint (to : address) (amount : Z)
| DoBatchMint (recipients amounts : list Z)
| DoPause
| DoUnpause
| DoTransfer (to : address) (value : Z)
| DoBurn (value : Z).

Definition exec (sender : address) (op : Op) : T unit :=
  match op with
  | DoMint to amount => mint sender to amount
  | DoBatchMint rs amts => batchMint sender rs amts
  | DoPause => pause sender
  | DoUnpause => unpause sender
  | DoTransfer to value => transfer sender to value
  | DoBurn value => burn sender value
  end.

(** A top-level call by [sender]: the new state, or the error and the
    state of before. *)
Definition send (sender : address) (op : Op) (s : State) : option error * State :=
  match exec sender op s with
  | inr (_, s') => (None, s')
  | inl err => (Some err, s)
  end.

Definition play (tr : list (address * Op)) (s : State) : State :=
  foldl (fun s c => snd (send c.1 c.2 s)) s tr.

(** The amounts of a call are [uint256] values. *)
Definition uint_args (op : Op) : Prop :=
  match op with
  | DoMint _ a | DoTransfer _ a | DoBurn a => 0 <= a
  | DoBatchMint _ amts => Forall (fun a => 0 <= a) amts
  | DoPause | DoUnpause => True
  end.

(** The minting loop as a recursion on the pairs it visits. *)
Fixpoint mint_list (ps : list (Z * Z)) : T unit :=
  match ps with
  | [] => tret tt
  | (r, a) :: ps' => mint_entry r a >>! mint_list ps'
  end.

(** One [mint] call per entry of a batch. *)
Definition mints (sender : address) (rs amts : list Z) : list (address * Op) :=
  zip_with (fun r a => (sender, DoMint r a)) rs amts.

End SimpleToken.

(** The token state after [value] new tokens have been credited to
    [account]. *)
Definition minted (account value : Z) (s : SimpleToken.State) : SimpleToken.State :=
  SimpleToken.set_ledger
    (SimpleToken.set_balance account
       ((balanceOf (SimpleToken.ledger s) account + value) mod 2 ^ 256)
       (SimpleToken.ledger s))
    (SimpleToken.set_totalSupply (SimpleToken.totalSupply s + value) s).

(** Every balance of the token is a non-negative number, they add up to
    the total supply, and the total supply is a [uint256] within the cap. *)
Definition supply_inv (s : SimpleToken.State) : Prop :=
  map_Forall (fun _ v => 0 <= v) (balances (SimpleToken.ledger s)) /\
  sum_map (balances (SimpleToken.ledger s)) = SimpleToken.totalSupply s /\
  SimpleToken.totalSupply s <= SimpleToken.cap s <= MAX_UINT256.

(** Traces of token calls whose amounts are [uint256] values. *)
Definition uint_trace (tr : list (address * SimpleToken.Op)) : Prop :=
  Forall (fun c => SimpleToken.uint_args c.2) tr.

(** The token of the repository's tests: no initial supply, a cap of
    10000, and its deployer. *)
Module Minting.

Definition DEPLOYER : address := 1.

Definition token0 : SimpleToken.State :=
  SimpleToken.mkState "Test Token" "TEST" (mkToken ∅ ∅ false) 0 10000 DEPLOYER false [].

Definition history : list (address * SimpleToken.Op) :=
  [(DEPLOYER, SimpleToken.DoMint 11 100);
   (DEPLOYER, SimpleToken.DoBatchMint [12; 13] [200; 300]);
   (11, SimpleToken.DoTransfer 12 40);
   (12, SimpleToken.DoBurn 90);
   (DEPLOYER, SimpleToken.DoMint 11 9900)].

End Minting.

(** * Reasoning about calls *)

Ltac unfold_monad :=
  cbv beta iota delta
    [bind ret fail require sload sstore emit this onlyOwner whenNotPaused whenPaused
     nonReentrant add256 token_balanceOf ledger_call safeTransfer safeTransferFrom] in *.

Ltac simpl_world :=
  cbn [storage self ledgers events with_storage with_ledgers with_events
       owner reentrancy_entered paused token tokensPerRequest cooldownTime
       maxTokensPerAddress dailyLimit totalDistributedToday lastResetTime
       lastRequestTime totalTokensReceived blacklisted
       set_reentrancy_entered set_paused set_tokensPerRequest set_cooldownTime
       set_maxTokensPerAddress set_dailyLimit set_totalDistributedToday
       set_lastResetTime set_lastRequestTime set_totalTokensReceived set_blacklisted
       msg_sender tx_origin block_timestamp fst snd] in *.

Ltac open_world w :=
  let s := fresh "s" in
  destruct w as [s ? ? ?]; destruct s; simpl_world.

(** Case analysis on the next test of a run recorded in [H]. *)
Ltac case_if_in H :=
  match type of H with
  | context [if ?b then _ else _] =>
      destruct b eqn:?; simpl_world; try discriminate H
  | context [match ?x !! ?k with _ => _ end] =>
      destruct (x !! k) eqn:?; simpl_world; try discriminate H
  | context [match ?f ?a ?b ?c ?t with inl _ => _ | inr _ => _ end] =>
      destruct (f a b c t) eqn:?; simpl_world; try discriminate H
  end.

(** Boolean tests back to arithmetic. *)
Ltac tests_to_Z :=
  repeat match goal with
    | H : (_ =? _) = true |- _ => apply Z.eqb_eq in H
    | H : (_ =? _) = false |- _ => apply Z.eqb_neq in H
    | H : negb _ = true |- _ => apply negb_true_iff in H
    | H : negb _ = false |- _ => apply negb_false_iff in H
    | H : (_ >=? _) = true |- _ => rewrite Z.geb_le in H
    | H : (_ >=? _) = false |- _ => rewrite Z.geb_leb in H; apply Z.leb_gt in H
    | H : (_ >? _) = true |- _ => rewrite Z.gtb_ltb in H; apply Z.ltb_lt in H
    | H : (_ >? _) = false |- _ => rewrite Z.gtb_ltb in H; apply Z.ltb_ge in H
    | H : (_ <=? _) = true |- _ => apply Z.leb_le in H
    | H : (_ <=? _) = false |- _ => apply Z.leb_gt in H
    | H : (_ <? _) = true |- _ => apply Z.ltb_lt in H
    | H : (_ <? _) = false |- _ => apply Z.ltb_ge in H
    end.

(** Arithmetic facts to the boolean tests of a goal. *)
Ltac Z_to_tests :=
  repeat match goal with
    | |- context [?a =? ?b] =>
        first [ rewrite (proj2 (Z.eqb_eq a b)) by (first [lia | done | congruence])
              | rewrite (proj2 (Z.eqb_neq a b)) by (first [lia | done | congruence]) ]
    | |- context [?a >=? ?b] => rewrite (Z.geb_leb a b)
    | |- context [?a >? ?b] => rewrite (Z.gtb_ltb a b)
    | |- context [?a <=? ?b] =>
        first [ rewrite (proj2 (Z.leb_le a b)) by lia
              | rewrite (proj2 (Z.leb_gt a b)) by lia ]
    | |- context [?a <? ?b] =>
        first [ rewrite (proj2 (Z.ltb_lt a b)) by lia
              | rewrite (proj2 (Z.ltb_ge a b)) by lia ]
    end.

(** Case analysis on the next test of the run in the goal; the branches
    the hypotheses exclude are closed. *)
Ltac case_if_goal :=
  match goal with
  | |- context [if ?b then _ else _] =>
      destruct b eqn:?; simpl_world; tests_to_Z; try lia; try congruence
  | |- context [match ?x !! ?k with _ => _ end] =>
      destruct (x !! k) eqn:?; simpl_world; simplify_eq
  | |- context [match ?f ?a ?b ?c ?t with inl _ => _ | inr _ => _ end] =>
      destruct (f a b c t) eqn:?; simpl_world; simplify_eq
  end.

(** ** The ledger *)

Lemma balanceOf_insert_eq (b : gmap Z Z) al p a v :
  balanceOf (mkToken (<[a := v]> b) al p) a = v.
Proof. unfold balanceOf, rd; cbn. by rewrite lookup_insert_eq. Qed.

Lemma balanceOf_insert_ne (b : gmap Z Z) al p a a' v :
  a <> a' -> balanceOf (mkToken (<[a := v]> b) al p) a' = balanceOf (mkToken b al p) a'.
Proof. intros; unfold balanceOf, rd; cbn. by rewrite lookup_insert_ne. Qed.

(** A ledger that is not paused accepts a transfer between non-zero
    addresses that the sender's balance covers. *)
Lemma erc20_transfer_accepts from to value t :
  token_paused t = false -> from <> 0 -> to <> 0 -> value <= balanceOf t from ->
  erc20_transfer from to value t =
    inr (mkToken
           (<[to := (rd (<[from := balanceOf t from - value]> (balances t)) to + value)
                      mod 2 ^ 256]>
              (<[from := balanceOf t from - value]> (balances t)))
           (allowances t) (token_paused t)).
Proof.
  intros Hp Hf Ht Hb. unfold erc20_transfer, erc20_update.
  rewrite Hp. Z_to_tests. reflexivity.
Qed.

(** A short balance makes the ledger itself refuse the transfer. *)
Lemma erc20_transfer_short from to value t :
  token_paused t = false -> from <> 0 -> to <> 0 -> balanceOf t from < value ->
  erc20_transfer from to value t = inl (CustomError "ERC20InsufficientBalance").
Proof.
  intros Hp Hf Ht Hb. unfold erc20_transfer, erc20_update.
  rewrite Hp. Z_to_tests. reflexivity.
Qed.

(** What an accepted transfer does to the pause flag and to the sender's
    balance: the flag stays, the balance does not grow and loses at most
    [value]. *)
Lemma erc20_transfer_sender from to value t t' :
  uint256 (balanceOf t from) -> 0 <= value ->
  erc20_transfer from to value t = inr t' ->
  token_paused t' = token_paused t /\ value <= balanceOf t from /\
  uint256 (balanceOf t' from) /\ balanceOf t from - value <= balanceOf t' from.
Proof.
  unfold erc20_transfer, erc20_update, uint256, MAX_UINT256. intros Hr Hv H.
  repeat case_if_in H. inversion H; subst; clear H. tests_to_Z. cbn.
  split; [done|]. split; [lia|].
  destruct (decide (to = from)) as [->|Hne].
  - rewrite balanceOf_insert_eq. unfold rd. rewrite lookup_insert_eq. cbn.
    replace (balanceOf t from - value + value) with (balanceOf t from) by lia.
    rewrite Z.mod_small by lia. lia.
  - rewrite balanceOf_insert_ne by done. rewrite balanceOf_insert_eq. lia.
Qed.

(** ** The request path *)

(** Everything a successful [requestTokens] implies. *)
Lemma requestTokens_inv e w w' :
  call e RequestTokens w = (None, w') ->
  let s := storage w in
  let u := msg_sender e in
  reentrancy_entered s = false /\ paused s = false /\ u = tx_origin e /\
  rdb (blacklisted s) u = false /\
  rd (lastRequestTime s) u + cooldownTime s <= block_timestamp e /\
  rd (totalTokensReceived s) u + tokensPerRequest s <= maxTokensPerAddress s /\
  daily_base e s + tokensPerRequest s <= dailyLimit s /\
  storage w' = requested e s /\
  self w' = self w /\
  events w' = events w ++ requested_events e s /\
  exists t t', ledgers w !! token s = Some t /\
    tokensPerRequest s <= balanceOf t (self w) /\
    erc20_transfer (self w) u (tokensPerRequest s) t = inr t' /\
    ledgers w' = <[token s := t']> (ledgers w).
Proof.
  unfold call, transact, dispatch, requestTokens, _validateRequest,
    _resetDailyLimitIfNeeded, _resetDailyLimit, requested, requested_events,
    daily_base, reset_due.
  open_world w. unfold_monad. simpl_world. intros H.
  repeat case_if_in H.
  all: inversion H; subst; clear H; simpl_world; tests_to_Z; simplify_eq.
  all: repeat split; try lia; try done.
  all: try (rewrite <- app_assoc; reflexivity).
  all: eauto 10.
Qed.

(** Conversely, the conditions under which [requestTokens] succeeds, and
    the world it commits. *)
Lemma requestTokens_ok e w t t' :
  let s := storage w in
  let u := msg_sender e in
  reentrancy_entered s = false -> paused s = false -> u = tx_origin e ->
  rdb (blacklisted s) u = false ->
  rd (lastRequestTime s) u + cooldownTime s <= block_timestamp e ->
  block_timestamp e <= MAX_UINT256 ->
  rd (totalTokensReceived s) u + tokensPerRequest s <= maxTokensPerAddress s ->
  maxTokensPerAddress s <= MAX_UINT256 ->
  lastResetTime s + ONE_DAY <= MAX_UINT256 ->
  daily_base e s + tokensPerRequest s <= dailyLimit s ->
  dailyLimit s <= MAX_UINT256 ->
  ledgers w !! token s = Some t ->
  tokensPerRequest s <= balanceOf t (self w) ->
  erc20_transfer (self w) u (tokensPerRequest s) t = inr t' ->
  call e RequestTokens w =
    (None, mkWorld (requested e s) (self w) (<[token s := t']> (ledgers w))
             (events w ++ requested_events e s)).
Proof.
  unfold call, transact, dispatch, requestTokens, _validateRequest,
    _resetDailyLimitIfNeeded, _resetDailyLimit, requested, requested_events,
    daily_base, reset_due.
  open_world w. unfold_monad. simpl_world.
  intros -> -> Ho Hbl Hcd Hnow Hcap Hmax Hday Hdaily Hlim Htk Hbal Htr.
  simpl_world. repeat case_if_goal.
  all: rewrite <- ?app_assoc; reflexivity.
Qed.

(** ** The batch path *)

Lemma bind_Done {A B} (m : M A) (k : A -> M B) w a w1 :
  m w = Done a w1 -> bind m k w = k a w1.
Proof. unfold bind. by intros ->. Qed.

Lemma bind_Failed {A B} (m : M A) (k : A -> M B) w err w1 :
  m w = Failed err w1 -> bind m k w = Failed err w1.
Proof. unfold bind. by intros ->. Qed.

Lemma sum_Z_nonneg l : Forall (fun a => 0 <= a) l -> 0 <= sum_Z l.
Proof. induction 1; cbn; lia. Qed.

(** The summing loop changes nothing and returns the sum. *)
Lemma sum_amounts_Done amounts acc w v w' :
  sum_amounts amounts acc w = Done v w' -> w' = w /\ v = acc + sum_Z amounts.
Proof.
  revert acc. induction amounts as [|a rest IH]; intros acc; cbn.
  - unfold ret. intros [= <- <-]. split; [done|lia].
  - unfold bind, add256. destruct (acc + a <=? MAX_UINT256); [|discriminate].
    unfold ret. intros H. apply IH in H as [-> ->]. split; [done|lia].
Qed.

Lemma sum_amounts_ok amounts acc w :
  Forall (fun a => 0 <= a) amounts -> acc + sum_Z amounts <= MAX_UINT256 ->
  sum_amounts amounts acc w = Done (acc + sum_Z amounts) w.
Proof.
  intros Hpos. revert acc. induction Hpos as [|a rest Ha Hrest IH]; intros acc Hfit; cbn in *.
  - unfold ret. f_equal. lia.
  - pose proof (sum_Z_nonneg _ Hrest).
    unfold bind, add256. rewrite (proj2 (Z.leb_le _ _)) by lia. unfold ret.
    rewrite IH by lia. f_equal. lia.
Qed.

Lemma distribute_loop_list e (rs amts : list Z) n i w :
  length rs = length amts -> (i + n)%nat = length rs ->
  distribute_loop e rs amts n i w = distribute_list e (drop i (zip rs amts)) w.
Proof.
  intros Hlen. revert i w. induction n as [|n IH]; intros i w Hi; cbn.
  - rewrite drop_ge; [done|]. rewrite length_zip_with. lia.
  - destruct (lookup_lt_is_Some_2 rs i ltac:(lia)) as [r Hr].
    destruct (lookup_lt_is_Some_2 amts i ltac:(lia)) as [a Ha].
    assert (Hz : zip rs amts !! i = Some (r, a)).
    { rewrite lookup_zip_with, Hr; cbn. by rewrite Ha. }
    rewrite (drop_S _ _ _ Hz); cbn.
    unfold distribute_one. rewrite Hr, Ha.
    unfold bind. destruct (distribute_entry e r a w); [|done].
    apply IH. lia.
Qed.

(** The loop never writes to the controller's storage. *)
Lemma distribute_entry_frame e r a w w' :
  distribute_entry e r a w = Done tt w' -> storage w' = storage w /\ self w' = self w.
Proof.
  unfold distribute_entry. open_world w. unfold_monad. simpl_world. intros H.
  repeat case_if_in H. by inversion H.
Qed.

Lemma distribute_list_frame e ps w w' :
  distribute_list e ps w = Done tt w' -> storage w' = storage w /\ self w' = self w.
Proof.
  revert w. induction ps as [|[r a] ps IH]; intros w; cbn.
  - unfold ret. by intros [= <-].
  - unfold bind. destruct (distribute_entry e r a w) as [[] w1|] eqn:H1; [|done].
    intros H. apply IH in H as [-> ->]. by apply distribute_entry_frame in H1.
Qed.

(** A zero amount anywhere stops the loop. *)
Lemma distribute_list_zero_fails e ps w :
  Exists (fun p => p.2 = 0) ps ->
  exists err w', distribute_list e ps w = Failed err w'.
Proof.
  intros Hex. revert w. induction Hex as [[r a] ps Hz|[r a] ps Hex IH]; intros w; cbn in *.
  - subst a. unfold distribute_entry, bind, require.
    destruct (negb (r =? 0)); cbn; unfold ret, fail; eauto.
  - unfold bind. destruct (distribute_entry e r a w) as [[] w1|]; eauto.
Qed.

(** Against a ledger that accepts the controller's transfers and holds
    enough for the whole batch, the loop succeeds when every amount is
    positive and otherwise stops at the first zero amount. *)
Lemma distribute_list_run e ps w t :
  ledgers w !! token (storage w) = Some t ->
  token_paused t = false -> self w <> 0 ->
  uint256 (balanceOf t (self w)) -> sum_Z ps.*2 <= balanceOf t (self w) ->
  Forall (fun p => p.1 <> 0 /\ 0 <= p.2) ps ->
  exists w',
    distribute_list e ps w =
      if forallb (fun p => 0 <? p.2) ps then Done tt w'
      else Failed (Revert "TokenFaucet: invalid amount") w'.
Proof.
  intros Htk Hp Hself Hr Hsum Hall. revert w t Htk Hp Hself Hr Hsum.
  induction Hall as [|[r a] ps [Hnz Hpos] Hall IH]; intros w t Htk Hp Hself Hr Hsum;
    cbn in *.
  - eexists. reflexivity.
  - pose proof (sum_Z_nonneg ps.*2) as Hrest.
    assert (0 <= sum_Z ps.*2).
    { apply Hrest. apply Forall_fmap. eapply Forall_impl; [exact Hall|]. by intros ? []. }
    destruct (0 <? a) eqn:Ha; cbn; tests_to_Z.
    + destruct (erc20_transfer (self w) r a t) as [err|t1] eqn:Htr.
      { rewrite erc20_transfer_accepts in Htr by (done || lia). discriminate. }
      pose proof (erc20_transfer_sender _ _ _ _ _ Hr Hpos Htr) as (Hp1 & _ & Hr1 & Hb1).
      set (w1 := with_events (events w ++ [TokensRequested r a (block_timestamp e)])
                   (with_ledgers (<[token (storage w) := t1]> (ledgers w)) w)).
      assert (H1 : distribute_entry e r a w = Done tt w1).
      { unfold distribute_entry, w1. open_world w. unfold_monad. simpl_world.
        repeat case_if_goal. reflexivity. }
      rewrite (bind_Done _ _ _ _ _ H1).
      apply (IH w1 t1); subst w1; simpl_world.
      * cbn. by rewrite lookup_insert_eq.
      * congruence.
      * done.
      * done.
      * lia.
    + assert (a = 0) as -> by lia.
      eexists. unfold distribute_entry, bind, require. Z_to_tests. cbn. reflexivity.
Qed.

(** ** What each successful call does to the storage *)

Lemma batchDistribute_frame e rs amts w w' :
  call e (BatchDistribute rs amts) w = (None, w') ->
  storage w' = storage w /\ self w' = self w.
Proof.
  unfold call, transact, dispatch, batchDistribute.
  destruct w as [s slf l ev]. destruct s. unfold_monad. simpl_world. intros H.
  repeat case_if_in H.
  match type of H with
  | context [sum_amounts ?a ?b ?w0] =>
      destruct (sum_amounts a b w0) as [v w1|] eqn:Hs; [|discriminate H]
  end.
  apply sum_amounts_Done in Hs as [-> ->]. simpl_world.
  repeat case_if_in H.
  match type of H with
  | context [distribute_loop ?e ?a ?b ?n ?i ?w0] =>
      destruct (distribute_loop e a b n i w0) as [[] w1|] eqn:Hl; [|discriminate H]
  end.
  rewrite distribute_loop_list in Hl by (first [by apply Nat.eqb_eq | done]).
  apply distribute_list_frame in Hl as [Hst Hself]. simpl_world.
  inversion H; subst; clear H. simpl_world. by rewrite Hst.
Qed.

Lemma call_storage e c w w' :
  call e c w = (None, w') ->
  storage w' = storage_after e c (storage w) /\ self w' = self w.
Proof.
  destruct c; try (apply batchDistribute_frame).
  - intros H. by apply requestTokens_inv in H as (_&_&_&_&_&_&_&?&?&_).
  - unfold call, transact, dispatch, depositTokens.
    open_world w. unfold_monad. simpl_world. intros H.
    repeat case_if_in H. by inversion H.
  - unfold call, transact, dispatch, withdrawTokens.
    open_world w. unfold_monad. simpl_world. intros H.
    repeat case_if_in H. by inversion H.
  - unfold call, transact, dispatch, configureFaucet.
    open_world w. unfold_monad. simpl_world. intros H.
    repeat case_if_in H. by inversion H.
  - unfold call, transact, dispatch, pause.
    open_world w. unfold_monad. simpl_world. intros H.
    repeat case_if_in H. by inversion H.
  - unfold call, transact, dispatch, unpause.
    open_world w. unfold_monad. simpl_world. intros H.
    repeat case_if_in H. by inversion H.
  - unfold call, transact, dispatch, setBlacklisted.
    open_world w. unfold_monad. simpl_world. intros H.
    repeat case_if_in H. by inversion H.
  - unfold call, transact, dispatch, resetDailyLimit, _resetDailyLimit.
    open_world w. unfold_monad. simpl_world. intros H.
    repeat case_if_in H. by inversion H.
  - unfold call, transact, dispatch, emergencyWithdraw.
    open_world w. unfold_monad. simpl_world. intros H.
    repeat case_if_in H. by inversion H.
Qed.

(** A failed call commits nothing. *)
Lemma call_failed e c w err w' : call e c w = (Some err, w') -> w' = w.
Proof.
  unfold call, transact. destruct (dispatch e c w); by intros [= _ <-].
Qed.

Lemma call_cases e c w :
  (exists w', call e c w = (None, w')) \/ (exists err, call e c w = (Some err, w)).
Proof.
  unfold call, transact. destruct (dispatch e c w); eauto.
Qed.

(** What [configureFaucet] accepts. *)
Lemma configureFaucet_inv e t cd m d w w' :
  call e (ConfigureFaucet t cd m d) w = (None, w') -> 0 < t /\ t <= m /\ t <= d.
Proof.
  unfold call, transact, dispatch, configureFaucet.
  open_world w. unfold_monad. simpl_world. intros H.
  repeat case_if_in H. tests_to_Z. lia.
Qed.

(** ** Sequences of calls *)

Lemma run_invariant (I : World -> Prop) (ok : Env -> Call -> World -> bool) :
  (forall l w, I w -> I (with_ledgers l w)) ->
  (forall e c w w', I w -> ok e c w = true -> call e c w = (None, w') -> I w') ->
  forall tr w, I w -> trace_ok ok tr w = true -> I (run tr w).
Proof.
  intros Hout Hcall tr. induction tr as [|a tr IH]; intros w Hw Hok; cbn in *; [done|].
  apply andb_true_iff in Hok as [Ha Htr].
  apply IH; [|done].
  destruct a as [e c|l]; cbn; [|by apply Hout].
  destruct (call_cases e c w) as [[w' Hc]|[err Hc]]; rewrite Hc; cbn; eauto.
Qed.

Lemma succeeds_true e c w w' : call e c w = (None, w') -> succeeds e c w = true.
Proof. unfold succeeds. by intros ->. Qed.

Lemma deploy_inv e addr l tk t cd m d w :
  deploy e addr l tk t cd m d = inr w ->
  storage w = mkFaucet (msg_sender e) false false tk t cd m d 0 (block_timestamp e) ∅ ∅ ∅ /\
  0 < t /\ t <= m /\ t <= d.
Proof.
  unfold deploy, constructor. intros H. repeat case_if_in H.
  inversion H; subst; clear H. tests_to_Z. split; [done|lia].
Qed.

(** * The properties *)

(** Closed facts by evaluation. *)
Ltac by_evaluation :=
  vm_compute; repeat split; try reflexivity; try discriminate; try (intros; discriminate).

(** [world0] is what the constructor deploys. *)
Lemma scenario_world0_deployed :
  deploy (Scenario.as_owner Scenario.T0) Scenario.FAUCET
    {[Scenario.TOKEN := Scenario.ledger0]} Scenario.TOKEN 10 3600 100 1000
  = inr Scenario.world0.
Proof. reflexivity. Qed.

(** [capped_world] is reached from [world0]. *)
Lemma scenario_capped_world_reached :
  run Scenario.capping_trace Scenario.world0 = Scenario.capped_world.
Proof. vm_compute. reflexivity. Qed.

(** ** C1: the daily cap *)

(** C1, as stated, fails: after two requests the administrator lowers
    [dailyLimit] to 10 while [totalDistributedToday] is 20, and
    [configureFaucet] neither resets nor clamps the running total. *)
Lemma daily_cap_counterexample :
  let w := run Scenario.lowering_trace Scenario.world0 in
  totalDistributedToday (storage w) = 20 /\ dailyLimit (storage w) = 10 /\
  ~ totalDistributedToday (storage w) <= dailyLimit (storage w).
Proof. vm_compute. repeat split; try reflexivity. intros H; apply H; reflexivity. Qed.

Lemma daily_cap_step e c w w' :
  daily_cap_inv w -> keeps_daily_cap e c w = true -> call e c w = (None, w') ->
  daily_cap_inv w'.
Proof.
  unfold daily_cap_inv. intros [Hcfg Hcap] Hok Hc.
  pose proof (call_storage _ _ _ _ Hc) as [Hst _]. rewrite Hst.
  destruct c; cbn in *; try done.
  - apply requestTokens_inv in Hc as (_&_&_&_&_&_&?&_). split; [done|]. lia.
  - rewrite (succeeds_true _ _ _ _ Hc) in Hok. cbn in Hok. tests_to_Z.
    apply configureFaucet_inv in Hc. lia.
  - lia.
Qed.

(** C1 (amended): from a deployment on, through any sequence of controller
    calls and ledger changes in which no successful [configureFaucet] sets
    [dailyLimit] below the [totalDistributedToday] of that moment,
    [totalDistributedToday] never exceeds [dailyLimit]. *)
Theorem daily_cap_invariant e addr l tk t cd m d w0 tr :
  deploy e addr l tk t cd m d = inr w0 ->
  trace_ok keeps_daily_cap tr w0 = true ->
  totalDistributedToday (storage (run tr w0)) <= dailyLimit (storage (run tr w0)).
Proof.
  intros Hd Hok.
  apply (run_invariant daily_cap_inv keeps_daily_cap); try done.
  - intros. eapply daily_cap_step; eauto.
  - apply deploy_inv in Hd as (Hst & ? & ? & ?).
    unfold daily_cap_inv. rewrite Hst. cbn. lia.
Qed.

Lemma daily_cap_invariant_witness :
  trace_ok keeps_daily_cap Scenario.gentle_trace Scenario.world0 = true /\
  totalDistributedToday (storage (run Scenario.gentle_trace Scenario.world0))
    <= dailyLimit (storage (run Scenario.gentle_trace Scenario.world0)).
Proof.
  split; [vm_compute; reflexivity|].
  apply (daily_cap_invariant _ _ _ _ _ _ _ _ _ _ scenario_world0_deployed).
  vm_compute; reflexivity.
Defined.

(** ** C2: the per-address cap *)

(** C2, as stated, fails: an address that has received 20 tokens keeps
    that lifetime total when the administrator lowers
    [maxTokensPerAddress] to 10. *)
Lemma address_cap_counterexample :
  let w := run Scenario.lowering_trace Scenario.world0 in
  rd (totalTokensReceived (storage w)) Scenario.USER1 = 20 /\
  maxTokensPerAddress (storage w) = 10 /\
  ~ rd (totalTokensReceived (storage w)) Scenario.USER1 <= maxTokensPerAddress (storage w).
Proof. vm_compute. repeat split; try reflexivity. intros H; apply H; reflexivity. Qed.

Lemma address_cap_step a e c w w' :
  address_cap_inv a w -> keeps_address_cap a e c w = true -> call e c w = (None, w') ->
  address_cap_inv a w'.
Proof.
  unfold address_cap_inv. intros [Hcfg Hcap] Hok Hc.
  pose proof (call_storage _ _ _ _ Hc) as [Hst _]. rewrite Hst.
  destruct c; cbn in *; try done.
  - apply requestTokens_inv in Hc as (_&_&_&_&_&?&_). split; [done|].
    unfold rd at 1. destruct (decide (msg_sender e = a)) as [<-|Hne].
    + rewrite lookup_insert_eq. cbn. lia.
    + rewrite lookup_insert_ne by done. exact Hcap.
  - rewrite (succeeds_true _ _ _ _ Hc) in Hok. cbn in Hok. tests_to_Z.
    apply configureFaucet_inv in Hc. lia.
Qed.

(** C2 (amended): for every address [a], from a deployment on, through any
    sequence of controller calls and ledger changes in which no successful
    [configureFaucet] sets [maxTokensPerAddress] below the
    [totalTokensReceived[a]] of that moment, [totalTokensReceived[a]] never
    exceeds [maxTokensPerAddress]. *)
Theorem address_cap_invariant a e addr l tk t cd m d w0 tr :
  deploy e addr l tk t cd m d = inr w0 ->
  trace_ok (keeps_address_cap a) tr w0 = true ->
  rd (totalTokensReceived (storage (run tr w0))) a
    <= maxTokensPerAddress (storage (run tr w0)).
Proof.
  intros Hd Hok.
  apply (run_invariant (address_cap_inv a) (keeps_address_cap a)); try done.
  - intros. eapply address_cap_step; eauto.
  - apply deploy_inv in Hd as (Hst & ? & ? & ?).
    unfold address_cap_inv. rewrite Hst. cbn. unfold rd. rewrite lookup_empty. cbn. lia.
Qed.

Lemma address_cap_invariant_witness :
  trace_ok (keeps_address_cap Scenario.USER1) Scenario.gentle_trace Scenario.world0 = true /\
  rd (totalTokensReceived (storage (run Scenario.gentle_trace Scenario.world0))) Scenario.USER1
    <= maxTokensPerAddress (storage (run Scenario.gentle_trace Scenario.world0)).
Proof.
  split; [vm_compute; reflexivity|].
  apply (address_cap_invariant _ _ _ _ _ _ _ _ _ _ _ scenario_world0_deployed).
  vm_compute; reflexivity.
Defined.

(** ** C3: the epoch reset inside the request path *)

Lemma ledger_pays_transfer w u t :
  ledger_pays w u t ->
  exists t', erc20_transfer (self w) u (tokensPerRequest (storage w)) t = inr t'.
Proof.
  intros (_ & Hbal & Hp & Hs & Hu). eexists. by apply erc20_transfer_accepts.
Qed.

(** C3: when [now >= lastResetTime + 24h], a request that passes checks 1
    to 5 is tested against the zeroed daily total: whatever the stale
    [totalDistributedToday], it succeeds (the payout fitting the daily
    limit and the ledger paying), leaves [totalDistributedToday] at one
    payout and [lastResetTime] at [now], and emits the reset record, with
    the stale total, before the distribution record.  When
    [now < lastResetTime + 24h] no call resets: a successful one adds its
    payout to the running total, which it has tested against the daily
    limit, keeps [lastResetTime] and emits the distribution record only; a
    failed one changes nothing. *)
Theorem requestTokens_epoch_reset e w :
  let s := storage w in
  let u := msg_sender e in
  let now := block_timestamp e in
  (lastResetTime s + ONE_DAY <= now ->
   forall t,
   reentrancy_entered s = false -> uint256 now ->
   uint256 (maxTokensPerAddress s) -> uint256 (dailyLimit s) ->
   checks_1_to_5 e s -> tokensPerRequest s <= dailyLimit s -> ledger_pays w u t ->
   exists w',
     call e RequestTokens w = (None, w') /\
     totalDistributedToday (storage w') = tokensPerRequest s /\
     lastResetTime (storage w') = now /\
     events w' = events w ++ [DailyLimitReset now (totalDistributedToday s);
                              TokensRequested u (tokensPerRequest s) now]) /\
  (now < lastResetTime s + ONE_DAY ->
   forall st w',
   call e RequestTokens w = (st, w') ->
   (st = None /\
    totalDistributedToday (storage w') = totalDistributedToday s + tokensPerRequest s /\
    totalDistributedToday s + tokensPerRequest s <= dailyLimit s /\
    lastResetTime (storage w') = lastResetTime s /\
    events w' = events w ++ [TokensRequested u (tokensPerRequest s) now]) \/
   (st <> None /\ w' = w)).
Proof.
  cbv zeta. split.
  - intros Hdue t Hidle Hnow Hmax Hlim (Hp & Ho & Hbl & Hcd & Hcap) Hfit Hpays.
    destruct (ledger_pays_transfer _ _ _ Hpays) as [t' Htr].
    destruct Hpays as (Htk & Hbal & _).
    unfold uint256 in *.
    assert (Hrd : reset_due e (storage w) = true).
    { unfold reset_due. rewrite Z.geb_leb. apply Z.leb_le. lia. }
    eexists. split.
    + eapply requestTokens_ok; eauto; try lia.
      unfold daily_base. rewrite Hrd. lia.
    + cbn. unfold daily_base, requested_events. rewrite Hrd. cbn. repeat split; lia.
  - intros Hearly st w' Hc.
    assert (Hrd : reset_due e (storage w) = false).
    { unfold reset_due. rewrite Z.geb_leb. apply Z.leb_gt. lia. }
    destruct st as [err|].
    + right. split; [done|]. eapply call_failed; eauto.
    + left. split; [done|].
      apply requestTokens_inv in Hc as (_&_&_&_&_&_&Hd&Hst&_&Hev&_).
      unfold daily_base, requested_events in *. rewrite Hrd in *. cbn in Hev.
      rewrite Hst, Hev. cbn. unfold daily_base. rewrite Hrd. done.
Qed.

Lemma requestTokens_epoch_reset_witness :
  let w := Scenario.capped_world in
  let late := Scenario.as_user Scenario.USER2 (Scenario.T0 + 90000) in
  let early := Scenario.as_user Scenario.USER2 (Scenario.T0 + 20) in
  totalDistributedToday (storage w) = dailyLimit (storage w) /\
  (exists w',
     call late RequestTokens w = (None, w') /\
     totalDistributedToday (storage w') = tokensPerRequest (storage w) /\
     lastResetTime (storage w') = block_timestamp late /\
     events w' = events w ++
       [DailyLimitReset (block_timestamp late) (totalDistributedToday (storage w));
        TokensRequested (msg_sender late) (tokensPerRequest (storage w))
          (block_timestamp late)]) /\
  snd (call early RequestTokens w) = w.
Proof.
  cbv zeta. split; [reflexivity|]. split.
  - apply (proj1 (requestTokens_epoch_reset
                    (Scenario.as_user Scenario.USER2 (Scenario.T0 + 90000))
                    Scenario.capped_world))
      with (t := mkToken (<[Scenario.USER1 := 1000]> {[Scenario.FAUCET := 4000]}) ∅ false);
      by_evaluation.
  - destruct (call (Scenario.as_user Scenario.USER2 (Scenario.T0 + 20)) RequestTokens
                Scenario.capped_world) as [st w'] eqn:Hc.
    assert (Hearly : block_timestamp (Scenario.as_user Scenario.USER2 (Scenario.T0 + 20))
                       < lastResetTime (storage Scenario.capped_world) + ONE_DAY)
      by by_evaluation.
    destruct (proj2 (requestTokens_epoch_reset _ _) Hearly _ _ Hc)
      as [(-> & _)|(_ & ->)]; [|reflexivity].
    vm_compute in Hc. discriminate Hc.
Defined.

(** ** C4: the cooldown *)

(** C4, as stated, fails: the pause test comes before the cooldown test.
    After a successful request at [T0 + 10] the administrator pauses the
    controller; the same address calling again 20 seconds later, well
    inside the one-hour cooldown, is refused for the pause and not for the
    cooldown. *)
Lemma cooldown_counterexample :
  let first := Scenario.as_user Scenario.USER1 (Scenario.T0 + 10) in
  let again := Scenario.as_user Scenario.USER1 (Scenario.T0 + 30) in
  let w1 := snd (call first RequestTokens Scenario.world0) in
  let w2 := snd (call (Scenario.as_owner (Scenario.T0 + 20)) PauseFaucet w1) in
  fst (call first RequestTokens Scenario.world0) = None /\
  block_timestamp again < block_timestamp first + cooldownTime (storage w2) /\
  fst (call again RequestTokens w2) = Some (CustomError "EnforcedPause") /\
  fst (call again RequestTokens w2) <> Some (Revert "TokenFaucet: cooldown period not met").
Proof. by_evaluation. Qed.

(** Inside the cooldown a call that gets as far as the cooldown test fails
    there. *)
Lemma requestTokens_cooldown_error e w :
  let s := storage w in
  let u := msg_sender e in
  reentrancy_entered s = false -> paused s = false -> u = tx_origin e ->
  rdb (blacklisted s) u = false ->
  rd (lastRequestTime s) u + cooldownTime s <= MAX_UINT256 ->
  block_timestamp e < rd (lastRequestTime s) u + cooldownTime s ->
  call e RequestTokens w = (Some (Revert "TokenFaucet: cooldown period not met"), w).
Proof.
  unfold call, transact, dispatch, requestTokens, _validateRequest.
  open_world w. unfold_monad. simpl_world.
  intros -> -> Ho Hbl Hfit Hcd. simpl_world.
  repeat case_if_goal. all: reflexivity.
Qed.

(** C4 (amended): if a [requestTokens] call by [a] succeeds at time [T],
    then [lastRequestTime[a]] is [T], and as long as it is, a call by [a]
    at a time [t < T + cooldownTime] fails; it fails with the cooldown
    error when the controller is not paused, [a] is the originator and is
    not blacklisted (the tests that come first) and [T + cooldownTime] fits
    256 bits.  A call at [t >= T + cooldownTime] succeeds provided the
    controller is not paused and no call is in progress, [a] is the
    originator and not blacklisted, the per-address cap and the daily cap
    (on the total a due reset leaves) have room for one payout, and the
    ledger pays: the controller's token is a deployed ledger that is not
    paused and on which the controller holds one payout, and neither the
    controller nor [a] is the zero address. *)
Theorem cooldown_after_request e w w1 :
  call e RequestTokens w = (None, w1) ->
  let a := msg_sender e in
  let T := block_timestamp e in
  rd (lastRequestTime (storage w1)) a = T /\
  forall e2 w2,
    msg_sender e2 = a -> rd (lastRequestTime (storage w2)) a = T ->
    let s2 := storage w2 in
    let t := block_timestamp e2 in
    (t < T + cooldownTime s2 ->
       (exists err, call e2 RequestTokens w2 = (Some err, w2)) /\
       (reentrancy_entered s2 = false -> paused s2 = false -> tx_origin e2 = a ->
        rdb (blacklisted s2) a = false -> T + cooldownTime s2 <= MAX_UINT256 ->
        call e2 RequestTokens w2 =
          (Some (Revert "TokenFaucet: cooldown period not met"), w2))) /\
    (T + cooldownTime s2 <= t ->
       forall tk,
       reentrancy_entered s2 = false -> uint256 t ->
       uint256 (maxTokensPerAddress s2) -> uint256 (dailyLimit s2) ->
       lastResetTime s2 + ONE_DAY <= MAX_UINT256 ->
       paused s2 = false -> tx_origin e2 = a -> rdb (blacklisted s2) a = false ->
       rd (totalTokensReceived s2) a + tokensPerRequest s2 <= maxTokensPerAddress s2 ->
       daily_base e2 s2 + tokensPerRequest s2 <= dailyLimit s2 ->
       ledger_pays w2 a tk ->
       exists w3, call e2 RequestTokens w2 = (None, w3)).
Proof.
  intros Hc. cbv zeta. split.
  - apply requestTokens_inv in Hc as (_&_&_&_&_&_&_&Hst&_).
    rewrite Hst. cbn. unfold rd. by rewrite lookup_insert_eq.
  - intros e2 w2 Hsender Hlast. split.
    + intros Hearly. split.
      * destruct (call_cases e2 RequestTokens w2) as [[w3 Hc2]|Hf]; [|done].
        apply requestTokens_inv in Hc2 as (_&_&_&_&Hcd&_).
        rewrite Hsender, Hlast in Hcd. lia.
      * intros Hidle Hp Ho Hbl Hfit.
        apply requestTokens_cooldown_error; rewrite ?Hsender, ?Hlast; try done; lia.
    + intros Hlate tk Hidle Hnow Hmax Hlim Hday Hp Ho Hbl Hcap Hdaily Hpays.
      unfold uint256 in *.
      destruct (ledger_pays_transfer _ _ _ Hpays) as [t' Htr].
      destruct Hpays as (Htk & Hbal & _).
      eexists. eapply requestTokens_ok; rewrite ?Hsender, ?Hlast; eauto; lia.
Qed.

Lemma cooldown_after_request_witness :
  let first := Scenario.as_user Scenario.USER1 (Scenario.T0 + 10) in
  let again := Scenario.as_user Scenario.USER1 (Scenario.T0 + 30) in
  let later := Scenario.as_user Scenario.USER1 (Scenario.T0 + 3610) in
  let w1 := snd (call first RequestTokens Scenario.world0) in
  call first RequestTokens Scenario.world0 = (None, w1) /\
  call again RequestTokens w1 =
    (Some (Revert "TokenFaucet: cooldown period not met"), w1) /\
  exists w3, call later RequestTokens w1 = (None, w3).
Proof.
  cbv zeta.
  assert (Hc : call (Scenario.as_user Scenario.USER1 (Scenario.T0 + 10)) RequestTokens
                 Scenario.world0
               = (None, snd (call (Scenario.as_user Scenario.USER1 (Scenario.T0 + 10))
                               RequestTokens Scenario.world0)))
    by (vm_compute; reflexivity).
  split; [exact Hc|].
  destruct (cooldown_after_request _ _ _ Hc) as [Hlast Hnext].
  split.
  - refine (proj2 (proj1 (Hnext (Scenario.as_user Scenario.USER1 (Scenario.T0 + 30)) _ _ _) _)
              _ _ _ _ _); by_evaluation.
  - refine (proj2 (Hnext (Scenario.as_user Scenario.USER1 (Scenario.T0 + 3610)) _ _ _) _
              (mkToken (<[Scenario.USER1 := 10]> {[Scenario.FAUCET := 4990]}) ∅ false)
              _ _ _ _ _ _ _ _ _ _ _); by_evaluation.
Defined.

(** ** C5: the eligibility query *)

(** C5, as stated, fails: the query does not reproduce check 2.  For a
    relaying contract [RELAY] called by [USER1], [getUserInfo] answers that
    [RELAY] can request now, while a request by [RELAY] fails the
    originator test. *)
Lemma eligibility_counterexample :
  let now := Scenario.T0 + 10 in
  view (getUserInfo (Scenario.as_user Scenario.USER2 now) Scenario.RELAY) Scenario.world0
    = inr (0, 0, true, 0) /\
  fst (call (mkEnv Scenario.RELAY Scenario.USER1 now) RequestTokens Scenario.world0)
    = Some (Revert "TokenFaucet: contracts not allowed").
Proof. by_evaluation. Qed.

(** [eligible_now] is the request path without check 2 and without the
    reset: for a caller that is the originator, at a time when no reset is
    due and against a ledger that accepts the payout, [requestTokens]
    succeeds exactly when [eligible_now] holds. *)
Lemma requestTokens_succeeds_iff_eligible e w t :
  let s := storage w in
  let u := msg_sender e in
  reentrancy_entered s = false -> u = tx_origin e ->
  uint256 (block_timestamp e) -> uint256 (maxTokensPerAddress s) ->
  uint256 (dailyLimit s) ->
  block_timestamp e < lastResetTime s + ONE_DAY <= MAX_UINT256 ->
  ledgers w !! token s = Some t -> token_paused t = false -> self w <> 0 -> u <> 0 ->
  (exists w', call e RequestTokens w = (None, w')) <-> eligible_now e u w.
Proof.
  cbv zeta. unfold uint256. intros Hidle Ho Hnow Hmax Hlim Hday Htk Htp Hself Hu.
  assert (Hrd : reset_due e (storage w) = false).
  { unfold reset_due. rewrite Z.geb_leb. apply Z.leb_gt. lia. }
  split.
  - intros [w' Hc].
    apply requestTokens_inv in Hc as (_&Hp&_&Hbl&Hcd&Hcap&Hd&_&_&_&(t0&t'&Ht0&Hbal&_)).
    unfold daily_base in Hd. rewrite Hrd in Hd.
    unfold eligible_now. eauto 10.
  - intros (Hp & Hbl & Hcd & Hcap & Hd & (t0 & Ht0 & Hbal)). simplify_eq.
    eexists. eapply requestTokens_ok; eauto; try lia.
    + unfold daily_base. by rewrite Hrd.
    + by apply erc20_transfer_accepts.
Qed.

(** C5 (amended): whenever [getUserInfo(u)] returns, its [canRequestNow]
    field is true if and only if a request by [u] would pass checks 1, 3,
    4, 5, 7 and 8 (not paused, not blacklisted, cooldown elapsed,
    per-address cap, daily cap on the current total without a reset,
    balance); the originator test, check 2, is not part of the query.
    The query returns whenever the three sums it forms fit 256 bits and the
    token is a deployed ledger. *)
Theorem getUserInfo_canRequest e u w :
  (forall received last can wait,
     view (getUserInfo e u) w = inr (received, last, can, wait) ->
     (can = true <-> eligible_now e u w)) /\
  (let s := storage w in
   rd (lastRequestTime s) u + cooldownTime s <= MAX_UINT256 ->
   rd (totalTokensReceived s) u + tokensPerRequest s <= MAX_UINT256 ->
   totalDistributedToday s + tokensPerRequest s <= MAX_UINT256 ->
   is_Some (ledgers w !! token s) ->
   exists r, view (getUserInfo e u) w = inr r).
Proof.
  split.
  - unfold view, getUserInfo, _canUserRequest, eligible_now.
    open_world w. unfold_monad. simpl_world. intros received last can wait H.
    repeat case_if_in H.
    all: inversion H; subst; clear H.
    all: repeat match goal with
           | H : (_ || _) = true |- _ => apply orb_true_iff in H
           | H : (_ || _) = false |- _ => apply orb_false_iff in H as [? ?]
           end; tests_to_Z.
    all: split; [try discriminate | intros (? & ? & ? & ? & ? & (? & ? & ?))];
      simplify_eq; try lia; try (intuition congruence).
    all: try (intros Hb; rewrite Z.geb_le in Hb; repeat split; try done; try lia; eauto).
    all: try (rewrite Z.geb_le; lia).
  - cbv zeta. unfold view, getUserInfo, _canUserRequest.
    open_world w. unfold_monad. simpl_world. intros H1 H2 H3 [t Ht].
    repeat case_if_goal; eauto.
Qed.

Lemma getUserInfo_canRequest_witness :
  let e := Scenario.as_user Scenario.USER1 (Scenario.T0 + 10) in
  view (getUserInfo e Scenario.USER1) Scenario.world0 = inr (0, 0, true, 0) /\
  eligible_now e Scenario.USER1 Scenario.world0 /\
  exists r, view (getUserInfo e Scenario.USER1) Scenario.world0 = inr r.
Proof.
  cbv zeta.
  assert (Hv : view (getUserInfo (Scenario.as_user Scenario.USER1 (Scenario.T0 + 10))
                       Scenario.USER1) Scenario.world0 = inr (0, 0, true, 0))
    by (vm_compute; reflexivity).
  split; [exact Hv|]. split.
  - apply (proj1 (getUserInfo_canRequest _ _ _) _ _ _ _ Hv). reflexivity.
  - apply (proj2 (getUserInfo_canRequest _ _ _)); try by_evaluation.
    exists Scenario.ledger0. reflexivity.
Defined.

(** ** C6: failed calls *)

(** C6: whatever entry point is called and whatever error it fails with,
    the world after the call is the world before it: the controller's
    storage (configuration, daily total and reset time, every user's last
    request time, lifetime total and blacklist flag, the pause flag), the
    ledgers, hence the custodied balance, and the event log. *)
Theorem failed_call_changes_nothing e c w err w' :
  call e c w = (Some err, w') ->
  w' = w /\ storage w' = storage w /\ ledgers w' = ledgers w /\ events w' = events w.
Proof.
  intros H. apply call_failed in H. by subst.
Qed.

(** A batch whose second entry is refused: the first transfer had been
    made when the failure was raised, and the call commits none of it. *)
Lemma failed_call_changes_nothing_witness :
  let e := Scenario.as_owner (Scenario.T0 + 10) in
  let c := BatchDistribute [Scenario.USER1; 0] [50; 75] in
  (exists dirty,
     dispatch e c Scenario.world0 = Failed (Revert "TokenFaucet: invalid recipient") dirty /\
     ledgers dirty <> ledgers Scenario.world0) /\
  snd (call e c Scenario.world0) = Scenario.world0 /\
  ledgers (snd (call e c Scenario.world0)) = ledgers Scenario.world0.
Proof.
  cbv zeta. split.
  - eexists. split; [vm_compute; reflexivity|]. by_evaluation.
  - assert (Hc : call (Scenario.as_owner (Scenario.T0 + 10))
                   (BatchDistribute [Scenario.USER1; 0] [50; 75]) Scenario.world0
                 = (Some (Revert "TokenFaucet: invalid recipient"),
                    snd (call (Scenario.as_owner (Scenario.T0 + 10))
                           (BatchDistribute [Scenario.USER1; 0] [50; 75]) Scenario.world0)))
      by (vm_compute; reflexivity).
    destruct (failed_call_changes_nothing _ _ _ _ _ Hc) as (Hw & _ & Hl & _).
    split; [exact Hw | exact Hl].
Defined.

(** ** C9: reconfiguration *)

(** C9: a successful [configureFaucet] replaces the four configuration
    fields and nothing else: the daily total and the reset time, every
    user's last request time, lifetime total and blacklist flag, the pause
    flag and the ledgers are as before, so a [dailyLimit] lowered below the
    running [totalDistributedToday] leaves that total as it is. *)
Theorem configureFaucet_frame e t cd m d w w' :
  call e (ConfigureFaucet t cd m d) w = (None, w') ->
  let s := storage w in
  storage w' =
    mkFaucet (owner s) (reentrancy_entered s) (paused s) (token s)
      t cd m d
      (totalDistributedToday s) (lastResetTime s)
      (lastRequestTime s) (totalTokensReceived s) (blacklisted s) /\
  ledgers w' = ledgers w /\ self w' = self w /\
  events w' = events w ++ [FaucetConfigured t cd m d].
Proof.
  unfold call, transact, dispatch, configureFaucet.
  open_world w. unfold_monad. simpl_world. intros H.
  repeat case_if_in H. by inversion H.
Qed.

Lemma configureFaucet_frame_witness :
  let w := Scenario.capped_world in
  let w' := snd (call (Scenario.as_owner (Scenario.T0 + 50)) (ConfigureFaucet 10 60 20 30) w) in
  dailyLimit (storage w') = 30 /\
  totalDistributedToday (storage w') = 1000 /\
  lastResetTime (storage w') = lastResetTime (storage w) /\
  lastRequestTime (storage w') = lastRequestTime (storage w) /\
  totalTokensReceived (storage w') = totalTokensReceived (storage w) /\
  ledgers w' = ledgers w.
Proof.
  cbv zeta.
  assert (Hc : call (Scenario.as_owner (Scenario.T0 + 50)) (ConfigureFaucet 10 60 20 30)
                 Scenario.capped_world
               = (None, snd (call (Scenario.as_owner (Scenario.T0 + 50))
                               (ConfigureFaucet 10 60 20 30) Scenario.capped_world)))
    by (vm_compute; reflexivity).
  destruct (configureFaucet_frame _ _ _ _ _ _ _ Hc) as (Hst & Hl & _ & _).
  rewrite Hst, Hl. repeat split.
Defined.

(** ** C7: withdrawals *)

Lemma moved_balances from to value t :
  from <> to ->
  balanceOf (moved from to value t) from = balanceOf t from - value /\
  balanceOf (moved from to value t) to = (balanceOf t to + value) mod 2 ^ 256.
Proof.
  intros Hne. unfold moved, balanceOf, rd; cbn.
  rewrite lookup_insert_ne by done. rewrite !lookup_insert_eq. cbn.
  rewrite lookup_insert_ne by done. done.
Qed.

(** C7, as stated, fails for [emergencyWithdraw]: with a zero amount and
    the zero ledger reference it fails for the reference, not for the
    amount; and it makes no balance test of its own, so asking for 6000
    tokens of a ledger where the controller holds 5000 is refused by the
    ledger's transfer, not with the controller's insufficient-balance
    error, which [withdrawTokens] does raise. *)
Lemma withdrawal_counterexample :
  let e := Scenario.as_owner (Scenario.T0 + 10) in
  fst (call e (EmergencyWithdrawTokens 0 0) Scenario.world0)
    = Some (Revert "TokenFaucet: invalid token address") /\
  balanceOf Scenario.ledger0 Scenario.FAUCET < 6000 /\
  fst (call e (EmergencyWithdrawTokens Scenario.TOKEN 6000) Scenario.world0)
    = Some (CustomError "ERC20InsufficientBalance") /\
  fst (call e (WithdrawTokens 6000) Scenario.world0)
    = Some (Revert "TokenFaucet: insufficient balance").
Proof. by_evaluation. Qed.

(** C7 (amended): called by the administrator, [withdrawTokens(amount)]
    fails with the amount error when [amount] is 0 and with the
    controller's insufficient-balance error when its balance in the token
    is below [amount]; [emergencyWithdraw(ledgerRef, amount)] fails with
    the reference error when [ledgerRef] is zero, else with the amount
    error when [amount] is 0, and makes no balance test: a short balance in
    that ledger makes the ledger's transfer fail, and the call with it.
    Otherwise, the ledger accepting the transfer, each moves [amount] from
    the controller to the administrator and emits its withdrawal record,
    changing nothing else. *)
Theorem withdrawals_by_administrator e w amount :
  let s := storage w in
  msg_sender e = owner s ->
  (reentrancy_entered s = false ->
   (amount = 0 ->
    call e (WithdrawTokens amount) w = (Some (Revert "TokenFaucet: amount must be > 0"), w)) /\
   (0 < amount ->
    forall t, ledgers w !! token s = Some t ->
    (balanceOf t (self w) < amount ->
     call e (WithdrawTokens amount) w
       = (Some (Revert "TokenFaucet: insufficient balance"), w)) /\
    (amount <= balanceOf t (self w) ->
     token_paused t = false -> self w <> 0 -> owner s <> 0 ->
     call e (WithdrawTokens amount) w
       = (None, mkWorld s (self w)
                  (<[token s := moved (self w) (owner s) amount t]> (ledgers w))
                  (events w ++ [TokensWithdrawn (owner s) amount]))))) /\
  (forall tk,
   (tk = 0 ->
    call e (EmergencyWithdrawTokens tk amount) w
      = (Some (Revert "TokenFaucet: invalid token address"), w)) /\
   (tk <> 0 -> amount = 0 ->
    call e (EmergencyWithdrawTokens tk amount) w
      = (Some (Revert "TokenFaucet: amount must be > 0"), w)) /\
   (tk <> 0 -> 0 < amount ->
    forall t, ledgers w !! tk = Some t ->
    token_paused t = false -> self w <> 0 -> owner s <> 0 ->
    (balanceOf t (self w) < amount ->
     call e (EmergencyWithdrawTokens tk amount) w
       = (Some (CustomError "ERC20InsufficientBalance"), w)) /\
    (amount <= balanceOf t (self w) ->
     call e (EmergencyWithdrawTokens tk amount) w
       = (None, mkWorld s (self w)
                  (<[tk := moved (self w) (owner s) amount t]> (ledgers w))
                  (events w ++ [EmergencyWithdraw tk amount]))))).
Proof.
  cbv zeta. intros Hown. split.
  - intros Hidle. split.
    + intros ->. unfold call, transact, dispatch, withdrawTokens.
      open_world w. unfold_monad. simpl_world. subst.
      repeat case_if_goal. all: reflexivity.
    + intros Hpos t Htk. split.
      * intros Hshort. unfold call, transact, dispatch, withdrawTokens.
        open_world w. unfold_monad. simpl_world. subst.
        repeat case_if_goal. all: reflexivity.
      * intros Hbal Hp Hself Ho.
        pose proof (erc20_transfer_accepts (self w) (owner (storage w)) amount t
                      Hp Hself Ho Hbal) as Htr.
        fold (moved (self w) (owner (storage w)) amount t) in Htr.
        revert Htr. unfold call, transact, dispatch, withdrawTokens.
        open_world w. unfold_monad. simpl_world. subst. intros Htr.
        repeat case_if_goal. all: reflexivity.
  - intros tk. split; [|split].
    + intros ->. unfold call, transact, dispatch, emergencyWithdraw.
      open_world w. unfold_monad. simpl_world. subst.
      repeat case_if_goal. all: reflexivity.
    + intros Htk ->. unfold call, transact, dispatch, emergencyWithdraw.
      open_world w. unfold_monad. simpl_world. subst.
      repeat case_if_goal. all: reflexivity.
    + intros Hnz Hpos t Htk Hp Hself Ho. split.
      * intros Hshort.
        pose proof (erc20_transfer_short (self w) (owner (storage w)) amount t
                      Hp Hself Ho Hshort) as Htr.
        revert Htr. unfold call, transact, dispatch, emergencyWithdraw.
        open_world w. unfold_monad. simpl_world. subst. intros Htr.
        repeat case_if_goal. all: reflexivity.
      * intros Hbal.
        pose proof (erc20_transfer_accepts (self w) (owner (storage w)) amount t
                      Hp Hself Ho Hbal) as Htr.
        fold (moved (self w) (owner (storage w)) amount t) in Htr.
        revert Htr. unfold call, transact, dispatch, emergencyWithdraw.
        open_world w. unfold_monad. simpl_world. subst. intros Htr.
        repeat case_if_goal. all: reflexivity.
Qed.

Lemma withdrawals_by_administrator_witness :
  let e := Scenario.as_owner (Scenario.T0 + 10) in
  let w := Scenario.world0 in
  let paid := moved Scenario.FAUCET Scenario.OWNER 100 Scenario.ledger0 in
  call e (WithdrawTokens 100) w
    = (None, mkWorld (storage w) (self w) (<[Scenario.TOKEN := paid]> (ledgers w))
               (events w ++ [TokensWithdrawn Scenario.OWNER 100])) /\
  balanceOf paid Scenario.FAUCET = 4900 /\ balanceOf paid Scenario.OWNER = 100 /\
  call e (EmergencyWithdrawTokens Scenario.TOKEN 6000) w
    = (Some (CustomError "ERC20InsufficientBalance"), w).
Proof.
  cbv zeta.
  pose proof (withdrawals_by_administrator (Scenario.as_owner (Scenario.T0 + 10))
                Scenario.world0) as H.
  split; [|split; [reflexivity|split; [reflexivity|]]].
  - refine (proj2 (proj2 (proj1 (H 100 _) _) _ Scenario.ledger0 _) _ _ _ _); by_evaluation.
  - refine (proj1 (proj2 (proj2 (proj2 (H 6000 _) Scenario.TOKEN)) _ _
                     Scenario.ledger0 _ _ _ _) _); by_evaluation.
Defined.

(** ** C8 and C10: batch distribution *)

Lemma zip_pairs_Forall (P Q : Z -> Prop) (rs amts : list Z) :
  Forall P rs -> Forall Q amts -> Forall (fun p => P p.1 /\ Q p.2) (zip rs amts).
Proof.
  intros Hrs. revert amts. induction Hrs as [|r rs Hr Hrs IH]; intros amts Hamts; cbn.
  - constructor.
  - destruct Hamts as [|a amts Ha Hamts]; constructor; auto.
Qed.

Lemma zip_zero_amount (rs amts : list Z) :
  length rs = length amts -> 0 ∈ amts -> Exists (fun p => p.2 = 0) (zip rs amts).
Proof.
  revert amts. induction rs as [|r rs IH]; intros [|a amts] Hlen Hin; cbn in *;
    try discriminate.
  - by apply elem_of_nil in Hin.
  - apply elem_of_cons in Hin as [<-|Hin].
    + by left.
    + right. apply IH; [lia|done].
Qed.

Lemma forallb_positive (ps : list (Z * Z)) :
  forallb (fun p => 0 <? p.2) ps = true <-> Forall (fun p => 0 < p.2) ps.
Proof.
  induction ps as [|p ps IH]; cbn.
  - split; [constructor|done].
  - rewrite andb_true_iff, Forall_cons, IH, Z.ltb_lt. done.
Qed.

(** A successful batch has run the whole loop. *)
Lemma batchDistribute_inv e rs amts w w' :
  call e (BatchDistribute rs amts) w = (None, w') ->
  length rs = length amts /\
  exists w0 w1, distribute_list e (zip rs amts) w0 = Done tt w1.
Proof.
  unfold call, transact, dispatch, batchDistribute.
  destruct w as [s slf l ev]. destruct s. unfold_monad. simpl_world. intros H.
  repeat case_if_in H.
  match type of H with
  | context [sum_amounts ?a ?b ?w0] =>
      destruct (sum_amounts a b w0) as [v w1|] eqn:Hs; [|discriminate H]
  end.
  apply sum_amounts_Done in Hs as [-> ->]. simpl_world.
  repeat case_if_in H.
  match type of H with
  | context [distribute_loop ?e ?a ?b ?n ?i ?w0] =>
      destruct (distribute_loop e a b n i w0) as [[] w1|] eqn:Hl; [|discriminate H]
  end.
  assert (Hlen : length rs = length amts) by (by apply Nat.eqb_eq).
  rewrite distribute_loop_list in Hl by done.
  split; [done|]. rewrite drop_0 in Hl. eauto.
Qed.

(** The batch call in terms of its loop, once the tests before the loop
    have passed. *)
Lemma batchDistribute_run e rs amts w t :
  let s := storage w in
  msg_sender e = owner s -> reentrancy_entered s = false ->
  length rs = length amts -> rs <> [] ->
  Forall (fun a => 0 <= a) amts -> sum_Z amts <= MAX_UINT256 ->
  ledgers w !! token s = Some t -> sum_Z amts <= balanceOf t (self w) ->
  dispatch e (BatchDistribute rs amts) w =
    match distribute_list e (zip rs amts) (with_storage (set_reentrancy_entered true s) w) with
    | Done _ w1 => Done tt (with_storage (set_reentrancy_entered false (storage w1)) w1)
    | Failed err w1 => Failed err w1
    end.
Proof.
  cbv zeta. intros Hown Hidle Hlen Hne Hpos Hfit Htk Hbal.
  unfold dispatch, batchDistribute.
  assert (Hn : negb (length rs =? 0)%nat = true).
  { destruct rs; [done|reflexivity]. }
  assert (He : (length rs =? length amts)%nat = true) by (by apply Nat.eqb_eq).
  destruct w as [s slf l ev]. destruct s. unfold_monad. simpl_world. subst.
  rewrite Z.eqb_refl, He, Hn. simpl_world.
  rewrite sum_amounts_ok by (done || lia). simpl_world.
  rewrite Htk. simpl_world.
  rewrite (Z.geb_leb _ (0 + sum_Z amts)), (proj2 (Z.leb_le _ _)) by lia. simpl_world.
  rewrite distribute_loop_list by done. rewrite drop_0.
  match goal with
  | |- context [distribute_list ?e ?ps ?w0] => destruct (distribute_list e ps w0) as [[] ?|]
  end; reflexivity.
Qed.

Lemma forallb_zero_amount (ps : list (Z * Z)) :
  Exists (fun p => p.2 = 0) ps -> forallb (fun p => 0 <? p.2) ps = false.
Proof.
  induction 1 as [p ps Hz|p ps _ IH]; cbn.
  - rewrite Hz. reflexivity.
  - rewrite IH. apply andb_false_r.
Qed.

(** C10, as stated, fails: a batch with a zero amount fails, but not
    always with the invalid-amount error, even when every recipient is
    non-zero and the balance covers the total.  The same batch
    [[USER1; USER2], [50; 0]] is refused for the caller when a user sends
    it, and when the administrator sends it to a controller whose ledger is
    paused it is refused by the ledger at the first entry, before the zero
    amount is reached; and in a one-entry batch with a zero recipient and a
    zero amount the recipient is tested first. *)
Lemma zero_amount_counterexample :
  let now := Scenario.T0 + 10 in
  let c := BatchDistribute [Scenario.USER1; Scenario.USER2] [50; 0] in
  call (Scenario.as_user Scenario.USER1 now) c Scenario.world0
    = (Some (CustomError "OwnableUnauthorizedAccount"), Scenario.world0) /\
  view getFaucetBalance Frozen.world = inr 5000 /\
  call (Scenario.as_owner now) c Frozen.world
    = (Some (CustomError "EnforcedPause"), Frozen.world) /\
  call (Scenario.as_owner now) (BatchDistribute [0] [0]) Scenario.world0
    = (Some (Revert "TokenFaucet: invalid recipient"), Scenario.world0).
Proof. by_evaluation. Qed.

(** C10 (amended): a batch with a zero amount anywhere fails and commits
    nothing, no transfer of any entry included.  The error is the
    invalid-amount one when nothing else is wrong: the administrator calls
    and no call is in progress, the arrays have the same length, every
    recipient is non-zero, and the controller's token is a deployed ledger
    that is not paused and on which the controller, not the zero address,
    holds the sum of the amounts. *)
Theorem batchDistribute_rejects_zero_amount e rs amts w :
  0 ∈ amts ->
  (exists err, call e (BatchDistribute rs amts) w = (Some err, w)) /\
  (forall t,
   let s := storage w in
   msg_sender e = owner s -> reentrancy_entered s = false ->
   length rs = length amts ->
   Forall (fun r => r <> 0) rs -> Forall (fun a => 0 <= a) amts ->
   ledgers w !! token s = Some t -> token_paused t = false -> self w <> 0 ->
   uint256 (balanceOf t (self w)) -> sum_Z amts <= balanceOf t (self w) ->
   call e (BatchDistribute rs amts) w = (Some (Revert "TokenFaucet: invalid amount"), w)).
Proof.
  intros Hzero. split.
  - destruct (call_cases e (BatchDistribute rs amts) w) as [[w' Hc]|Hf]; [|done].
    apply batchDistribute_inv in Hc as (Hlen & w0 & w1 & Hl).
    destruct (distribute_list_zero_fails e _ w0 (zip_zero_amount _ _ Hlen Hzero))
      as (err & w2 & Hfail).
    congruence.
  - cbv zeta. intros t Hown Hidle Hlen Hrs Hamts Htk Hp Hself Hr Hbal.
    assert (Hne : rs <> []).
    { intros ->. destruct amts; [by apply elem_of_nil in Hzero|discriminate]. }
    unfold call, transact.
    rewrite (batchDistribute_run e rs amts w t) by (try done; unfold uint256 in Hr; lia).
    destruct (distribute_list_run e (zip rs amts)
                (with_storage (set_reentrancy_entered true (storage w)) w) t)
      as [w' Hrun]; simpl_world; try done.
    + rewrite snd_zip by lia. done.
    + by apply (zip_pairs_Forall (fun r => r <> 0) (fun a => 0 <= a)).
    + rewrite Hrun, (forallb_zero_amount _ (zip_zero_amount _ _ Hlen Hzero)). done.
Qed.

Lemma batchDistribute_rejects_zero_amount_witness :
  let e := Scenario.as_owner (Scenario.T0 + 10) in
  let c := BatchDistribute [Scenario.USER1; Scenario.USER2] [50; 0] in
  call e c Scenario.world0 = (Some (Revert "TokenFaucet: invalid amount"), Scenario.world0) /\
  exists dirty, dispatch e c Scenario.world0 = Failed (Revert "TokenFaucet: invalid amount") dirty
                /\ ledgers dirty <> ledgers Scenario.world0.
Proof.
  cbv zeta. split.
  - assert (Hz : 0 ∈ [50; 0]) by (apply elem_of_cons; right; apply elem_of_cons; by left).
    apply (proj2 (batchDistribute_rejects_zero_amount _ _ _ _ Hz) Scenario.ledger0);
      try by_evaluation.
    + repeat constructor; discriminate.
    + repeat constructor; discriminate.
  - eexists. split; [vm_compute; reflexivity|]. by_evaluation.
Defined.

Lemma related_status {A} (o1 o2 : outcome A) :
  related o1 o2 -> outcome_status o1 = outcome_status o2.
Proof. destruct o1, o2; cbn; try done. by intros ->. Qed.

Lemma transact_status {A} (m : M A) w : fst (transact m w) = outcome_status (m w).
Proof. unfold transact. by destruct (m w). Qed.

Ltac open_pair w1 w2 H :=
  let s1 := fresh "s" in
  let s2 := fresh "s" in
  destruct w1 as [s1 ? ? ?]; destruct s1; destruct w2 as [s2 ? ? ?]; destruct s2;
  unfold same_outside in H; simpl_world;
  destruct H as (? & ? & ? & ? & ?); subst.

Lemma sum_amounts_pure amts acc w :
  sum_amounts amts acc w =
    match sum_checked amts acc with
    | Some v => Done v w
    | None => Failed (Panic PANIC_ARITHMETIC) w
    end.
Proof.
  revert acc. induction amts as [|a amts IH]; intros acc; cbn; [done|].
  unfold bind, add256. destruct (acc + a <=? MAX_UINT256); cbn; [apply IH|done].
Qed.

Lemma distribute_entry_related e r a w1 w2 :
  same_outside w1 w2 -> related (distribute_entry e r a w1) (distribute_entry e r a w2).
Proof.
  intros H. open_pair w1 w2 H. unfold distribute_entry. unfold_monad. simpl_world.
  repeat case_if_goal; cbn; try done.
Qed.

Lemma distribute_loop_related e rs amts n i w1 w2 :
  same_outside w1 w2 ->
  related (distribute_loop e rs amts n i w1) (distribute_loop e rs amts n i w2).
Proof.
  revert i w1 w2. induction n as [|n IH]; intros i w1 w2 H; cbn.
  - done.
  - unfold bind, distribute_one.
    destruct (rs !! i) as [r|], (amts !! i) as [a|]; cbn; try done.
    pose proof (distribute_entry_related e r a w1 w2 H) as Hr.
    destruct (distribute_entry e r a w1), (distribute_entry e r a w2); cbn in Hr; try done.
    destruct Hr as [_ Hr]. by apply IH.
Qed.

Lemma batchDistribute_related e rs amts w1 w2 :
  same_outside w1 w2 ->
  related (batchDistribute e rs amts w1) (batchDistribute e rs amts w2).
Proof.
  intros H. open_pair w1 w2 H. unfold batchDistribute. unfold_monad. simpl_world.
  repeat match goal with
    | |- context [if ?b then _ else _] => destruct b eqn:?; simpl_world; try done
    end.
  rewrite !sum_amounts_pure. destruct (sum_checked amts 0); simpl_world; try done.
  destruct (_ !! _) eqn:?; simpl_world; try done.
  destruct (_ >=? _) eqn:?; simpl_world; try done.
  match goal with
  | |- related ?L ?R =>
      match L with
      | context [distribute_loop ?e ?r ?a ?n ?i ?wa] =>
          match R with
          | context [distribute_loop _ _ _ _ _ ?wb] =>
              assert (Hl : related (distribute_loop e r a n i wa)
                                   (distribute_loop e r a n i wb))
                by (apply distribute_loop_related; by repeat split);
              destruct (distribute_loop e r a n i wa) as [? w3|],
                       (distribute_loop e r a n i wb) as [? w4|]
          end
      end
  end; cbn in Hl |- *; try done.
  destruct Hl as [_ Hl]. split; [by repeat match goal with u : unit |- _ => destruct u end|].
  unfold same_outside in *. simpl_world.
  destruct w3 as [s3 ? ? ?], w4 as [s4 ? ? ?]; destruct s3, s4; simpl_world.
  by destruct Hl as (-> & _ & -> & -> & ->).
Qed.

(** C8: a successful batch leaves the controller's storage as it was, so
    [lastRequestTime[r]] and [totalTokensReceived[r]] of every recipient
    and [totalDistributedToday] keep their values; and whether a batch
    succeeds, and with which error it fails, does not depend on the
    configuration, the counters, the per-user records, the blacklist or the
    pause flag: replacing all of them leaves the outcome the same, so a
    batch that is accepted is accepted while the controller is paused. *)
Theorem batchDistribute_bypasses_accounting e rs amts w :
  (forall w',
     call e (BatchDistribute rs amts) w = (None, w') -> storage w' = storage w) /\
  (forall s',
     owner s' = owner (storage w) ->
     reentrancy_entered s' = reentrancy_entered (storage w) ->
     token s' = token (storage w) ->
     fst (call e (BatchDistribute rs amts) (with_storage s' w))
       = fst (call e (BatchDistribute rs amts) w)).
Proof.
  split.
  - intros w' Hc. by apply batchDistribute_frame in Hc as [? _].
  - intros s' Ho Hg Ht. unfold call. rewrite !transact_status.
    apply related_status. cbn. apply batchDistribute_related.
    unfold same_outside. by destruct w.
Qed.

(** The controller paused and a recipient blacklisted: the batch goes
    through as it does without either, and the storage is untouched. *)
Lemma batchDistribute_bypasses_accounting_witness :
  let e := Scenario.as_owner (Scenario.T0 + 10) in
  let rs := [Scenario.USER1; Scenario.USER2] in
  let s' := set_blacklisted {[Scenario.USER1 := true]}
              (set_paused true (storage Scenario.world0)) in
  let w := with_storage s' Scenario.world0 in
  paused (storage w) = true /\
  fst (call e (BatchDistribute rs [50; 75]) w) = None /\
  storage (snd (call e (BatchDistribute rs [50; 75]) w)) = storage w.
Proof.
  cbv zeta. split; [reflexivity|].
  pose proof (batchDistribute_bypasses_accounting (Scenario.as_owner (Scenario.T0 + 10))
                [Scenario.USER1; Scenario.USER2] [50; 75]) as H.
  split.
  - rewrite (proj2 (H Scenario.world0)) by reflexivity. vm_compute. reflexivity.
  - apply (proj1 (H _)). vm_compute. reflexivity.
Defined.

(** ** Further facts *)

(** Between calls the re-entrancy flag is down: every world reached from a
    deployment is idle. *)
Lemma reachable_idle e addr l tk t cd m d w0 tr :
  deploy e addr l tk t cd m d = inr w0 ->
  reentrancy_entered (storage (run tr w0)) = false.
Proof.
  intros Hd.
  apply (run_invariant (fun w => reentrancy_entered (storage w) = false)
           (fun _ _ _ => true)).
  - done.
  - intros e' c w w' Hw _ Hc.
    pose proof (call_storage _ _ _ _ Hc) as [Hst _]. rewrite Hst.
    destruct c; cbn; done.
  - apply deploy_inv in Hd as (Hst & _). by rewrite Hst.
  - clear. revert w0. induction tr as [|a tr IH]; intros w0; cbn; [done|].
    rewrite IH. by destruct a.
Qed.

(** The inputs a batch accepts, none of which mentions the pause flag, the
    blacklist, the cooldown or the caps. *)
Lemma batchDistribute_ok e rs amts w t :
  let s := storage w in
  msg_sender e = owner s -> reentrancy_entered s = false ->
  length rs = length amts -> rs <> [] ->
  Forall (fun r => r <> 0) rs -> Forall (fun a => 0 < a) amts ->
  ledgers w !! token s = Some t -> token_paused t = false -> self w <> 0 ->
  uint256 (balanceOf t (self w)) -> sum_Z amts <= balanceOf t (self w) ->
  exists w', call e (BatchDistribute rs amts) w = (None, w').
Proof.
  cbv zeta. intros Hown Hidle Hlen Hne Hrs Hamts Htk Hp Hself Hr Hbal.
  assert (Hnn : Forall (fun a => 0 <= a) amts).
  { eapply Forall_impl; [exact Hamts|]. cbn. lia. }
  unfold call, transact.
  rewrite (batchDistribute_run e rs amts w t) by (try done; unfold uint256 in Hr; lia).
  destruct (distribute_list_run e (zip rs amts)
              (with_storage (set_reentrancy_entered true (storage w)) w) t)
    as [w' Hrun]; simpl_world; try done.
  - rewrite snd_zip by lia. done.
  - by apply (zip_pairs_Forall (fun r => r <> 0) (fun a => 0 <= a)).
  - assert (Hall : forallb (fun p => 0 <? p.2) (zip rs amts) = true).
    { apply forallb_positive.
      eapply Forall_impl;
        [exact (zip_pairs_Forall (fun _ => True) (fun a => 0 < a) rs amts
                  (Forall_true _ _ (fun _ => I)) Hamts)|].
      by intros ? []. }
    rewrite Hrun, Hall. eauto.
Qed.

(** The batch of the specification's scenario: 50 and 75 tokens out of a
    balance of 200 leave 75, the controller being paused, with one
    distribution record per entry and the request records left empty. *)
Example batchDistribute_scenario :
  let w := mkWorld (mkFaucet 1 false true 100 10 3600 100 1000 0 0 ∅ ∅ ∅) 200
             {[100 := mkToken {[200 := 200]} ∅ false]} [] in
  let r := call (mkEnv 1 1 500) (BatchDistribute [11; 12] [50; 75]) w in
  fst r = None /\
  (fun t => (balanceOf t 200, balanceOf t 11, balanceOf t 12)) <$> (ledgers (snd r) !! 100)
    = Some (75, 50, 75) /\
  storage (snd r) = storage w /\
  events (snd r) = [TokensRequested 11 50 500; TokensRequested 12 75 500].
Proof. by_evaluation. Qed.

(** The request scenario of the specification, at the times of a real
    chain: a first request succeeds, a second one at once is inside the
    cooldown, one after the cooldown succeeds, and the tenth payout
    exhausts the per-address cap. *)
Example requestTokens_scenario :
  let u := Scenario.USER1 in
  let at_ (k : Z) := Invoke (Scenario.as_user u (Scenario.T0 + k * 3601)) RequestTokens in
  let w1 := step (at_ 1) Scenario.world0 in
  let w10 := run (at_ <$> [2; 3; 4; 5; 6; 7; 8; 9; 10]) w1 in
  rd (totalTokensReceived (storage w1)) u = 10 /\
  fst (call (Scenario.as_user u (Scenario.T0 + 3601)) RequestTokens w1)
    = Some (Revert "TokenFaucet: cooldown period not met") /\
  rd (totalTokensReceived (storage w10)) u = 100 /\
  fst (call (Scenario.as_user u (Scenario.T0 + 11 * 3601)) RequestTokens w10)
    = Some (Revert "TokenFaucet: max tokens per address exceeded").
Proof. by_evaluation. Qed.

(** * More of the controller: properties *)

(** * The rest of the controller: properties *)

Lemma trace_ok_any tr w : trace_ok any_call tr w = true.
Proof.
  revert w. induction tr as [|a tr IH]; intros w; cbn; [done|].
  rewrite IH. by destruct a.
Qed.

Lemma valid_config_step e c w w' :
  valid_config (storage w) -> call e c w = (None, w') -> valid_config (storage w').
Proof.
  unfold valid_config. intros Hv Hc.
  pose proof (call_storage _ _ _ _ Hc) as [Hst _]. rewrite Hst.
  destruct c; cbn; try done.
  apply configureFaucet_inv in Hc. lia.
Qed.

Lemma valid_config_run e addr l tk t cd m d w0 tr :
  deploy e addr l tk t cd m d = inr w0 -> valid_config (storage (run tr w0)).
Proof.
  intros Hd.
  apply (run_invariant (fun w => valid_config (storage w)) any_call).
  - done.
  - intros. eapply valid_config_step; eauto.
  - apply deploy_inv in Hd as (Hst & ? & ? & ?). unfold valid_config. by rewrite Hst.
  - apply trace_ok_any.
Qed.

(** X1: the configuration constraints hold in every world reached from a
    deployment: the payout is positive and neither cap is below it. *)
Theorem configuration_stays_valid e addr l tk t cd m d w0 tr :
  deploy e addr l tk t cd m d = inr w0 ->
  let s := storage (run tr w0) in
  0 < tokensPerRequest s /\
  tokensPerRequest s <= maxTokensPerAddress s /\
  tokensPerRequest s <= dailyLimit s.
Proof. intros Hd. exact (valid_config_run _ _ _ _ _ _ _ _ _ tr Hd). Qed.

Lemma configuration_stays_valid_witness :
  let s := storage (run Scenario.gentle_trace Scenario.world0) in
  0 < tokensPerRequest s /\
  tokensPerRequest s <= maxTokensPerAddress s /\
  tokensPerRequest s <= dailyLimit s.
Proof.
  exact (configuration_stays_valid _ _ _ _ _ _ _ _ _ Scenario.gentle_trace
           scenario_world0_deployed).
Defined.

(** X2: every entry point with the owner modifier, called by anyone but
    the owner, fails with the unauthorized-account error before any other
    test, whatever its arguments and the state, and changes nothing. *)
Theorem only_owner_administers e c w :
  owner_only c = true -> msg_sender e <> owner (storage w) ->
  call e c w = (Some (CustomError "OwnableUnauthorizedAccount"), w).
Proof.
  intros Hc Hne.
  destruct c; try discriminate Hc;
    unfold call, transact, dispatch, batchDistribute, withdrawTokens, configureFaucet,
      pause, unpause, setBlacklisted, resetDailyLimit, emergencyWithdraw;
    open_world w; unfold_monad; simpl_world;
    rewrite (proj2 (Z.eqb_neq _ _)) by congruence; reflexivity.
Qed.

Lemma only_owner_administers_witness :
  call (Scenario.as_user Scenario.USER1 (Scenario.T0 + 10))
    (ConfigureFaucet 1 0 1000000 1000000) Scenario.world0
  = (Some (CustomError "OwnableUnauthorizedAccount"), Scenario.world0).
Proof.
  apply only_owner_administers; [reflexivity|].
  vm_compute. discriminate.
Defined.

(** While the controller is paused a request fails at the pause test. *)
Lemma requestTokens_paused e w :
  paused (storage w) = true -> reentrancy_entered (storage w) = false ->
  call e RequestTokens w = (Some (CustomError "EnforcedPause"), w).
Proof.
  unfold call, transact, dispatch, requestTokens.
  open_world w. unfold_monad. simpl_world. by intros -> ->.
Qed.

Lemma paused_idle_step e c w w' :
  paused (storage w) = true /\ reentrancy_entered (storage w) = false ->
  never_unpauses e c w = true -> call e c w = (None, w') ->
  paused (storage w') = true /\ reentrancy_entered (storage w') = false.
Proof.
  intros [Hp Hi] Hok Hc.
  pose proof (call_storage _ _ _ _ Hc) as [Hst _]. rewrite Hst.
  destruct c; cbn in *; done.
Qed.

(** X3: once the controller is paused, and as long as [unpause] is not
    called, every [requestTokens] call fails with the pause error and
    changes nothing, whoever calls, at whatever time, and whatever the
    other calls in between (batches, deposits, withdrawals,
    reconfigurations, resets, blacklisting) and the state of the ledgers. *)
Theorem paused_until_unpaused e w tr :
  paused (storage w) = true -> reentrancy_entered (storage w) = false ->
  trace_ok never_unpauses tr w = true ->
  paused (storage (run tr w)) = true /\
  call e RequestTokens (run tr w) = (Some (CustomError "EnforcedPause"), run tr w).
Proof.
  intros Hp Hi Hok.
  assert (H : paused (storage (run tr w)) = true /\
              reentrancy_entered (storage (run tr w)) = false).
  { apply (run_invariant
             (fun w => paused (storage w) = true /\ reentrancy_entered (storage w) = false)
             never_unpauses); try done.
    intros. eapply paused_idle_step; eauto. }
  destruct H as [Hp' Hi']. split; [done|]. by apply requestTokens_paused.
Qed.

Lemma paused_until_unpaused_witness :
  let w := step (Invoke (Scenario.as_owner (Scenario.T0 + 5)) PauseFaucet) Scenario.world0 in
  let tr := [Invoke (Scenario.as_owner (Scenario.T0 + 6))
               (BatchDistribute [Scenario.USER2] [70]);
             Invoke (Scenario.as_owner (Scenario.T0 + 7)) ResetDailyLimit;
             Invoke (Scenario.as_user Scenario.USER1 (Scenario.T0 + 8)) RequestTokens] in
  paused (storage (run tr w)) = true /\
  call (Scenario.as_user Scenario.USER1 (Scenario.T0 + 90000)) RequestTokens (run tr w)
    = (Some (CustomError "EnforcedPause"), run tr w).
Proof.
  cbv zeta. apply paused_until_unpaused; vm_compute; reflexivity.
Defined.

(** X4: called by the owner, [pause] sets the flag and records the caller
    when the controller is not paused and fails with the pause error when
    it is; [unpause] clears the flag and records the caller when the
    controller is paused and fails with the expected-pause error when it is
    not.  Neither writes anything else, so a pause followed by an unpause
    gives the storage back. *)
Theorem pause_and_unpause e w :
  let s := storage w in
  msg_sender e = owner s ->
  (paused s = false ->
   call e PauseFaucet w
     = (None, mkWorld (set_paused true s) (self w) (ledgers w)
                (events w ++ [Paused (msg_sender e)])) /\
   call e UnpauseFaucet w = (Some (CustomError "ExpectedPause"), w) /\
   forall e', msg_sender e' = owner s ->
     storage (snd (call e' UnpauseFaucet (snd (call e PauseFaucet w)))) = s) /\
  (paused s = true ->
   call e UnpauseFaucet w
     = (None, mkWorld (set_paused false s) (self w) (ledgers w)
                (events w ++ [Unpaused (msg_sender e)])) /\
   call e PauseFaucet w = (Some (CustomError "EnforcedPause"), w)).
Proof.
  cbv zeta. unfold call, transact, dispatch, pause, unpause.
  open_world w. unfold_monad. simpl_world. intros Hown. subst.
  split; intros ->; simpl_world; rewrite ?Z.eqb_refl; simpl_world; repeat split.
  intros e' ->. rewrite Z.eqb_refl. reflexivity.
Qed.

Lemma pause_and_unpause_witness :
  let e := Scenario.as_owner (Scenario.T0 + 5) in
  call e UnpauseFaucet Scenario.world0 = (Some (CustomError "ExpectedPause"), Scenario.world0) /\
  storage (snd (call e UnpauseFaucet (snd (call e PauseFaucet Scenario.world0))))
    = storage Scenario.world0.
Proof.
  cbv zeta.
  destruct (proj1 (pause_and_unpause (Scenario.as_owner (Scenario.T0 + 5)) Scenario.world0
                     eq_refl) eq_refl) as (_ & H2 & H3).
  split; [exact H2|]. apply H3. reflexivity.
Defined.

Lemma rdb_insert_eq (m : gmap Z bool) u b : rdb (<[u := b]> m) u = b.
Proof. unfold rdb. by rewrite lookup_insert_eq. Qed.

Lemma rdb_insert_ne (m : gmap Z bool) u v b : u <> v -> rdb (<[u := b]> m) v = rdb m v.
Proof. intros. unfold rdb. by rewrite lookup_insert_ne. Qed.

Lemma rd_insert_eq (m : gmap Z Z) u x : rd (<[u := x]> m) u = x.
Proof. unfold rd. by rewrite lookup_insert_eq. Qed.

Lemma rd_insert_ne (m : gmap Z Z) u v x : u <> v -> rd (<[u := x]> m) v = rd m v.
Proof. intros. unfold rd. by rewrite lookup_insert_ne. Qed.

(** X5: a blacklisted address cannot request: its call fails and changes
    nothing, at any time and whatever its cooldown, its lifetime total, the
    daily total and the balance; the error is the blacklist one as soon as
    the controller is not paused and the caller is the originator. *)
Theorem blacklisted_cannot_request e w :
  let s := storage w in
  rdb (blacklisted s) (msg_sender e) = true ->
  (exists err, call e RequestTokens w = (Some err, w)) /\
  (reentrancy_entered s = false -> paused s = false -> msg_sender e = tx_origin e ->
   call e RequestTokens w = (Some (Revert "TokenFaucet: user is blacklisted"), w)).
Proof.
  cbv zeta. intros Hbl. split.
  - destruct (call_cases e RequestTokens w) as [[w' Hc]|Hf]; [|done].
    apply requestTokens_inv in Hc as (_&_&_&Hn&_). congruence.
  - revert Hbl. unfold call, transact, dispatch, requestTokens, _validateRequest.
    open_world w. unfold_monad. simpl_world. intros Hbl -> -> Ho. simpl_world.
    rewrite (proj2 (Z.eqb_eq _ _) Ho). simpl_world. rewrite Hbl. reflexivity.
Qed.

Lemma blacklisted_cannot_request_witness :
  let w := step (Invoke (Scenario.as_owner (Scenario.T0 + 5))
                   (SetBlacklisted Scenario.USER1 true)) Scenario.world0 in
  call (Scenario.as_user Scenario.USER1 (Scenario.T0 + 10)) RequestTokens w
    = (Some (Revert "TokenFaucet: user is blacklisted"), w).
Proof.
  cbv zeta. apply blacklisted_cannot_request; reflexivity.
Defined.

(** X6: called by the owner, [setBlacklisted(u, b)] fails with the
    invalid-address error for the zero address and otherwise sets the flag
    of [u] to [b], records it, and leaves every other flag, every user's
    last request time and lifetime total, the configuration, the counters
    and the ledgers as they were. *)
Theorem setBlacklisted_sets_one_flag e w u b :
  let s := storage w in
  msg_sender e = owner s ->
  (u = 0 ->
   call e (SetBlacklisted u b) w = (Some (Revert "TokenFaucet: invalid address"), w)) /\
  (u <> 0 ->
   exists w',
     call e (SetBlacklisted u b) w = (None, w') /\
     rdb (blacklisted (storage w')) u = b /\
     (forall v, v <> u -> rdb (blacklisted (storage w')) v = rdb (blacklisted s) v) /\
     storage w' = set_blacklisted (blacklisted (storage w')) s /\
     ledgers w' = ledgers w /\
     events w' = events w ++ [UserBlacklisted u b]).
Proof.
  cbv zeta. unfold call, transact, dispatch, setBlacklisted.
  open_world w. unfold_monad. simpl_world. intros Hown. subst. rewrite Z.eqb_refl.
  split.
  - intros ->. reflexivity.
  - intros Hu. rewrite (proj2 (Z.eqb_neq _ _) Hu). simpl_world.
    eexists. split; [reflexivity|]. simpl_world.
    split; [apply rdb_insert_eq|]. split; [|done].
    intros v Hv. by apply rdb_insert_ne.
Qed.

Lemma setBlacklisted_sets_one_flag_witness :
  exists w',
    call (Scenario.as_owner (Scenario.T0 + 5)) (SetBlacklisted Scenario.USER1 true)
      Scenario.world0 = (None, w') /\
    rdb (blacklisted (storage w')) Scenario.USER1 = true /\
    rdb (blacklisted (storage w')) Scenario.USER2 = false.
Proof.
  destruct (proj2 (setBlacklisted_sets_one_flag (Scenario.as_owner (Scenario.T0 + 5))
                     Scenario.world0 Scenario.USER1 true eq_refl))
    as (w' & Hc & Hu & Hv & _).
  { vm_compute. discriminate. }
  exists w'. split; [exact Hc|]. split; [exact Hu|].
  rewrite (Hv Scenario.USER2); [reflexivity|]. vm_compute. discriminate.
Defined.

(** X7: the records of a user are written by that user's own requests
    and by nothing else.  Whatever the call and whether it succeeds,
    [lastRequestTime[u]] and [totalTokensReceived[u]] keep their values
    unless the call is a [requestTokens] by [u], and the blacklist flag of
    [u] keeps its value unless the call is a [setBlacklisted] of [u]. *)
Theorem user_records_isolated u e c w :
  let s := storage w in
  let s' := storage (snd (call e c w)) in
  (requests_as u e c = false ->
   rd (lastRequestTime s') u = rd (lastRequestTime s) u /\
   rd (totalTokensReceived s') u = rd (totalTokensReceived s) u) /\
  (blacklists u c = false ->
   rdb (blacklisted s') u = rdb (blacklisted s) u).
Proof.
  cbv zeta.
  destruct (call_cases e c w) as [[w' Hc]|[err Hc]]; rewrite Hc; cbn [snd]; [|done].
  pose proof (call_storage _ _ _ _ Hc) as [Hst _]. rewrite Hst. clear Hc Hst.
  destruct c; cbn; try done.
  - split; [|done]. intros Hne. apply Z.eqb_neq in Hne.
    by rewrite !rd_insert_ne.
  - split; [done|]. intros Hne. apply Z.eqb_neq in Hne.
    by rewrite rdb_insert_ne.
Qed.

Lemma user_records_isolated_witness :
  let w := snd (call (Scenario.as_user Scenario.USER1 (Scenario.T0 + 10)) RequestTokens
                  Scenario.world0) in
  let w' := snd (call (Scenario.as_user Scenario.USER2 (Scenario.T0 + 20)) RequestTokens w) in
  rd (totalTokensReceived (storage w')) Scenario.USER2 = 10 /\
  rd (lastRequestTime (storage w')) Scenario.USER1 = rd (lastRequestTime (storage w)) Scenario.USER1 /\
  rd (totalTokensReceived (storage w')) Scenario.USER1
    = rd (totalTokensReceived (storage w)) Scenario.USER1.
Proof.
  cbv zeta. split; [vm_compute; reflexivity|].
  apply (proj1 (user_records_isolated Scenario.USER1
                  (Scenario.as_user Scenario.USER2 (Scenario.T0 + 20)) RequestTokens _)).
  reflexivity.
Defined.

Lemma run_app tr1 tr2 w : run (tr1 ++ tr2) w = run tr2 (run tr1 w).
Proof. unfold run. apply foldl_app. Qed.

Lemma received_grows_step a base e c w w' :
  valid_config (storage w) /\ base <= rd (totalTokensReceived (storage w)) a ->
  call e c w = (None, w') ->
  valid_config (storage w') /\ base <= rd (totalTokensReceived (storage w')) a.
Proof.
  intros [Hv Hb] Hc. split; [by eapply valid_config_step|].
  pose proof (call_storage _ _ _ _ Hc) as [Hst _]. rewrite Hst.
  destruct c; cbn; try done.
  destruct (decide (msg_sender e = a)) as [<-|Hne].
  - rewrite rd_insert_eq. destruct Hv. lia.
  - by rewrite rd_insert_ne.
Qed.

(** X8: lifetime totals never decrease: in a history that starts with a
    deployment, whatever is called afterwards (reconfigurations and daily
    resets included), [totalTokensReceived[a]] is at least what it was at
    any earlier point. *)
Theorem lifetime_totals_never_decrease a e addr l tk t cd m d w0 tr1 tr2 :
  deploy e addr l tk t cd m d = inr w0 ->
  rd (totalTokensReceived (storage (run tr1 w0))) a
    <= rd (totalTokensReceived (storage (run (tr1 ++ tr2) w0))) a.
Proof.
  intros Hd. rewrite run_app.
  pose proof (valid_config_run _ _ _ _ _ _ _ _ _ tr1 Hd) as Hv.
  set (w1 := run tr1 w0) in *.
  apply (run_invariant
           (fun w => valid_config (storage w) /\
                     rd (totalTokensReceived (storage w1)) a
                       <= rd (totalTokensReceived (storage w)) a)
           any_call); try done.
  - intros. eapply received_grows_step; eauto.
  - apply trace_ok_any.
Qed.

Lemma lifetime_totals_never_decrease_witness :
  rd (totalTokensReceived (storage (run (take 2 Scenario.gentle_trace) Scenario.world0)))
    Scenario.USER1
  <= rd (totalTokensReceived
           (storage (run (take 2 Scenario.gentle_trace ++ drop 2 Scenario.gentle_trace)
                       Scenario.world0))) Scenario.USER1.
Proof.
  exact (lifetime_totals_never_decrease Scenario.USER1 _ _ _ _ _ _ _ _ _
           (take 2 Scenario.gentle_trace) (drop 2 Scenario.gentle_trace)
           scenario_world0_deployed).
Defined.

(** X9: called by the owner, [resetDailyLimit] always succeeds, however
    recent the last reset: it zeroes [totalDistributedToday], sets
    [lastResetTime] to the time of the call and records that time with the
    total it erased.  The next successful request, whenever it comes,
    leaves the daily total at exactly one payout, and if it comes less than
    24h after the manual reset the epoch still starts at that reset. *)
Theorem manual_reset_starts_epoch e w :
  let s := storage w in
  let now := block_timestamp e in
  let w1 := mkWorld (set_lastResetTime now (set_totalDistributedToday 0 s))
              (self w) (ledgers w)
              (events w ++ [DailyLimitReset now (totalDistributedToday s)]) in
  msg_sender e = owner s ->
  call e ResetDailyLimit w = (None, w1) /\
  forall e2 w2,
    call e2 RequestTokens w1 = (None, w2) ->
    totalDistributedToday (storage w2) = tokensPerRequest s /\
    (block_timestamp e2 < now + ONE_DAY -> lastResetTime (storage w2) = now).
Proof.
  cbv zeta. intros Hown. split.
  - revert Hown. unfold call, transact, dispatch, resetDailyLimit, _resetDailyLimit.
    open_world w. unfold_monad. simpl_world. intros ->. by rewrite Z.eqb_refl.
  - intros e2 w2 Hc.
    apply requestTokens_inv in Hc as (_&_&_&_&_&_&_&Hst&_). rewrite Hst.
    unfold requested, daily_base, reset_due. destruct w as [s ? ? ?]; destruct s; cbn.
    split.
    + by destruct (_ >=? _).
    + intros Hlt. rewrite Z.geb_leb, (proj2 (Z.leb_gt _ _)) by lia. done.
Qed.

Lemma manual_reset_starts_epoch_witness :
  let e := Scenario.as_owner (Scenario.T0 + 100) in
  let w1 := snd (call e ResetDailyLimit Scenario.capped_world) in
  let w2 := snd (call (Scenario.as_user Scenario.USER2 (Scenario.T0 + 200)) RequestTokens w1) in
  totalDistributedToday (storage Scenario.capped_world) = 1000 /\
  totalDistributedToday (storage w1) = 0 /\
  totalDistributedToday (storage w2) = 1000 /\
  lastResetTime (storage w2) = Scenario.T0 + 100.
Proof.
  cbv zeta.
  destruct (manual_reset_starts_epoch (Scenario.as_owner (Scenario.T0 + 100))
              Scenario.capped_world eq_refl) as [Hr Hn].
  rewrite Hr. cbn [snd]. split; [reflexivity|]. split; [reflexivity|].
  match goal with
  | |- context [call ?e2 RequestTokens ?w1] =>
      assert (Hc : call e2 RequestTokens w1 = (None, snd (call e2 RequestTokens w1)))
        by (vm_compute; reflexivity);
      destruct (Hn _ _ Hc) as [Ht Hl]
  end.
  split; [exact Ht|]. apply Hl. vm_compute. reflexivity.
Defined.

(** An accepted transfer is a move. *)
Lemma erc20_transfer_inv from to value t t' :
  erc20_transfer from to value t = inr t' ->
  t' = moved from to value t /\ token_paused t = false /\
  from <> 0 /\ to <> 0 /\ value <= balanceOf t from.
Proof.
  unfold erc20_transfer, erc20_update, moved. intros H.
  repeat case_if_in H. inversion H; subst; clear H. tests_to_Z. repeat split; done || lia.
Qed.

(** X10: anyone may deposit, paused controller or not.  [depositTokens]
    fails with the amount error for a zero amount and with the ledger's
    allowance error when the caller has authorized less than [amount].
    With an authorization and a balance that cover it, on a ledger that is
    not paused and with neither the caller nor the controller the zero
    address, it moves [amount] from the caller to the controller on the
    controller's token, uses up that much of the authorization, records
    the deposit and leaves the controller's storage as it was.  On a
    paused ledger an authorized deposit fails with the ledger's pause
    error. *)
Theorem depositTokens_effect e w t amount :
  let s := storage w in
  let u := msg_sender e in
  reentrancy_entered s = false -> ledgers w !! token s = Some t ->
  (amount = 0 ->
   call e (DepositTokens amount) w = (Some (Revert "TokenFaucet: amount must be > 0"), w)) /\
  (0 < amount <= MAX_UINT256 -> rd (allowances t) (u, self w) < amount ->
   call e (DepositTokens amount) w = (Some (CustomError "ERC20InsufficientAllowance"), w)) /\
  (0 < amount -> amount <= rd (allowances t) (u, self w) ->
   amount <= balanceOf t u -> token_paused t = false -> u <> 0 -> self w <> 0 ->
   call e (DepositTokens amount) w
     = (None, mkWorld s (self w)
                (<[token s := moved u (self w) amount (spent u (self w) amount t)]> (ledgers w))
                (events w ++ [TokensDeposited u amount]))) /\
  (0 < amount -> amount <= rd (allowances t) (u, self w) ->
   token_paused t = true -> u <> 0 -> self w <> 0 ->
   call e (DepositTokens amount) w = (Some (CustomError "EnforcedPause"), w)).
Proof.
  cbv zeta. intros Hidle Htk. split; [|split; [|split]].
  - intros ->. revert Hidle. unfold call, transact, dispatch, depositTokens.
    open_world w. unfold_monad. simpl_world. by intros ->.
  - intros Hpos Hshort.
    assert (Htr : erc20_transferFrom (self w) (msg_sender e) (self w) amount t
                  = inl (CustomError "ERC20InsufficientAllowance")).
    { unfold erc20_transferFrom. cbv zeta.
      rewrite (proj2 (Z.eqb_neq _ _)) by lia. by rewrite (proj2 (Z.ltb_lt _ _)). }
    revert Hidle Htk Htr. unfold call, transact, dispatch, depositTokens.
    open_world w. unfold_monad. simpl_world. intros -> Htk Htr. simpl_world.
    rewrite Z.gtb_ltb, (proj2 (Z.ltb_lt _ _)) by lia. simpl_world.
    rewrite Htk. simpl_world. by rewrite Htr.
  - intros Hpos Hall Hbal Hp Hu Hself.
    assert (Htr : erc20_transferFrom (self w) (msg_sender e) (self w) amount t
                  = inr (moved (msg_sender e) (self w) amount
                           (spent (msg_sender e) (self w) amount t))).
    { unfold erc20_transferFrom, spent. cbv zeta.
      destruct (_ =? MAX_UINT256).
      - by apply erc20_transfer_accepts.
      - rewrite (proj2 (Z.ltb_ge _ _)) by lia. by apply erc20_transfer_accepts. }
    revert Hidle Htk Htr. unfold call, transact, dispatch, depositTokens.
    open_world w. unfold_monad. simpl_world. intros -> Htk Htr. simpl_world.
    rewrite Z.gtb_ltb, (proj2 (Z.ltb_lt _ _)) by lia. simpl_world.
    rewrite Htk. simpl_world. by rewrite Htr.
  - intros Hpos Hall Hp Hu Hself.
    assert (Htr : erc20_transferFrom (self w) (msg_sender e) (self w) amount t
                  = inl (CustomError "EnforcedPause")).
    { unfold erc20_transferFrom, erc20_transfer, erc20_update. cbv zeta.
      rewrite !(proj2 (Z.eqb_neq _ 0)) by done.
      destruct (_ =? MAX_UINT256).
      - by rewrite Hp.
      - rewrite (proj2 (Z.ltb_ge _ _)) by lia. cbn [token_paused]. by rewrite Hp. }
    revert Hidle Htk Htr. unfold call, transact, dispatch, depositTokens.
    open_world w. unfold_monad. simpl_world. intros -> Htk Htr. simpl_world.
    rewrite Z.gtb_ltb, (proj2 (Z.ltb_lt _ _)) by lia. simpl_world.
    rewrite Htk. simpl_world. by rewrite Htr.
Qed.

Lemma depositTokens_effect_witness :
  let e := Scenario.as_user Scenario.USER1 (Scenario.T0 + 10) in
  let paid := moved Scenario.USER1 Scenario.FAUCET 100
                (spent Scenario.USER1 Scenario.FAUCET 100 Funded.ledger) in
  paused (storage Funded.world) = true /\
  call e (DepositTokens 100) Funded.world
    = (None, mkWorld (storage Funded.world) Scenario.FAUCET
               (<[Scenario.TOKEN := paid]> (ledgers Funded.world))
               [TokensDeposited Scenario.USER1 100]) /\
  balanceOf paid Scenario.FAUCET = 5100 /\ balanceOf paid Scenario.USER1 = 200 /\
  rd (allowances paid) (Scenario.USER1, Scenario.FAUCET) = 0 /\
  call e (DepositTokens 101) Funded.world
    = (Some (CustomError "ERC20InsufficientAllowance"), Funded.world) /\
  call e (DepositTokens 100) Funded.frozen
    = (Some (CustomError "EnforcedPause"), Funded.frozen).
Proof.
  cbv zeta. split; [reflexivity|].
  pose proof (depositTokens_effect (Scenario.as_user Scenario.USER1 (Scenario.T0 + 10))
                Funded.world Funded.ledger) as H.
  split; [|split; [reflexivity|split; [reflexivity|split; [reflexivity|split]]]].
  - refine (proj1 (proj2 (proj2 (H 100 _ _))) _ _ _ _ _ _); by_evaluation.
  - refine (proj1 (proj2 (H 101 _ _)) _ _); by_evaluation.
  - refine (proj2 (proj2 (proj2
             (depositTokens_effect (Scenario.as_user Scenario.USER1 (Scenario.T0 + 10))
                Funded.frozen
                (mkToken (balances Funded.ledger) (allowances Funded.ledger) true)
                100 _ _))) _ _ _ _ _); by_evaluation.
Defined.

(** X11: a successful request pays exactly one payout out of the
    controller's balance on its own token: the ledger moves
    [tokensPerRequest] from the controller to the caller, no other ledger
    changes, and [getFaucetBalance] answers one payout less than before. *)
Theorem request_pays_one_payout e w w' :
  call e RequestTokens w = (None, w') ->
  let s := storage w in
  let u := msg_sender e in
  exists t,
    ledgers w !! token s = Some t /\
    ledgers w' = <[token s := moved (self w) u (tokensPerRequest s) t]> (ledgers w) /\
    view getFaucetBalance w = inr (balanceOf t (self w)) /\
    (u <> self w ->
     view getFaucetBalance w' = inr (balanceOf t (self w) - tokensPerRequest s)).
Proof.
  intros Hc. cbv zeta.
  apply requestTokens_inv in Hc as (_&_&_&_&_&_&_&Hst&Hself&_&(t&t'&Htk&_&Htr&Hl)).
  apply erc20_transfer_inv in Htr as (-> & _).
  exists t. split; [done|]. split; [done|]. split.
  - unfold view, getFaucetBalance. unfold_monad. by rewrite Htk.
  - intros Hne. unfold view, getFaucetBalance. unfold_monad.
    rewrite Hst, Hself, Hl. cbn [token requested]. rewrite lookup_insert_eq.
    by rewrite (proj1 (moved_balances _ _ _ _ (not_eq_sym Hne))).
Qed.

Lemma request_pays_one_payout_witness :
  let e := Scenario.as_user Scenario.USER1 (Scenario.T0 + 10) in
  let w' := snd (call e RequestTokens Scenario.world0) in
  view getFaucetBalance Scenario.world0 = inr 5000 /\
  view getFaucetBalance w' = inr 4990.
Proof.
  cbv zeta.
  assert (Hc : call (Scenario.as_user Scenario.USER1 (Scenario.T0 + 10)) RequestTokens
                 Scenario.world0
               = (None, snd (call (Scenario.as_user Scenario.USER1 (Scenario.T0 + 10))
                               RequestTokens Scenario.world0)))
    by (vm_compute; reflexivity).
  destruct (request_pays_one_payout _ _ _ Hc) as (t & Htk & _ & H0 & H1).
  assert (Htk0 : ledgers Scenario.world0 !! token (storage Scenario.world0)
                 = Some Scenario.ledger0) by reflexivity.
  rewrite Htk0 in Htk. injection Htk as <-.
  split; [exact H0|]. apply H1. vm_compute. discriminate.
Defined.

Lemma distribute_entry_inv e r a w w' :
  distribute_entry e r a w = Done tt w' ->
  exists t,
    ledgers w !! token (storage w) = Some t /\ r <> 0 /\ 0 < a /\
    w' = with_events (events w ++ [TokensRequested r a (block_timestamp e)])
           (with_ledgers (<[token (storage w) := moved (self w) r a t]> (ledgers w)) w).
Proof.
  unfold distribute_entry. destruct w as [s slf l ev]. unfold_monad. simpl_world. intros H.
  repeat case_if_in H. tests_to_Z.
  match goal with Ht : erc20_transfer _ _ _ _ = inr _ |- _ =>
    apply erc20_transfer_inv in Ht as (-> & _) end.
  inversion H; subst; clear H. eauto 10.
Qed.

Lemma distribute_list_inv e ps w w' t :
  distribute_list e ps w = Done tt w' ->
  ledgers w !! token (storage w) = Some t ->
  events w' = events w ++ ((fun p => TokensRequested p.1 p.2 (block_timestamp e)) <$> ps) /\
  ledgers w' = <[token (storage w) := batch_paid (self w) ps t]> (ledgers w) /\
  Forall (fun p => p.1 <> 0 /\ 0 < p.2) ps.
Proof.
  revert w t. induction ps as [|[r a] ps IH]; intros w t; cbn.
  - unfold ret. intros [= <-] Htk. rewrite app_nil_r, insert_id by done. done.
  - unfold bind. destruct (distribute_entry e r a w) as [[] w1|] eqn:H1; [|done].
    intros Hl Htk.
    apply distribute_entry_inv in H1 as (t0 & Htk0 & Hr & Ha & ->).
    assert (t0 = t) as -> by congruence. clear Htk0.
    destruct w as [s slf l ev]. simpl_world.
    apply (IH _ (moved slf r a t)) in Hl as (Hev & Hld & Hall); simpl_world.
    + rewrite Hev, Hld, <- app_assoc, insert_insert_eq. repeat split; try done.
      by constructor.
    + by rewrite lookup_insert_eq.
Qed.

Lemma batch_paid_balance from ps t :
  Forall (fun p => p.1 <> from) ps ->
  balanceOf (batch_paid from ps t) from = balanceOf t from - sum_Z ps.*2.
Proof.
  intros Hall. revert t. induction Hall as [|[r a] ps Hr Hall IH]; intros t; cbn in *.
  - lia.
  - rewrite IH, (proj1 (moved_balances from r a t (not_eq_sym Hr))). lia.
Qed.

Lemma fmap_zip_pairs {A} (f : Z -> Z -> A) (rs amts : list Z) :
  (fun p => f p.1 p.2) <$> zip rs amts = zip_with f rs amts.
Proof.
  revert amts. induction rs as [|r rs IH]; intros [|a amts]; cbn; try done.
  by rewrite <- IH.
Qed.

(** Everything a successful batch implies. *)
Lemma batchDistribute_inv_full e rs amts w w' :
  call e (BatchDistribute rs amts) w = (None, w') ->
  length rs = length amts /\
  exists t w1,
    ledgers w !! token (storage w) = Some t /\
    sum_Z amts <= balanceOf t (self w) /\
    distribute_list e (zip rs amts)
      (with_storage (set_reentrancy_entered true (storage w)) w) = Done tt w1 /\
    w' = with_storage (set_reentrancy_entered false (storage w1)) w1.
Proof.
  unfold call, transact, dispatch, batchDistribute.
  destruct w as [s slf l ev]. destruct s. unfold_monad. simpl_world. intros H.
  repeat case_if_in H.
  match type of H with
  | context [sum_amounts ?a ?b ?w0] =>
      destruct (sum_amounts a b w0) as [v w1|] eqn:Hs; [|discriminate H]
  end.
  apply sum_amounts_Done in Hs as [-> ->]. simpl_world.
  repeat case_if_in H.
  match type of H with
  | context [distribute_loop ?e ?a ?b ?n ?i ?w0] =>
      destruct (distribute_loop e a b n i w0) as [[] w1|] eqn:Hl; [|discriminate H]
  end.
  assert (Hlen : length rs = length amts) by (by apply Nat.eqb_eq).
  rewrite distribute_loop_list in Hl by done. rewrite drop_0 in Hl.
  inversion H; subst; clear H. tests_to_Z.
  split; [done|]. eexists _, _. repeat split; eauto; lia.
Qed.

(** X12: a successful batch emits one distribution record per entry, in
    the order of the arrays and all with the time of the call, and pays
    the entries one after the other out of the controller's balance on its
    token; when the controller is not among the recipients its balance
    goes down by exactly the sum of the amounts. *)
Theorem batch_pays_and_records e rs amts w w' :
  call e (BatchDistribute rs amts) w = (None, w') ->
  let s := storage w in
  length rs = length amts /\
  events w' = events w ++ batch_records e rs amts /\
  exists t,
    ledgers w !! token s = Some t /\
    sum_Z amts <= balanceOf t (self w) /\
    ledgers w' = <[token s := batch_paid (self w) (zip rs amts) t]> (ledgers w) /\
    (self w ∉ rs ->
     balanceOf (batch_paid (self w) (zip rs amts) t) (self w)
       = balanceOf t (self w) - sum_Z amts).
Proof.
  intros Hc. cbv zeta.
  apply batchDistribute_inv_full in Hc as (Hlen & t & w1 & Htk & Hbal & Hl & ->).
  apply (distribute_list_inv _ _ _ _ t) in Hl as (Hev & Hld & _); [|done].
  destruct w as [s slf l ev]; simpl_world.
  split; [done|]. split.
  - rewrite Hev. unfold batch_records.
    by rewrite <- (fmap_zip_pairs (fun r a => TokensRequested r a (block_timestamp e))).
  - exists t. repeat split; try done.
    intros Hnot. rewrite batch_paid_balance.
    + rewrite snd_zip by lia. done.
    + apply Forall_forall. intros [r a] Hin Heq. cbn in Heq. subst r.
      apply Hnot. by apply elem_of_zip_l in Hin.
Qed.

Lemma batch_pays_and_records_witness :
  let e := Scenario.as_owner (Scenario.T0 + 10) in
  let rs := [Scenario.USER1; Scenario.USER2; Scenario.USER1] in
  let w' := snd (call e (BatchDistribute rs [50; 75; 25]) Scenario.world0) in
  events w' = events Scenario.world0 ++
    [TokensRequested Scenario.USER1 50 (Scenario.T0 + 10);
     TokensRequested Scenario.USER2 75 (Scenario.T0 + 10);
     TokensRequested Scenario.USER1 25 (Scenario.T0 + 10)] /\
  view getFaucetBalance w' = inr 4850.
Proof.
  cbv zeta.
  assert (Hc : call (Scenario.as_owner (Scenario.T0 + 10))
                 (BatchDistribute [Scenario.USER1; Scenario.USER2; Scenario.USER1] [50; 75; 25])
                 Scenario.world0
               = (None, snd (call (Scenario.as_owner (Scenario.T0 + 10))
                   (BatchDistribute [Scenario.USER1; Scenario.USER2; Scenario.USER1]
                      [50; 75; 25]) Scenario.world0)))
    by (vm_compute; reflexivity).
  destruct (batch_pays_and_records _ _ _ _ _ Hc) as (_ & Hev & _).
  split; [exact Hev|]. vm_compute. reflexivity.
Defined.

(** X13: the tests a batch makes before its loop, in their order: arrays
    of different lengths, then empty arrays, then a balance below the sum
    of the amounts.  The last one refuses the whole batch up front, also
    when the balance would cover its first entries: no transfer has been
    made when the call fails. *)
Theorem batch_rejected_up_front e rs amts w :
  let s := storage w in
  msg_sender e = owner s -> reentrancy_entered s = false ->
  (length rs <> length amts ->
   call e (BatchDistribute rs amts) w
     = (Some (Revert "TokenFaucet: arrays length mismatch"), w)) /\
  (rs = [] -> amts = [] ->
   call e (BatchDistribute rs amts) w = (Some (Revert "TokenFaucet: empty arrays"), w)) /\
  (forall t,
   length rs = length amts -> rs <> [] ->
   Forall (fun a => 0 <= a) amts -> sum_Z amts <= MAX_UINT256 ->
   ledgers w !! token s = Some t -> balanceOf t (self w) < sum_Z amts ->
   call e (BatchDistribute rs amts) w
     = (Some (Revert "TokenFaucet: insufficient faucet balance"), w) /\
   exists dirty,
     dispatch e (BatchDistribute rs amts) w
       = Failed (Revert "TokenFaucet: insufficient faucet balance") dirty /\
     ledgers dirty = ledgers w /\ events dirty = events w).
Proof.
  cbv zeta. intros Hown Hidle. split; [|split].
  - intros Hne. apply Nat.eqb_neq in Hne.
    revert Hown Hidle. unfold call, transact, dispatch, batchDistribute.
    destruct w as [s slf l ev]; destruct s. unfold_monad. simpl_world.
    intros -> ->. rewrite Z.eqb_refl, Hne. reflexivity.
  - intros -> ->.
    revert Hown Hidle. unfold call, transact, dispatch, batchDistribute.
    destruct w as [s slf l ev]; destruct s. unfold_monad. simpl_world.
    intros -> ->. rewrite Z.eqb_refl. reflexivity.
  - intros t Hlen Hne Hpos Hfit Htk Hshort.
    assert (Hn : negb (length rs =? 0)%nat = true) by (by destruct rs).
    assert (He : (length rs =? length amts)%nat = true) by (by apply Nat.eqb_eq).
    assert (Hd : exists dirty,
               dispatch e (BatchDistribute rs amts) w
                 = Failed (Revert "TokenFaucet: insufficient faucet balance") dirty /\
               ledgers dirty = ledgers w /\ events dirty = events w).
    { revert Hown Hidle Htk Hshort. unfold dispatch, batchDistribute.
      destruct w as [s slf l ev]; destruct s. unfold_monad. simpl_world.
      intros -> -> Htk Hshort. rewrite Z.eqb_refl, He, Hn. simpl_world.
      rewrite sum_amounts_ok by (done || lia). simpl_world.
      rewrite Htk. simpl_world.
      rewrite (Z.geb_leb _ (0 + sum_Z amts)), (proj2 (Z.leb_gt _ _)) by lia.
      eexists. split; [reflexivity|]. done. }
    split; [|done]. destruct Hd as (dirty & Hd & _).
    unfold call, transact. by rewrite Hd.
Qed.

Lemma batch_rejected_up_front_witness :
  let e := Scenario.as_owner (Scenario.T0 + 10) in
  call e (BatchDistribute [Scenario.USER1] [50; 75]) Scenario.world0
    = (Some (Revert "TokenFaucet: arrays length mismatch"), Scenario.world0) /\
  call e (BatchDistribute [] []) Scenario.world0
    = (Some (Revert "TokenFaucet: empty arrays"), Scenario.world0) /\
  call e (BatchDistribute [Scenario.USER1; Scenario.USER2] [4000; 1001]) Scenario.world0
    = (Some (Revert "TokenFaucet: insufficient faucet balance"), Scenario.world0).
Proof.
  cbv zeta.
  pose proof (fun rs amts =>
    batch_rejected_up_front (Scenario.as_owner (Scenario.T0 + 10)) rs amts Scenario.world0
      eq_refl eq_refl) as H.
  split; [|split].
  - apply (proj1 (H _ _)). cbn. discriminate.
  - by apply (proj1 (proj2 (H _ _))).
  - refine (proj1 (proj2 (proj2 (H _ _)) Scenario.ledger0 _ _ _ _ _ _)); try by_evaluation.
    repeat constructor; discriminate.
Defined.

(** X14: [getUserInfo] reads and never writes: it returns the world it was
    called in.  Its first two fields are the user's lifetime total and
    last request time, its last field is the time left until
    [lastRequestTime + cooldownTime], zero once that time has come, and it
    is zero whenever the eligibility field is true; [canUserRequest]
    returns that same eligibility field. *)
Theorem getUserInfo_report e u w received last can wait w' :
  getUserInfo e u w = Done (received, last, can, wait) w' ->
  let s := storage w in
  w' = w /\
  received = rd (totalTokensReceived s) u /\
  last = rd (lastRequestTime s) u /\
  wait = Z.max 0 (last + cooldownTime s - block_timestamp e) /\
  (can = true -> wait = 0) /\
  canUserRequest e u w = Done can w.
Proof.
  unfold canUserRequest, getUserInfo, _canUserRequest.
  open_world w. unfold_monad. simpl_world. intros H.
  repeat case_if_in H.
  all: inversion H; subst; clear H; tests_to_Z.
  all: repeat split; try done; try lia.
Qed.

Lemma getUserInfo_report_witness :
  let w := snd (call (Scenario.as_user Scenario.USER1 (Scenario.T0 + 10)) RequestTokens
                  Scenario.world0) in
  getUserInfo (Scenario.as_user Scenario.USER2 (Scenario.T0 + 110)) Scenario.USER1 w
    = Done (10, Scenario.T0 + 10, false, 3500) w /\
  3500 = Z.max 0 (Scenario.T0 + 10 + cooldownTime (storage w) - (Scenario.T0 + 110)).
Proof.
  cbv zeta.
  assert (H : getUserInfo (Scenario.as_user Scenario.USER2 (Scenario.T0 + 110)) Scenario.USER1
                (snd (call (Scenario.as_user Scenario.USER1 (Scenario.T0 + 10)) RequestTokens
                        Scenario.world0))
              = Done (10, Scenario.T0 + 10, false, 3500)
                  (snd (call (Scenario.as_user Scenario.USER1 (Scenario.T0 + 10)) RequestTokens
                          Scenario.world0)))
    by (vm_compute; reflexivity).
  split; [exact H|].
  exact (proj1 (proj2 (proj2 (proj2 (getUserInfo_report _ _ _ _ _ _ _ _ H))))).
Defined.

(** X15: [getFaucetConfig] never fails and never writes, and right after a
    successful [configureFaucet] it reports the four values just set,
    beside the daily total and the pause flag of before the call. *)
Theorem getFaucetConfig_after_configure e t cd m d w w' :
  call e (ConfigureFaucet t cd m d) w = (None, w') ->
  getFaucetConfig w'
    = Done (t, cd, m, d, totalDistributedToday (storage w), paused (storage w)) w'.
Proof.
  intros Hc. pose proof (call_storage _ _ _ _ Hc) as [Hst _].
  unfold getFaucetConfig. unfold_monad. rewrite Hst. reflexivity.
Qed.

Lemma getFaucetConfig_after_configure_witness :
  let w' := snd (call (Scenario.as_owner (Scenario.T0 + 50)) (ConfigureFaucet 10 60 20 30)
                   Scenario.capped_world) in
  getFaucetConfig w' = Done (10, 60, 20, 30, 1000, false) w'.
Proof.
  cbv zeta.
  apply (getFaucetConfig_after_configure (Scenario.as_owner (Scenario.T0 + 50))
           10 60 20 30 Scenario.capped_world).
  vm_compute. reflexivity.
Defined.

Lemma exhausted_step u cap0 pay0 base e c w w' :
  (maxTokensPerAddress (storage w) = cap0 /\ tokensPerRequest (storage w) = pay0 /\
   0 < pay0 /\ base <= rd (totalTokensReceived (storage w)) u) ->
  never_configures e c w = true -> call e c w = (None, w') ->
  maxTokensPerAddress (storage w') = cap0 /\ tokensPerRequest (storage w') = pay0 /\
  0 < pay0 /\ base <= rd (totalTokensReceived (storage w')) u.
Proof.
  intros (Hc0 & Hp0 & Hpos & Hb) Hok Hc.
  pose proof (call_storage _ _ _ _ Hc) as [Hst _]. rewrite Hst.
  destruct c; cbn in *; try done.
  repeat split; try done.
  destruct (decide (msg_sender e = u)) as [<-|Hne].
  - rewrite rd_insert_eq. lia.
  - by rewrite rd_insert_ne.
Qed.

(** X16: an address whose lifetime total leaves no room for one more
    payout under the per-address cap is refused from then on: as long as
    [configureFaucet] is not called, every request it makes fails and
    changes nothing, however long it waits (daily resets do not touch
    lifetime totals) and whatever is called in between; and a call that
    gets as far as the cap test fails with the cap error. *)
Theorem address_cap_exhausted u e w tr :
  let s := storage w in
  0 < tokensPerRequest s ->
  maxTokensPerAddress s < rd (totalTokensReceived s) u + tokensPerRequest s ->
  trace_ok never_configures tr w = true ->
  msg_sender e = u ->
  let w1 := run tr w in
  let s1 := storage w1 in
  (exists err, call e RequestTokens w1 = (Some err, w1)) /\
  (reentrancy_entered s1 = false -> paused s1 = false -> u = tx_origin e ->
   rdb (blacklisted s1) u = false ->
   rd (lastRequestTime s1) u + cooldownTime s1 <= block_timestamp e <= MAX_UINT256 ->
   rd (totalTokensReceived s1) u + tokensPerRequest s1 <= MAX_UINT256 ->
   call e RequestTokens w1
     = (Some (Revert "TokenFaucet: max tokens per address exceeded"), w1)).
Proof.
  cbv zeta. intros Hpos Hfull Hok Hu.
  assert (H : maxTokensPerAddress (storage (run tr w)) = maxTokensPerAddress (storage w) /\
              tokensPerRequest (storage (run tr w)) = tokensPerRequest (storage w) /\
              0 < tokensPerRequest (storage w) /\
              rd (totalTokensReceived (storage w)) u
                <= rd (totalTokensReceived (storage (run tr w))) u).
  { apply (run_invariant
             (fun w' => maxTokensPerAddress (storage w') = maxTokensPerAddress (storage w) /\
                        tokensPerRequest (storage w') = tokensPerRequest (storage w) /\
                        0 < tokensPerRequest (storage w) /\
                        rd (totalTokensReceived (storage w)) u
                          <= rd (totalTokensReceived (storage w')) u)
             never_configures); try done.
    intros. eapply exhausted_step; eauto. }
  destruct H as (Hc1 & Hp1 & _ & Hb1).
  set (w1 := run tr w) in *.
  assert (Hfull1 : maxTokensPerAddress (storage w1)
                   < rd (totalTokensReceived (storage w1)) u + tokensPerRequest (storage w1))
    by lia.
  clearbody w1. clear Hok Hfull Hc1 Hp1 Hb1 Hpos. subst u. split.
  - destruct (call_cases e RequestTokens w1) as [[w' Hc]|Hf]; [|done].
    apply requestTokens_inv in Hc as (_&_&_&_&_&Hcap&_). lia.
  - revert Hfull1. unfold call, transact, dispatch, requestTokens, _validateRequest.
    open_world w1. unfold_monad. simpl_world.
    intros Hfull -> -> Ho Hbl Hcd Hfit. simpl_world.
    repeat case_if_goal. all: reflexivity.
Qed.

Lemma address_cap_exhausted_witness :
  let u := Scenario.USER1 in
  let tr := [Invoke (Scenario.as_owner (Scenario.T0 + 200000)) ResetDailyLimit;
             Invoke (Scenario.as_user Scenario.USER2 (Scenario.T0 + 200010)) RequestTokens] in
  let w1 := run tr Scenario.capped_world in
  rd (totalTokensReceived (storage Scenario.capped_world)) u = 1000 /\
  call (Scenario.as_user u (Scenario.T0 + 900000)) RequestTokens w1
    = (Some (Revert "TokenFaucet: max tokens per address exceeded"), w1).
Proof.
  cbv zeta. split; [reflexivity|].
  refine (proj2 (address_cap_exhausted Scenario.USER1
                   (Scenario.as_user Scenario.USER1 (Scenario.T0 + 900000))
                   Scenario.capped_world _ _ _ _ _) _ _ _ _ _ _); by_evaluation.
Defined.

(** X17: the errors of the last two tests of the request path, for a call
    that passes checks 1 to 5.  When the daily total the call is tested on
    (zero if a reset is due) leaves no room for a payout, it fails with the
    daily-limit error; when it does but the controller's balance is below
    one payout, it fails with the insufficient-balance error.  Either way
    nothing is committed, a reset that was due included. *)
Theorem request_refused_at_the_end e w :
  let s := storage w in
  reentrancy_entered s = false -> checks_1_to_5 e s ->
  uint256 (block_timestamp e) -> uint256 (maxTokensPerAddress s) ->
  lastResetTime s + ONE_DAY <= MAX_UINT256 ->
  daily_base e s + tokensPerRequest s <= MAX_UINT256 ->
  (dailyLimit s < daily_base e s + tokensPerRequest s ->
   call e RequestTokens w = (Some (Revert "TokenFaucet: daily limit exceeded"), w)) /\
  (forall t,
   daily_base e s + tokensPerRequest s <= dailyLimit s ->
   ledgers w !! token s = Some t -> balanceOf t (self w) < tokensPerRequest s ->
   call e RequestTokens w = (Some (Revert "TokenFaucet: insufficient faucet balance"), w)).
Proof.
  cbv zeta. unfold checks_1_to_5, uint256, daily_base, reset_due.
  unfold call, transact, dispatch, requestTokens, _validateRequest,
    _resetDailyLimitIfNeeded, _resetDailyLimit.
  open_world w. unfold_monad. simpl_world.
  intros -> (-> & Ho & Hbl & Hcd & Hcap) Hnow Hmax Hday Hfit. simpl_world. split.
  - intros Hfull. repeat case_if_goal. all: reflexivity.
  - intros t Hroom Htk Hshort. repeat case_if_goal. all: reflexivity.
Qed.

Lemma request_refused_at_the_end_witness :
  let w := snd (call (Scenario.as_owner (Scenario.T0 + 20)) (WithdrawTokens 4991)
                  Scenario.world0) in
  call (Scenario.as_user Scenario.USER2 (Scenario.T0 + 30)) RequestTokens Scenario.capped_world
    = (Some (Revert "TokenFaucet: daily limit exceeded"), Scenario.capped_world) /\
  call (Scenario.as_user Scenario.USER2 (Scenario.T0 + 30)) RequestTokens w
    = (Some (Revert "TokenFaucet: insufficient faucet balance"), w).
Proof.
  cbv zeta. split.
  - refine (proj1 (request_refused_at_the_end
                     (Scenario.as_user Scenario.USER2 (Scenario.T0 + 30))
                     Scenario.capped_world _ _ _ _ _ _) _); by_evaluation.
  - refine (proj2 (request_refused_at_the_end
                     (Scenario.as_user Scenario.USER2 (Scenario.T0 + 30)) _ _ _ _ _ _ _)
              (moved Scenario.FAUCET Scenario.OWNER 4991 Scenario.ledger0) _ _ _);
      by_evaluation.
Defined.

Lemma sum_map_insert (m : gmap Z Z) k v :
  sum_map (<[k := v]> m) = sum_map m - rd m k + v.
Proof.
  unfold sum_map, rd.
  destruct (m !! k) as [old|] eqn:Hk; cbn.
  - rewrite (map_fold_delete_L _ _ k old m); [|intros; lia|done].
    rewrite <- (insert_delete_eq m).
    rewrite map_fold_insert_L; [lia|intros; lia|apply lookup_delete_eq].
  - rewrite map_fold_insert_L; [lia|intros; lia|done].
Qed.

Lemma accounting_step e c w w' :
  (valid_config (storage w) /\
   0 <= totalDistributedToday (storage w) <= sum_map (totalTokensReceived (storage w))) ->
  call e c w = (None, w') ->
  valid_config (storage w') /\
  0 <= totalDistributedToday (storage w') <= sum_map (totalTokensReceived (storage w')).
Proof.
  intros [Hv Hs] Hc. split; [by eapply valid_config_step|].
  pose proof (call_storage _ _ _ _ Hc) as [Hst _]. rewrite Hst.
  destruct Hv as (Hpos & _).
  destruct c; cbn; try done; try lia.
  rewrite sum_map_insert. unfold daily_base. destruct (reset_due e (storage w)); lia.
Qed.

(** X18: the daily counter is covered by the lifetime counters: in every
    world reached from a deployment, [totalDistributedToday] is at most the
    sum of [totalTokensReceived] over all addresses (and is not negative). *)
Theorem daily_total_within_lifetime_totals e addr l tk t cd m d w0 tr :
  deploy e addr l tk t cd m d = inr w0 ->
  let s := storage (run tr w0) in
  0 <= totalDistributedToday s <= sum_map (totalTokensReceived s).
Proof.
  intros Hd. cbv zeta.
  apply (run_invariant
           (fun w => valid_config (storage w) /\
                     0 <= totalDistributedToday (storage w)
                       <= sum_map (totalTokensReceived (storage w)))
           any_call).
  - done.
  - intros. eapply accounting_step; eauto.
  - apply deploy_inv in Hd as (Hst & ? & ? & ?). unfold valid_config. rewrite Hst. cbn.
    unfold sum_map. rewrite map_fold_empty. lia.
  - apply trace_ok_any.
Qed.

Lemma daily_total_within_lifetime_totals_witness :
  let s := storage (run Scenario.gentle_trace Scenario.world0) in
  0 <= totalDistributedToday s <= sum_map (totalTokensReceived s).
Proof.
  exact (daily_total_within_lifetime_totals _ _ _ _ _ _ _ _ _ Scenario.gentle_trace
           scenario_world0_deployed).
Defined.

(** ** A paused ledger *)

Lemma distribute_entry_unpaused e r a w w' :
  distribute_entry e r a w = Done tt w' ->
  exists t, ledgers w !! token (storage w) = Some t /\ token_paused t = false.
Proof.
  unfold distribute_entry. destruct w as [s slf l ev]. unfold_monad. simpl_world. intros H.
  repeat case_if_in H.
  match goal with Ht : erc20_transfer _ _ _ _ = inr _ |- _ =>
    apply erc20_transfer_inv in Ht as (_ & Hp & _) end.
  eauto.
Qed.

Lemma erc20_transferFrom_unpaused spender from to value t t' :
  erc20_transferFrom spender from to value t = inr t' -> token_paused t = false.
Proof.
  unfold erc20_transferFrom. cbv zeta. intros H.
  destruct (_ =? MAX_UINT256).
  - by apply erc20_transfer_inv in H as (_ & ? & _).
  - destruct (_ <? _); [done|]. by apply erc20_transfer_inv in H as (_ & ? & _).
Qed.

(** A call that asks for a transfer succeeds only on a ledger that is not
    paused. *)
Lemma transfer_needs_unpaused e c w w' :
  moves_tokens c = true -> call e c w = (None, w') ->
  exists tk t, ledgers w !! tk = Some t /\ token_paused t = false.
Proof.
  destruct c; try discriminate; intros _ Hc.
  - apply requestTokens_inv in Hc as (_&_&_&_&_&_&_&_&_&_& t & t' & Htk & _ & Htr & _).
    apply erc20_transfer_inv in Htr as (_ & Hp & _). eauto.
  - revert Hc. unfold call, transact, dispatch, batchDistribute.
    destruct w as [s slf l ev]. destruct s. unfold_monad. simpl_world. intros H.
    repeat case_if_in H.
    match type of H with
    | context [sum_amounts ?a ?b ?w0] =>
        destruct (sum_amounts a b w0) as [v w1|] eqn:Hs; [|discriminate H]
    end.
    apply sum_amounts_Done in Hs as [-> ->]. simpl_world.
    repeat case_if_in H.
    match type of H with
    | context [distribute_loop ?e ?a ?b ?n ?i ?w0] =>
        destruct (distribute_loop e a b n i w0) as [[] w1|] eqn:Hl; [|discriminate H]
    end.
    destruct recipients as [|r rs]; [discriminate|].
    destruct amounts as [|a amts]; [discriminate|].
    cbn in Hl. unfold bind at 1 in Hl.
    destruct (distribute_entry e r a _) as [[] w2|] eqn:He; [|discriminate].
    apply distribute_entry_unpaused in He as (t1 & Htk & Hp). simpl_world. eauto.
  - revert Hc. unfold call, transact, dispatch, depositTokens.
    open_world w. unfold_monad. simpl_world. intros H.
    repeat case_if_in H.
    match goal with Ht : erc20_transferFrom _ _ _ _ _ = inr _ |- _ =>
      apply erc20_transferFrom_unpaused in Ht end.
    eauto.
  - revert Hc. unfold call, transact, dispatch, withdrawTokens.
    open_world w. unfold_monad. simpl_world. intros H.
    repeat case_if_in H.
    match goal with Ht : erc20_transfer _ _ _ _ = inr _ |- _ =>
      apply erc20_transfer_inv in Ht as (_ & Hp & _) end.
    eauto.
  - revert Hc. unfold call, transact, dispatch, emergencyWithdraw.
    open_world w. unfold_monad. simpl_world. intros H.
    repeat case_if_in H.
    match goal with Ht : erc20_transfer _ _ _ _ = inr _ |- _ =>
      apply erc20_transfer_inv in Ht as (_ & Hp & _) end.
    eauto.
Qed.

(** The other calls never touch a ledger. *)
Lemma administration_keeps_ledgers e c w w' :
  moves_tokens c = false -> call e c w = (None, w') -> ledgers w' = ledgers w.
Proof.
  destruct c; try discriminate; intros _.
  all: unfold call, transact, dispatch, configureFaucet, pause, unpause, setBlacklisted,
         resetDailyLimit, _resetDailyLimit.
  all: open_world w; unfold_monad; simpl_world; intros H.
  all: repeat case_if_in H; by inversion H.
Qed.

(** X19: pausing the token stops the controller's payouts.  While every
    deployed ledger is paused, each call that asks for a transfer (a
    request, a batch, a deposit, a withdrawal, an emergency withdrawal)
    fails, whoever makes it, and no call changes a ledger. *)
Theorem paused_ledger_freezes_controller e c w :
  (forall tk t, ledgers w !! tk = Some t -> token_paused t = true) ->
  ledgers (snd (call e c w)) = ledgers w /\
  (moves_tokens c = true -> exists err, call e c w = (Some err, w)).
Proof.
  intros Hp. destruct (call_cases e c w) as [[w' Hc]|[err Hc]].
  - destruct (moves_tokens c) eqn:Hm.
    + destruct (transfer_needs_unpaused e c w w' Hm Hc) as (tk & t & Htk & Hf).
      rewrite (Hp _ _ Htk) in Hf. discriminate.
    + rewrite Hc. split; [|discriminate]. by apply (administration_keeps_ledgers e c).
  - rewrite Hc. split; [done|eauto].
Qed.

Lemma paused_ledger_freezes_controller_witness :
  call (Scenario.as_user Scenario.USER1 (Scenario.T0 + 10)) RequestTokens Frozen.world
    = (Some (CustomError "EnforcedPause"), Frozen.world) /\
  exists err,
    call (Scenario.as_owner (Scenario.T0 + 10)) (WithdrawTokens 10) Frozen.world
      = (Some err, Frozen.world).
Proof.
  split; [reflexivity|].
  refine (proj2 (paused_ledger_freezes_controller (Scenario.as_owner (Scenario.T0 + 10))
                   (WithdrawTokens 10) Frozen.world _) eq_refl).
  intros tk t Htk.
  destruct (decide (tk = Scenario.TOKEN)) as [->|Hne].
  - assert (Hl : ledgers Frozen.world !! Scenario.TOKEN = Some Frozen.ledger) by reflexivity.
    rewrite Hl in Htk. by injection Htk as <-.
  - unfold Frozen.world in Htk. cbn [ledgers] in Htk.
    rewrite lookup_singleton_ne in Htk by done. discriminate.
Defined.

(** * The token: properties *)

Ltac unfold_token :=
  cbv beta iota delta
    [SimpleToken.tbind SimpleToken.tret SimpleToken.tfail SimpleToken.read
     SimpleToken.write SimpleToken.emit SimpleToken.require SimpleToken.add256
     SimpleToken.sub256 SimpleToken.onlyOwner SimpleToken.nonReentrant
     SimpleToken.whenNotPaused SimpleToken.whenPaused] in *.

Ltac simpl_token :=
  cbn [SimpleToken.name SimpleToken.symbol SimpleToken.ledger SimpleToken.totalSupply
       SimpleToken.cap SimpleToken.tokenOwner SimpleToken.entered SimpleToken.log
       SimpleToken.set_ledger SimpleToken.set_totalSupply SimpleToken.set_entered
       SimpleToken.set_log SimpleToken.set_token_paused SimpleToken.set_balance
       balances allowances token_paused fst snd] in *.

Ltac open_token s :=
  let t := fresh "t" in
  destruct s as [? ? t ? ? ? ? ?]; destruct t; simpl_token.

Ltac case_token_in H :=
  match type of H with
  | context [if ?b then _ else _] => destruct b eqn:?; simpl_token; try discriminate H
  end.

Ltac case_token_goal :=
  match goal with
  | |- context [if ?b then _ else _] =>
      destruct b eqn:?; simpl_token; tests_to_Z; try lia; try congruence
  end.

(** What [_mint] needs and does. *)
Lemma _mint_inv account value s u s' :
  SimpleToken._mint account value s = inr (u, s') ->
  account <> 0 /\ token_paused (SimpleToken.ledger s) = false /\
  SimpleToken.totalSupply s + value <= MAX_UINT256 /\
  s' = minted account value s.
Proof.
  unfold SimpleToken._mint, SimpleToken._update, minted, balanceOf.
  change (0 =? 0) with true. cbv iota.
  open_token s. unfold_token. simpl_token. intros H.
  repeat case_token_in H. inversion H; subst; clear H. tests_to_Z. done.
Qed.

Lemma _mint_ok account value s :
  account <> 0 -> token_paused (SimpleToken.ledger s) = false ->
  SimpleToken.totalSupply s + value <= MAX_UINT256 ->
  SimpleToken._mint account value s = inr (tt, minted account value s).
Proof.
  unfold SimpleToken._mint, SimpleToken._update, minted, balanceOf.
  change (0 =? 0) with true. cbv iota.
  open_token s. unfold_token. simpl_token. intros Ha -> Hfit.
  repeat case_token_goal. all: reflexivity.
Qed.

(** What a successful [mint] implies, and when it succeeds. *)
Lemma mint_inv sender to amount s u s' :
  SimpleToken.mint sender to amount s = inr (u, s') ->
  SimpleToken.tokenOwner s = sender /\ SimpleToken.entered s = false /\ to <> 0 /\
  SimpleToken.totalSupply s + amount <= SimpleToken.cap s /\
  token_paused (SimpleToken.ledger s) = false /\
  SimpleToken.totalSupply s + amount <= MAX_UINT256 /\
  s' = SimpleToken.set_log (SimpleToken.log s ++ [SimpleToken.Mint to amount])
         (minted to amount s).
Proof.
  unfold SimpleToken.mint. unfold_token. intros H.
  repeat case_token_in H.
  destruct (SimpleToken._mint _ _ _) as [|[[] s1]] eqn:Hm; [discriminate|].
  apply _mint_inv in Hm as (_ & Hp & Hfit & ->).
  inversion H; subst; clear H. tests_to_Z.
  open_token s. unfold minted in *. simpl_token. subst. done.
Qed.

Lemma mint_ok sender to amount s :
  SimpleToken.tokenOwner s = sender -> SimpleToken.entered s = false -> to <> 0 ->
  SimpleToken.totalSupply s + amount <= SimpleToken.cap s ->
  SimpleToken.totalSupply s + amount <= MAX_UINT256 ->
  token_paused (SimpleToken.ledger s) = false ->
  SimpleToken.mint sender to amount s
    = inr (tt, SimpleToken.set_log (SimpleToken.log s ++ [SimpleToken.Mint to amount])
                 (minted to amount s)).
Proof.
  unfold SimpleToken.mint, minted.
  open_token s. unfold_token. simpl_token. intros -> -> Hto Hcap Hmax ->.
  rewrite Z.eqb_refl. simpl_token.
  repeat case_token_goal.
  rewrite _mint_ok by (simpl_token; done || lia). reflexivity.
Qed.

Lemma token_sum_amounts_inv amts acc s v s' :
  SimpleToken.sum_amounts amts acc s = inr (v, s') -> s' = s /\ v = acc + sum_Z amts.
Proof.
  revert acc. induction amts as [|a amts IH]; intros acc; cbn.
  - unfold SimpleToken.tret. intros [= <- <-]. split; [done|lia].
  - unfold SimpleToken.tbind, SimpleToken.add256.
    destruct (acc + a <=? MAX_UINT256); [|discriminate].
    unfold SimpleToken.tret. intros H. apply IH in H as [-> ->]. split; [done|lia].
Qed.

Lemma mint_loop_list (rs amts : list Z) n i s :
  length rs = length amts -> (i + n)%nat = length rs ->
  SimpleToken.mint_loop rs amts n i s = SimpleToken.mint_list (drop i (zip rs amts)) s.
Proof.
  intros Hlen. revert i s. induction n as [|n IH]; intros i s Hi; cbn.
  - rewrite drop_ge; [done|]. rewrite length_zip_with. lia.
  - destruct (lookup_lt_is_Some_2 rs i ltac:(lia)) as [r Hr].
    destruct (lookup_lt_is_Some_2 amts i ltac:(lia)) as [a Ha].
    assert (Hz : zip rs amts !! i = Some (r, a)).
    { rewrite lookup_zip_with, Hr; cbn. by rewrite Ha. }
    rewrite (drop_S _ _ _ Hz); cbn.
    unfold SimpleToken.mint_one. rewrite Hr, Ha.
    unfold SimpleToken.tbind. destruct (SimpleToken.mint_entry r a s) as [|[[] s1]]; [done|].
    apply IH. lia.
Qed.

Lemma mint_entry_inv r a s u s' :
  SimpleToken.mint_entry r a s = inr (u, s') ->
  r <> 0 /\ token_paused (SimpleToken.ledger s) = false /\
  SimpleToken.totalSupply s + a <= MAX_UINT256 /\
  s' = SimpleToken.set_log (SimpleToken.log s ++ [SimpleToken.Mint r a]) (minted r a s).
Proof.
  unfold SimpleToken.mint_entry. unfold_token. intros H.
  repeat case_token_in H.
  destruct (SimpleToken._mint _ _ _) as [|[[] s1]] eqn:Hm; [discriminate|].
  apply _mint_inv in Hm as (Hr & Hp & Hfit & ->).
  inversion H; subst; clear H. done.
Qed.

(** Everything a successful [batchMint] implies. *)
Lemma batchMint_inv sender rs amts s u s' :
  SimpleToken.batchMint sender rs amts s = inr (u, s') ->
  SimpleToken.tokenOwner s = sender /\ SimpleToken.entered s = false /\
  length rs = length amts /\ rs <> [] /\
  SimpleToken.totalSupply s + sum_Z amts <= SimpleToken.cap s /\
  exists s1,
    SimpleToken.mint_list (zip rs amts) (SimpleToken.set_entered true s) = inr (tt, s1) /\
    s' = SimpleToken.set_entered false s1.
Proof.
  unfold SimpleToken.batchMint. unfold_token. intros H.
  repeat case_token_in H.
  destruct (SimpleToken.sum_amounts _ _ _) as [|[v s0]] eqn:Hs; [discriminate|].
  apply token_sum_amounts_inv in Hs as [-> ->].
  repeat case_token_in H.
  destruct (SimpleToken.mint_loop _ _ _ _ _) as [|[[] s1]] eqn:Hl; [discriminate|].
  assert (Hlen : length rs = length amts) by (by apply Nat.eqb_eq).
  rewrite mint_loop_list in Hl by done. rewrite drop_0 in Hl.
  inversion H; subst; clear H. tests_to_Z.
  open_token s. simpl_token. subst.
  repeat split; try done; try lia.
  - by intros ->.
  - eauto.
Qed.

Lemma play_cons c tr s :
  SimpleToken.play (c :: tr) s = SimpleToken.play tr (snd (SimpleToken.send c.1 c.2 s)).
Proof. reflexivity. Qed.

Lemma mint_list_as_mints sender ps s s1 :
  SimpleToken.tokenOwner s = sender -> SimpleToken.entered s = false ->
  Forall (fun p => 0 <= p.2) ps ->
  SimpleToken.totalSupply s + sum_Z ps.*2 <= SimpleToken.cap s ->
  SimpleToken.mint_list ps (SimpleToken.set_entered true s) = inr (tt, s1) ->
  SimpleToken.play ((fun p => (sender, SimpleToken.DoMint p.1 p.2)) <$> ps) s
    = SimpleToken.set_entered false s1.
Proof.
  intros Ho He Hpos. revert s Ho He. induction Hpos as [|[r a] ps Ha Hpos IH];
    intros s Ho He Hcap; cbn [SimpleToken.mint_list fmap list_fmap].
  - unfold SimpleToken.tret. intros [= <-]. cbn.
    open_token s. simpl_token. by subst.
  - unfold SimpleToken.tbind.
    destruct (SimpleToken.mint_entry r a _) as [|[[] s2]] eqn:He1; [discriminate|].
    apply mint_entry_inv in He1 as (Hr & Hp & Hfit & ->). intros Hl.
    assert (0 <= sum_Z ps.*2).
    { apply sum_Z_nonneg, Forall_fmap. exact Hpos. }
    cbn in Ha, Hcap.
    rewrite play_cons. cbn [fst snd]. unfold SimpleToken.send, SimpleToken.exec.
    rewrite (mint_ok sender r a s) by (simpl_token; done || lia). cbn [snd].
    apply IH.
    + by destruct s.
    + by destruct s.
    + destruct s; cbn in *. lia.
    + rewrite <- Hl. by destruct s.
Qed.

(** X20: a successful [batchMint] is the same as minting its entries one
    by one, in order, with [mint]: the same balances, total supply and
    [Mint] records.  (The converse does not hold: the batch tests the cap
    on the sum of its amounts before minting anything.) *)
Theorem batchMint_as_mints sender rs amts s s' :
  Forall (fun a => 0 <= a) amts ->
  SimpleToken.send sender (SimpleToken.DoBatchMint rs amts) s = (None, s') ->
  SimpleToken.play (SimpleToken.mints sender rs amts) s = s'.
Proof.
  intros Hpos. unfold SimpleToken.send, SimpleToken.exec.
  destruct (SimpleToken.batchMint sender rs amts s) as [|[[] s2]] eqn:Hb; [discriminate|].
  intros [= <-].
  apply batchMint_inv in Hb as (Ho & He & Hlen & _ & Hcap & s1 & Hl & ->).
  unfold SimpleToken.mints.
  rewrite <- (fmap_zip_pairs (fun r a => (sender, SimpleToken.DoMint r a))).
  apply mint_list_as_mints; try done.
  - apply (zip_pairs_Forall (fun _ => True) (fun a => 0 <= a) rs amts) in Hpos;
      [|by apply Forall_true].
    eapply Forall_impl; [exact Hpos|]. by intros ? [].
  - rewrite snd_zip by lia. done.
Qed.

Lemma batchMint_as_mints_witness :
  let s := snd (SimpleToken.send Minting.DEPLOYER (SimpleToken.DoBatchMint [12; 13; 12] [200; 300; 5])
                  Minting.token0) in
  SimpleToken.totalSupply s = 505 /\
  SimpleToken.play (SimpleToken.mints Minting.DEPLOYER [12; 13; 12] [200; 300; 5]) Minting.token0
    = s.
Proof.
  cbv zeta. split; [reflexivity|].
  apply batchMint_as_mints.
  - repeat constructor; discriminate.
  - vm_compute. reflexivity.
Defined.

Lemma sum_map_nonneg (m : gmap Z Z) :
  map_Forall (fun _ v => 0 <= v) m -> 0 <= sum_map m.
Proof.
  induction m as [|k v m Hk _ IH] using map_first_key_ind.
  - intros _. unfold sum_map. by rewrite map_fold_empty.
  - intros H. apply map_Forall_insert in H as [Hv Hm]; [|done].
    rewrite sum_map_insert. unfold rd. rewrite Hk. cbn. specialize (IH Hm). lia.
Qed.

Lemma balance_within_sum (m : gmap Z Z) a :
  map_Forall (fun _ v => 0 <= v) m -> 0 <= rd m a <= sum_map m.
Proof.
  intros H. unfold rd. destruct (m !! a) as [v|] eqn:Ha; cbn.
  - pose proof (H _ _ Ha) as Hv. cbn in Hv.
    pose proof (sum_map_nonneg (delete a m) (map_Forall_delete _ _ _ H)) as Hd.
    rewrite <- (insert_delete_id m a v Ha), sum_map_insert.
    unfold rd. rewrite lookup_delete_eq. cbn. lia.
  - split; [done|]. by apply sum_map_nonneg.
Qed.

Lemma supply_inv_minted a v s :
  supply_inv s -> 0 <= v -> SimpleToken.totalSupply s + v <= SimpleToken.cap s ->
  supply_inv (minted a v s) /\
  balanceOf (SimpleToken.ledger (minted a v s)) a = balanceOf (SimpleToken.ledger s) a + v.
Proof.
  unfold supply_inv, minted, balanceOf. open_token s. simpl_token.
  intros (Hpos & Hsum & Hcap) Hv Hroom.
  pose proof (balance_within_sum _ a Hpos) as Hb.
  rewrite Z.mod_small by (unfold MAX_UINT256 in *; lia).
  rewrite rd_insert_eq. split; [|done]. split; [|split].
  - apply map_Forall_insert_2; [lia|done].
  - rewrite sum_map_insert. lia.
  - lia.
Qed.

Lemma supply_inv_frame s s' :
  SimpleToken.ledger s' = SimpleToken.ledger s ->
  SimpleToken.totalSupply s' = SimpleToken.totalSupply s ->
  SimpleToken.cap s' = SimpleToken.cap s ->
  supply_inv s -> supply_inv s'.
Proof. unfold supply_inv. by intros -> -> ->. Qed.

Lemma mint_list_supply ps s s1 :
  supply_inv s -> Forall (fun p => 0 <= p.2) ps ->
  SimpleToken.totalSupply s + sum_Z ps.*2 <= SimpleToken.cap s ->
  SimpleToken.mint_list ps s = inr (tt, s1) ->
  supply_inv s1 /\ SimpleToken.cap s1 = SimpleToken.cap s /\
  SimpleToken.totalSupply s1 = SimpleToken.totalSupply s + sum_Z ps.*2.
Proof.
  intros Hinv Hpos. revert s Hinv. induction Hpos as [|[r a] ps Ha Hpos IH];
    intros s Hinv Hroom; cbn [SimpleToken.mint_list].
  - unfold SimpleToken.tret. intros [= <-]. split; [done|]. split; [done|]. cbn. lia.
  - unfold SimpleToken.tbind.
    destruct (SimpleToken.mint_entry r a s) as [|[[] s2]] eqn:He1; [discriminate|].
    apply mint_entry_inv in He1 as (Hr & Hp & Hfit & ->). intros Hl.
    assert (0 <= sum_Z ps.*2) by (apply sum_Z_nonneg, Forall_fmap; exact Hpos).
    cbn in Ha, Hroom.
    destruct (supply_inv_minted r a s Hinv Ha ltac:(lia)) as [Hinv' _].
    apply IH in Hl as (H1 & H2 & H3).
    + split; [done|]. rewrite H2, H3. destruct s; cbn. split; [done|lia].
    + eapply supply_inv_frame; [| | |exact Hinv']; by destruct s.
    + destruct s; cbn in *. lia.
Qed.

(** The invariant survives every successful call. *)
Lemma supply_inv_step sender op s s' :
  supply_inv s -> SimpleToken.uint_args op ->
  SimpleToken.send sender op s = (None, s') ->
  supply_inv s' /\ SimpleToken.cap s' = SimpleToken.cap s.
Proof.
  intros Hinv Hargs. unfold SimpleToken.send.
  destruct (SimpleToken.exec sender op s) as [|[[] s2]] eqn:Hx; [discriminate|].
  intros [= <-]. destruct op; cbn in Hx, Hargs.
  - apply mint_inv in Hx as (_ & _ & _ & Hroom & _ & _ & ->).
    destruct (supply_inv_minted to amount s Hinv Hargs Hroom) as [Hinv' _].
    split; [|by destruct s].
    eapply supply_inv_frame; [| | |exact Hinv']; by destruct s.
  - apply batchMint_inv in Hx as (_ & _ & Hlen & _ & Hroom & s1 & Hl & ->).
    apply mint_list_supply in Hl as (H1 & H2 & _).
    + split; [|by destruct s, s1].
      eapply supply_inv_frame; [| | |exact H1]; by destruct s1.
    + eapply supply_inv_frame; [| | |exact Hinv]; by destruct s.
    + apply (zip_pairs_Forall (fun _ => True) (fun a => 0 <= a) recipients amounts) in Hargs;
        [|by apply Forall_true].
      eapply Forall_impl; [exact Hargs|]. by intros ? [].
    + rewrite snd_zip by lia. by destruct s.
  - revert Hx Hinv. unfold SimpleToken.pause, supply_inv. open_token s. unfold_token.
    simpl_token. intros H. repeat case_token_in H. by inversion H.
  - revert Hx Hinv. unfold SimpleToken.unpause, supply_inv. open_token s. unfold_token.
    simpl_token. intros H. repeat case_token_in H. by inversion H.
  - revert Hx Hinv. unfold SimpleToken.transfer, SimpleToken._update, supply_inv, balanceOf.
    open_token s. unfold_token. simpl_token. intros H (Hpos & Hsum & Hcap).
    repeat case_token_in H. inversion H; subst; clear H. tests_to_Z. simpl_token.
    split; [|done].
    pose proof (balance_within_sum _ sender Hpos) as Hb.
    match type of Hpos with
    | map_Forall _ ?b =>
        assert (Hpos1 : map_Forall (fun _ v => 0 <= v) (<[sender := rd b sender - value]> b))
          by (apply map_Forall_insert_2; [lia|done])
    end.
    pose proof (balance_within_sum _ to Hpos1) as Hb1.
    rewrite sum_map_insert in Hb1.
    rewrite Z.mod_small by (unfold MAX_UINT256 in *; lia).
    split; [|split].
    + apply map_Forall_insert_2; [lia|done].
    + rewrite !sum_map_insert. lia.
    + done.
  - revert Hx Hinv. unfold SimpleToken.burn, SimpleToken._update, supply_inv, balanceOf.
    change (0 =? 0) with true. cbv iota.
    open_token s. unfold_token. simpl_token. intros H (Hpos & Hsum & Hcap).
    repeat case_token_in H. inversion H; subst; clear H. tests_to_Z. simpl_token.
    split; [|done].
    pose proof (balance_within_sum _ sender Hpos) as Hb.
    rewrite Z.mod_small by (unfold MAX_UINT256 in *; lia).
    split; [|split].
    + apply map_Forall_insert_2; [lia|done].
    + rewrite sum_map_insert. lia.
    + lia.
Qed.

Lemma supply_inv_play tr s :
  supply_inv s -> uint_trace tr ->
  supply_inv (SimpleToken.play tr s) /\
  SimpleToken.cap (SimpleToken.play tr s) = SimpleToken.cap s.
Proof.
  intros Hinv Htr. revert s Hinv. induction Htr as [|[sender op] tr Hop Htr IH];
    intros s Hinv; [done|].
  rewrite play_cons. cbn [fst snd] in *.
  destruct (SimpleToken.send sender op s) as [[err|] s'] eqn:Hs; cbn [snd].
  - assert (s' = s) as ->.
    { unfold SimpleToken.send in Hs.
      destruct (SimpleToken.exec sender op s) as [|[[] ?]]; by inversion Hs. }
    by apply IH.
  - destruct (supply_inv_step _ _ _ _ Hinv Hop Hs) as [Hinv' Hcap].
    destruct (IH _ Hinv') as [H1 H2]. split; [done|congruence].
Qed.

Lemma constructor_supply_inv sender name_ symbol_ initial cap_ s0 :
  0 <= initial -> cap_ <= MAX_UINT256 ->
  SimpleToken.constructor sender name_ symbol_ initial cap_ = inr s0 ->
  supply_inv s0 /\ SimpleToken.cap s0 = cap_ /\ SimpleToken.totalSupply s0 = initial /\
  balanceOf (SimpleToken.ledger s0) sender = initial.
Proof.
  intros Hi Hcap. unfold SimpleToken.constructor. intros H.
  repeat case_token_in H; tests_to_Z.
  - destruct (SimpleToken._mint _ _ _) as [|[[] s1]] eqn:Hm; [discriminate|].
    apply _mint_inv in Hm as (_ & _ & _ & ->). inversion H; subst; clear H.
    unfold supply_inv, minted, balanceOf. simpl_token.
    rewrite Z.mod_small by (unfold rd, MAX_UINT256 in *; rewrite lookup_empty; cbn; lia).
    rewrite rd_insert_eq, sum_map_insert. unfold rd, sum_map.
    rewrite lookup_empty, map_fold_empty. cbn.
    repeat split; try lia. apply map_Forall_insert_2; [lia|]. apply map_Forall_empty.
  - inversion H; subst; clear H. unfold supply_inv, balanceOf, rd, sum_map. simpl_token.
    rewrite map_fold_empty, lookup_empty. cbn.
    repeat split; try lia. apply map_Forall_empty.
Qed.

(** X21: the supply cap holds for the life of the token: after a
    deployment and any sequence of mints, batch mints, pauses, unpauses,
    transfers and burns by any callers, [totalSupply] is at most [cap], and
    [cap] is the value given to the constructor. *)
Theorem supply_within_cap sender name_ symbol_ initial cap_ s0 tr :
  0 <= initial -> cap_ <= MAX_UINT256 ->
  SimpleToken.constructor sender name_ symbol_ initial cap_ = inr s0 ->
  uint_trace tr ->
  SimpleToken.totalSupply (SimpleToken.play tr s0) <= SimpleToken.cap (SimpleToken.play tr s0) /\
  SimpleToken.cap (SimpleToken.play tr s0) = cap_.
Proof.
  intros Hi Hcap Hc Htr.
  apply constructor_supply_inv in Hc as (Hinv & Hc0 & _); try done.
  destruct (supply_inv_play tr s0 Hinv Htr) as [(_ & _ & H) Hcap'].
  split; [lia|congruence].
Qed.

Lemma minting_history_uint : uint_trace Minting.history.
Proof. repeat constructor; cbn; try discriminate; repeat constructor; discriminate. Qed.

Lemma minting_token0_deployed :
  SimpleToken.constructor Minting.DEPLOYER "Test Token" "TEST" 0 10000 = inr Minting.token0.
Proof. reflexivity. Qed.

Lemma supply_within_cap_witness :
  SimpleToken.totalSupply (SimpleToken.play Minting.history Minting.token0) = 510 /\
  SimpleToken.totalSupply (SimpleToken.play Minting.history Minting.token0)
    <= SimpleToken.cap (SimpleToken.play Minting.history Minting.token0) /\
  SimpleToken.cap (SimpleToken.play Minting.history Minting.token0) = 10000.
Proof.
  split; [reflexivity|].
  apply (supply_within_cap Minting.DEPLOYER "Test Token" "TEST" 0 10000 Minting.token0).
  - lia.
  - by_evaluation.
  - exact minting_token0_deployed.
  - exact minting_history_uint.
Defined.

(** X22: the balances account for the whole supply: after a deployment and
    any sequence of mints, batch mints, pauses, unpauses, transfers and
    burns by any callers (the calls of [SimpleToken.Op]; transfers and
    burns on an allowance are not among them), the balances add up to
    [totalSupply], so every balance lies between zero and [totalSupply],
    and with the cap tests of the constructor, [mint] and [batchMint] no
    address ever holds more than the cap. *)
Theorem balances_add_up_to_supply sender name_ symbol_ initial cap_ s0 tr :
  0 <= initial -> cap_ <= MAX_UINT256 ->
  SimpleToken.constructor sender name_ symbol_ initial cap_ = inr s0 ->
  uint_trace tr ->
  let s := SimpleToken.play tr s0 in
  sum_map (balances (SimpleToken.ledger s)) = SimpleToken.totalSupply s /\
  forall a,
    0 <= balanceOf (SimpleToken.ledger s) a <= SimpleToken.totalSupply s /\
    balanceOf (SimpleToken.ledger s) a <= cap_.
Proof.
  intros Hi Hcap Hc Htr. cbv zeta.
  apply constructor_supply_inv in Hc as (Hinv & Hc0 & _); try done.
  destruct (supply_inv_play tr s0 Hinv Htr) as [(Hpos & Hsum & Hle) Hcap'].
  split; [done|]. intros a.
  pose proof (balance_within_sum _ a Hpos) as Hb. unfold balanceOf. lia.
Qed.

Lemma balances_add_up_to_supply_witness :
  let s := SimpleToken.play Minting.history Minting.token0 in
  sum_map (balances (SimpleToken.ledger s)) = SimpleToken.totalSupply s /\
  forall a,
    0 <= balanceOf (SimpleToken.ledger s) a <= SimpleToken.totalSupply s /\
    balanceOf (SimpleToken.ledger s) a <= 10000.
Proof.
  apply (balances_add_up_to_supply Minting.DEPLOYER "Test Token" "TEST" 0 10000 Minting.token0).
  - lia.
  - by_evaluation.
  - exact minting_token0_deployed.
  - exact minting_history_uint.
Defined.

(** X23: [remainingMintableSupply] never underflows: in every state
    reached from a deployment it returns [cap - totalSupply].  No mint of
    more than that succeeds, and a successful [mint] of [amount] lowers it
    by exactly [amount]. *)
Theorem remaining_supply_tracks_mints sender name_ symbol_ initial cap_ s0 tr :
  0 <= initial -> cap_ <= MAX_UINT256 ->
  SimpleToken.constructor sender name_ symbol_ initial cap_ = inr s0 ->
  uint_trace tr ->
  let s := SimpleToken.play tr s0 in
  let remaining := cap_ - SimpleToken.totalSupply s in
  SimpleToken.remainingMintableSupply s = inr (remaining, s) /\ 0 <= remaining /\
  forall caller to amount s',
    SimpleToken.send caller (SimpleToken.DoMint to amount) s = (None, s') ->
    amount <= remaining /\
    SimpleToken.remainingMintableSupply s' = inr (remaining - amount, s').
Proof.
  intros Hi Hcap Hc Htr. cbv zeta.
  apply constructor_supply_inv in Hc as (Hinv & Hc0 & _); try done.
  destruct (supply_inv_play tr s0 Hinv Htr) as [(_ & _ & Hle) Hcap'].
  set (s := SimpleToken.play tr s0) in *. rewrite Hc0 in Hcap'. clearbody s.
  assert (Hrem : forall s1, SimpleToken.cap s1 = cap_ -> SimpleToken.totalSupply s1 <= cap_ ->
            SimpleToken.remainingMintableSupply s1
              = inr (cap_ - SimpleToken.totalSupply s1, s1)).
  { intros s1 H1 H2. unfold SimpleToken.remainingMintableSupply. unfold_token.
    rewrite H1, (proj2 (Z.leb_le _ _) H2). reflexivity. }
  split; [apply Hrem; [done|lia]|]. split; [lia|].
  intros caller to amount s' Hs. unfold SimpleToken.send, SimpleToken.exec in Hs.
  destruct (SimpleToken.mint caller to amount s) as [|[[] s2]] eqn:Hm; [discriminate|].
  injection Hs as <-.
  apply mint_inv in Hm as (_ & _ & _ & Hroom & _ & _ & ->).
  split; [lia|].
  rewrite Hrem; destruct s; cbn in *; [f_equal; f_equal; lia|done|lia].
Qed.

Lemma remaining_supply_tracks_mints_witness :
  let s := SimpleToken.play Minting.history Minting.token0 in
  SimpleToken.remainingMintableSupply s = inr (10000 - 510, s) /\
  fst (SimpleToken.send Minting.DEPLOYER (SimpleToken.DoMint 11 9491) s)
    = Some (Revert "SimpleToken: cap exceeded").
Proof.
  cbv zeta. split; [|reflexivity].
  refine (proj1 (remaining_supply_tracks_mints Minting.DEPLOYER "Test Token" "TEST" 0 10000
                   Minting.token0 Minting.history _ _
                   minting_token0_deployed minting_history_uint)).
  - lia.
  - by_evaluation.
Defined.

(** X24: the tests of [mint], in their order, and its effect.  A caller
    who is not the owner is refused first; then the zero address; then an
    amount that would take the supply over the cap; then a paused token.
    Otherwise, in a state where the balances add up to the supply, [mint]
    credits exactly [amount] to the recipient, raises [totalSupply] by
    [amount] and records the mint. *)
Theorem mint_tests_and_effect caller to amount s :
  (caller <> SimpleToken.tokenOwner s ->
   SimpleToken.send caller (SimpleToken.DoMint to amount) s
     = (Some (CustomError "OwnableUnauthorizedAccount"), s)) /\
  (caller = SimpleToken.tokenOwner s -> SimpleToken.entered s = false ->
   (to = 0 ->
    SimpleToken.send caller (SimpleToken.DoMint to amount) s
      = (Some (Revert "SimpleToken: mint to zero address"), s)) /\
   (to <> 0 -> SimpleToken.totalSupply s + amount <= MAX_UINT256 ->
    SimpleToken.cap s < SimpleToken.totalSupply s + amount ->
    SimpleToken.send caller (SimpleToken.DoMint to amount) s
      = (Some (Revert "SimpleToken: cap exceeded"), s)) /\
   (to <> 0 -> SimpleToken.totalSupply s + amount <= SimpleToken.cap s <= MAX_UINT256 ->
    token_paused (SimpleToken.ledger s) = true ->
    SimpleToken.send caller (SimpleToken.DoMint to amount) s
      = (Some (CustomError "EnforcedPause"), s)) /\
   (to <> 0 -> 0 <= amount -> SimpleToken.totalSupply s + amount <= SimpleToken.cap s ->
    token_paused (SimpleToken.ledger s) = false -> supply_inv s ->
    exists s',
      SimpleToken.send caller (SimpleToken.DoMint to amount) s = (None, s') /\
      balanceOf (SimpleToken.ledger s') to = balanceOf (SimpleToken.ledger s) to + amount /\
      (forall a, a <> to ->
         balanceOf (SimpleToken.ledger s') a = balanceOf (SimpleToken.ledger s) a) /\
      SimpleToken.totalSupply s' = SimpleToken.totalSupply s + amount /\
      SimpleToken.log s' = SimpleToken.log s ++ [SimpleToken.Mint to amount])).
Proof.
  split; [|intros -> Hidle; split; [|split; [|split]]].
  - intros Hne. unfold SimpleToken.send, SimpleToken.exec, SimpleToken.mint.
    open_token s. unfold_token. simpl_token.
    by rewrite (proj2 (Z.eqb_neq _ _)) by congruence.
  - intros ->. revert Hidle. unfold SimpleToken.send, SimpleToken.exec, SimpleToken.mint.
    open_token s. unfold_token. simpl_token. intros ->. by rewrite Z.eqb_refl.
  - intros Hto Hfit Hover. revert Hidle Hfit Hover.
    unfold SimpleToken.send, SimpleToken.exec, SimpleToken.mint.
    open_token s. unfold_token. simpl_token. intros -> Hfit Hover.
    rewrite Z.eqb_refl. simpl_token. repeat case_token_goal. all: reflexivity.
  - intros Hto Hroom Hp. revert Hidle Hroom Hp.
    unfold SimpleToken.send, SimpleToken.exec, SimpleToken.mint, SimpleToken._mint,
      SimpleToken._update.
    open_token s. unfold_token. simpl_token. intros -> Hroom ->.
    rewrite Z.eqb_refl. simpl_token. repeat case_token_goal. all: reflexivity.
  - intros Hto Hpos Hroom Hp Hinv.
    destruct (supply_inv_minted to amount s Hinv Hpos Hroom) as [_ Hbal].
    pose proof Hinv as (_ & _ & Hcap).
    eexists. unfold SimpleToken.send, SimpleToken.exec.
    rewrite (mint_ok _ to amount s) by (done || lia).
    split; [reflexivity|]. cbn [SimpleToken.ledger SimpleToken.set_log].
    split; [exact Hbal|]. split; [|by destruct s].
    intros a Hne. unfold minted, balanceOf. destruct s; cbn. by rewrite rd_insert_ne.
Qed.

Lemma mint_tests_and_effect_witness :
  fst (SimpleToken.send 11 (SimpleToken.DoMint 11 100) Minting.token0)
    = Some (CustomError "OwnableUnauthorizedAccount") /\
  exists s',
    SimpleToken.send Minting.DEPLOYER (SimpleToken.DoMint 11 100) Minting.token0 = (None, s') /\
    balanceOf (SimpleToken.ledger s') 11 = 100 /\ SimpleToken.totalSupply s' = 100.
Proof.
  destruct (mint_tests_and_effect 11 11 100 Minting.token0) as [H1 _].
  split; [rewrite H1; [reflexivity|discriminate]|].
  destruct (mint_tests_and_effect Minting.DEPLOYER 11 100 Minting.token0) as [_ H2].
  destruct (H2 eq_refl eq_refl) as (_ & _ & _ & H3).
  destruct H3 as (s' & Hs & Hb & _ & Ht & _).
  - discriminate.
  - lia.
  - by_evaluation.
  - reflexivity.
  - unfold supply_inv. cbn. unfold sum_map. rewrite map_fold_empty.
    split; [apply map_Forall_empty|]. by_evaluation.
  - exists s'. split; [exact Hs|]. split; [exact Hb|exact Ht].
Defined.

(** ** The token's pause *)

Lemma send_failed sender op s err s' :
  SimpleToken.send sender op s = (Some err, s') -> s' = s.
Proof.
  unfold SimpleToken.send. destruct (SimpleToken.exec sender op s) as [|[[] ?]]; by intros [= _ <-].
Qed.

(** While the token is paused only [unpause] succeeds. *)
Lemma paused_token_step sender op s s' :
  token_paused (SimpleToken.ledger s) = true ->
  SimpleToken.send sender op s = (None, s') ->
  op = SimpleToken.DoUnpause /\ sender = SimpleToken.tokenOwner s.
Proof.
  intros Hp. unfold SimpleToken.send.
  destruct (SimpleToken.exec sender op s) as [|[[] s2]] eqn:Hx; [discriminate|].
  intros _. destruct op; cbn in Hx.
  - apply mint_inv in Hx as (_ & _ & _ & _ & Hf & _). congruence.
  - apply batchMint_inv in Hx as (_ & _ & Hlen & Hne & _ & s1 & Hl & _).
    destruct recipients as [|r rs]; [done|]. destruct amounts as [|a amts]; [discriminate|].
    cbn in Hl. unfold SimpleToken.tbind in Hl.
    destruct (SimpleToken.mint_entry r a _) as [|[[] s3]] eqn:He; [discriminate|].
    apply mint_entry_inv in He as (_ & Hf & _). destruct s; cbn in *. congruence.
  - revert Hx Hp. unfold SimpleToken.pause. open_token s. unfold_token. simpl_token.
    intros H ->. repeat case_token_in H.
  - revert Hx Hp. unfold SimpleToken.unpause. open_token s. unfold_token. simpl_token.
    intros H _. repeat case_token_in H. tests_to_Z. done.
  - revert Hx Hp. unfold SimpleToken.transfer, SimpleToken._update.
    open_token s. unfold_token. simpl_token. intros H ->. repeat case_token_in H.
  - revert Hx Hp. unfold SimpleToken.burn, SimpleToken._update.
    open_token s. unfold_token. simpl_token. intros H ->. repeat case_token_in H.
Qed.

(** X25: a paused token is frozen.  Until [unpause] is called, no mint,
    batch mint, transfer or burn by anyone succeeds: after any sequence of
    other calls the token is still paused and its balances, its total
    supply and its log are what they were. *)
Theorem paused_token_is_frozen tr s :
  token_paused (SimpleToken.ledger s) = true ->
  Forall (fun c => c.2 <> SimpleToken.DoUnpause) tr ->
  SimpleToken.play tr s = s.
Proof.
  intros Hp Htr. induction Htr as [|[sender op] tr Hop Htr IH]; [done|].
  rewrite play_cons. cbn [fst snd] in *.
  destruct (SimpleToken.send sender op s) as [[err|] s'] eqn:Hs; cbn [snd].
  - apply send_failed in Hs as ->. exact IH.
  - by destruct (paused_token_step _ _ _ _ Hp Hs) as [-> _].
Qed.

Lemma paused_token_is_frozen_witness :
  let s := snd (SimpleToken.send Minting.DEPLOYER SimpleToken.DoPause
                  (SimpleToken.play Minting.history Minting.token0)) in
  token_paused (SimpleToken.ledger s) = true /\
  SimpleToken.play [(Minting.DEPLOYER, SimpleToken.DoMint 11 5);
                    (12, SimpleToken.DoTransfer 13 1);
                    (13, SimpleToken.DoBurn 1);
                    (Minting.DEPLOYER, SimpleToken.DoPause)] s = s.
Proof.
  cbv zeta. split; [reflexivity|].
  apply paused_token_is_frozen.
  - reflexivity.
  - repeat constructor; discriminate.
Defined.

(** X26: pausing and unpausing the token are the owner's: any other
    caller is refused.  [pause] succeeds on a token that is not paused and
    [unpause] on one that is; each changes the pause flag and nothing else
    but the log. *)
Theorem token_pause_and_unpause sender s :
  (sender <> SimpleToken.tokenOwner s ->
   SimpleToken.send sender SimpleToken.DoPause s
     = (Some (CustomError "OwnableUnauthorizedAccount"), s) /\
   SimpleToken.send sender SimpleToken.DoUnpause s
     = (Some (CustomError "OwnableUnauthorizedAccount"), s)) /\
  (sender = SimpleToken.tokenOwner s ->
   SimpleToken.send sender SimpleToken.DoPause s
     = (if token_paused (SimpleToken.ledger s) then (Some (CustomError "EnforcedPause"), s)
        else (None, SimpleToken.set_log (SimpleToken.log s ++ [SimpleToken.Paused sender])
                      (SimpleToken.set_ledger
                         (SimpleToken.set_token_paused true (SimpleToken.ledger s)) s))) /\
   SimpleToken.send sender SimpleToken.DoUnpause s
     = (if token_paused (SimpleToken.ledger s)
        then (None, SimpleToken.set_log (SimpleToken.log s ++ [SimpleToken.Unpaused sender])
                      (SimpleToken.set_ledger
                         (SimpleToken.set_token_paused false (SimpleToken.ledger s)) s))
        else (Some (CustomError "ExpectedPause"), s))).
Proof.
  unfold SimpleToken.send, SimpleToken.exec, SimpleToken.pause, SimpleToken.unpause.
  open_token s. unfold_token. simpl_token. split.
  - intros Hne. by rewrite (proj2 (Z.eqb_neq _ _)) by congruence.
  - intros ->. rewrite Z.eqb_refl.
    by match goal with |- context [if ?b then _ else _] => is_var b; destruct b end.
Qed.

Lemma token_pause_and_unpause_witness :
  fst (SimpleToken.send 11 SimpleToken.DoPause Minting.token0)
    = Some (CustomError "OwnableUnauthorizedAccount") /\
  fst (SimpleToken.send Minting.DEPLOYER SimpleToken.DoUnpause Minting.token0)
    = Some (CustomError "ExpectedPause").
Proof.
  destruct (token_pause_and_unpause 11 Minting.token0) as [H1 _].
  destruct (token_pause_and_unpause Minting.DEPLOYER Minting.token0) as [_ H2].
  split.
  - destruct H1 as [-> _]; [discriminate|reflexivity].
  - destruct (H2 eq_refl) as [_ ->]. reflexivity.
Defined.

(** ** Batches that are refused *)

Lemma token_sum_amounts_ok amts acc s :
  Forall (fun a => 0 <= a) amts -> acc + sum_Z amts <= MAX_UINT256 ->
  SimpleToken.sum_amounts amts acc s = inr (acc + sum_Z amts, s).
Proof.
  intros Hpos. revert acc. induction Hpos as [|a rest Ha Hrest IH]; intros acc Hfit; cbn in *.
  - unfold SimpleToken.tret. do 2 f_equal. lia.
  - pose proof (sum_Z_nonneg _ Hrest).
    unfold SimpleToken.tbind, SimpleToken.add256.
    rewrite (proj2 (Z.leb_le _ _)) by lia. unfold SimpleToken.tret.
    rewrite IH by lia. do 2 f_equal. lia.
Qed.

Lemma mint_list_recipients ps s u s' :
  SimpleToken.mint_list ps s = inr (u, s') -> Forall (fun p => p.1 <> 0) ps.
Proof.
  revert s. induction ps as [|[r a] ps IH]; intros s; cbn; [by constructor|].
  unfold SimpleToken.tbind.
  destruct (SimpleToken.mint_entry r a s) as [|[[] s1]] eqn:He; [discriminate|].
  apply mint_entry_inv in He as (Hr & _). intros Hl. constructor; [done|by eapply IH].
Qed.

(** X27: [batchMint] refuses a batch before minting anything when the
    arrays differ in length, when they are empty, and when the sum of the
    amounts would take the supply over the cap, even if a prefix of the
    batch fits.  A zero address anywhere among the recipients fails the
    whole batch, and a failed batch leaves the token as it was. *)
Theorem batchMint_rejected_up_front sender rs amts s :
  sender = SimpleToken.tokenOwner s -> SimpleToken.entered s = false ->
  (length rs <> length amts ->
   SimpleToken.send sender (SimpleToken.DoBatchMint rs amts) s
     = (Some (Revert "SimpleToken: arrays length mismatch"), s)) /\
  (rs = [] -> amts = [] ->
   SimpleToken.send sender (SimpleToken.DoBatchMint rs amts) s
     = (Some (Revert "SimpleToken: empty arrays"), s)) /\
  (length rs = length amts -> rs <> [] -> Forall (fun a => 0 <= a) amts ->
   SimpleToken.totalSupply s + sum_Z amts <= MAX_UINT256 -> 0 <= SimpleToken.totalSupply s ->
   SimpleToken.cap s < SimpleToken.totalSupply s + sum_Z amts ->
   SimpleToken.send sender (SimpleToken.DoBatchMint rs amts) s
     = (Some (Revert "SimpleToken: cap exceeded"), s)) /\
  (length rs = length amts -> 0 ∈ rs ->
   exists err, SimpleToken.send sender (SimpleToken.DoBatchMint rs amts) s = (Some err, s)).
Proof.
  intros -> Hidle. split; [|split; [|split]].
  - intros Hlen. revert Hidle. unfold SimpleToken.send, SimpleToken.exec, SimpleToken.batchMint.
    open_token s. unfold_token. simpl_token. intros ->. rewrite Z.eqb_refl.
    by rewrite (proj2 (Nat.eqb_neq _ _)).
  - intros -> ->. revert Hidle.
    unfold SimpleToken.send, SimpleToken.exec, SimpleToken.batchMint.
    open_token s. unfold_token. simpl_token. intros ->. by rewrite Z.eqb_refl.
  - intros Hlen Hne Hpos Hfit Hsup Hover.
    pose proof (sum_Z_nonneg _ Hpos) as Hsum.
    assert (Hl : Nat.eqb (length rs) 0 = false).
    { apply Nat.eqb_neq. by destruct rs. }
    revert Hidle Hfit Hsup Hover.
    unfold SimpleToken.send, SimpleToken.exec, SimpleToken.batchMint.
    open_token s. unfold_token. simpl_token. intros -> Hfit Hsup Hover.
    rewrite Z.eqb_refl, (proj2 (Nat.eqb_eq _ _) Hlen), Hl. cbn [negb]. simpl_token. cbv beta iota. simpl_token.
    rewrite token_sum_amounts_ok by (done || lia). simpl_token.
    rewrite (proj2 (Z.leb_le _ _)) by lia. cbv beta iota. simpl_token.
    by rewrite (proj2 (Z.leb_gt _ _)) by lia.
  - intros Hlen Hin. unfold SimpleToken.send, SimpleToken.exec.
    destruct (SimpleToken.batchMint _ rs amts s) as [err|[[] s2]] eqn:Hb; [eauto|].
    apply batchMint_inv in Hb as (_ & _ & _ & _ & _ & s1 & Hm & _).
    apply mint_list_recipients in Hm.
    assert (Hrs : Forall (fun r => r <> 0) rs).
    { rewrite <- (fst_zip rs amts) by lia. apply Forall_fmap. exact Hm. }
    rewrite Forall_forall in Hrs. by apply Hrs in Hin.
Qed.

Lemma batchMint_rejected_up_front_witness :
  SimpleToken.send Minting.DEPLOYER (SimpleToken.DoBatchMint [12] [200; 300]) Minting.token0
    = (Some (Revert "SimpleToken: arrays length mismatch"), Minting.token0) /\
  SimpleToken.send Minting.DEPLOYER (SimpleToken.DoBatchMint [12; 13] [200; 9801]) Minting.token0
    = (Some (Revert "SimpleToken: cap exceeded"), Minting.token0) /\
  fst (SimpleToken.send Minting.DEPLOYER (SimpleToken.DoBatchMint [12; 0] [200; 300])
         Minting.token0)
    = Some (Revert "SimpleToken: mint to zero address").
Proof.
  pose proof (fun rs amts =>
    batchMint_rejected_up_front Minting.DEPLOYER rs amts Minting.token0 eq_refl eq_refl) as H.
  split; [|split; [|reflexivity]].
  - apply (proj1 (H [12] [200; 300])). discriminate.
  - apply (proj1 (proj2 (proj2 (H [12; 13] [200; 9801])))).
    + reflexivity.
    + discriminate.
    + repeat constructor; discriminate.
    + by_evaluation.
    + by_evaluation.
    + by_evaluation.
Defined.

(** ** Deployment of the token *)

(** X28: the token's constructor accepts exactly a positive cap and an
    initial supply within it.  The token it deploys is owned by the
    deployer, who holds the whole initial supply; nobody else holds
    anything, the token is not paused, and what remains to be minted is
    the cap less the initial supply. *)
Theorem token_deployment sender name_ symbol_ initial cap_ :
  sender <> 0 -> 0 <= initial -> cap_ <= MAX_UINT256 ->
  (0 < cap_ /\ initial <= cap_ <->
   exists s0, SimpleToken.constructor sender name_ symbol_ initial cap_ = inr s0) /\
  forall s0,
    SimpleToken.constructor sender name_ symbol_ initial cap_ = inr s0 ->
    SimpleToken.tokenOwner s0 = sender /\ SimpleToken.cap s0 = cap_ /\
    SimpleToken.totalSupply s0 = initial /\
    balanceOf (SimpleToken.ledger s0) sender = initial /\
    (forall a, a <> sender -> balanceOf (SimpleToken.ledger s0) a = 0) /\
    token_paused (SimpleToken.ledger s0) = false /\
    SimpleToken.remainingMintableSupply s0 = inr (cap_ - initial, s0).
Proof.
  intros Hs Hi Hcap. split; [split|].
  - intros [Hpos Hle]. unfold SimpleToken.constructor.
    rewrite (proj2 (Z.eqb_neq _ _)) by done.
    rewrite Z.gtb_ltb, (proj2 (Z.ltb_lt _ _)), (proj2 (Z.leb_le _ _)) by lia. cbn [negb].
    destruct (initial >? 0); [|eauto].
    rewrite _mint_ok; [eauto|done|done|cbn; lia].
  - intros [s0 H]. unfold SimpleToken.constructor in H.
    repeat case_token_in H; tests_to_Z; lia.
  - intros s0 H.
    destruct (constructor_supply_inv _ _ _ _ _ _ Hi Hcap H) as ((_ & _ & Hle) & Hc & Ht & Hb).
    assert (Hrest : SimpleToken.tokenOwner s0 = sender /\
              (forall a, a <> sender -> balanceOf (SimpleToken.ledger s0) a = 0) /\
              token_paused (SimpleToken.ledger s0) = false).
    { unfold SimpleToken.constructor in H. repeat case_token_in H.
      - destruct (SimpleToken._mint _ _ _) as [|[[] s1]] eqn:Hm; [discriminate|].
        apply _mint_inv in Hm as (_ & _ & _ & ->). inversion H; subst; clear H.
        unfold minted, balanceOf. simpl_token. repeat split.
        intros a Ha. rewrite rd_insert_ne by done. unfold rd. by rewrite lookup_empty.
      - inversion H; subst; clear H. unfold balanceOf, rd. simpl_token.
        repeat split; try (intros; by rewrite lookup_empty). }
    destruct Hrest as (Ho & Hz & Hp). repeat split; try done.
    unfold SimpleToken.remainingMintableSupply. unfold_token.
    rewrite Hc, Ht, (proj2 (Z.leb_le _ _)) by lia. reflexivity.
Qed.

Lemma token_deployment_witness :
  (exists s0, SimpleToken.constructor Minting.DEPLOYER "Test Token" "TEST" 400 10000 = inr s0) /\
  SimpleToken.constructor Minting.DEPLOYER "Test Token" "TEST" 10001 10000
    = inl (Revert "SimpleToken: initial supply exceeds cap").
Proof.
  split; [|reflexivity].
  refine (proj1 (proj1 (token_deployment Minting.DEPLOYER "Test Token" "TEST" 400 10000 _ _ _))
            _).
  - discriminate.
  - lia.
  - by_evaluation.
  - lia.
Defined.
